(** * Batch URL processor: a shallow embedding of [batch_processor.py]

    The orchestrator of [chromeExtensionRealtor/batch_processor.py] is
    embedded as state-passing functions over a [World]: the fields of the
    [BatchProcessor] object, the progress file, a logical clock and the trace
    of everything the processor did to the outside.  Everything outside the
    source file (backend, browser, operating system, library calls) answers
    through the oracles of an [Env], indexed by the clock. *)

From Stdlib Require Import ZArith List String Ascii Bool Lia Arith.
From Stdlib Require Import DecimalString.
Import ListNotations.

Local Open Scope string_scope.
Local Open Scope Z_scope.

(** ** Data model *)

(** [Config]: the integer and path fields the orchestration reads.  The float
    durations ([tab_delay], [retry_delay], [extraction_timeout]) are only ever
    passed to [asyncio.sleep]; they appear as the [Sleep] kinds below. *)
Record Config := mkConfig {
  csv_file : string;
  backend_url : string;
  progress_file : string;
  batch_size : Z;
  max_workers : Z;
  max_retries : Z;
  progress_save_interval : Z
}.

(** One entry of [ProcessingStats.errors]: the dict with keys url and error. *)
Record ErrorRecord := mkError {
  err_url : string;
  err_error : string
}.

Record ProcessingStats := mkStats {
  total : Z;
  processed : Z;
  successful : Z;
  failed : Z;
  skipped : Z;
  start_time : option nat;
  errors : list ErrorRecord
}.

(** [ProcessingStats()] as built by the dataclass and [__post_init__]. *)
Definition empty_stats : ProcessingStats := mkStats 0 0 0 0 0 None [].

(** The dict returned by [process_single_url]. *)
Inductive Result :=
| ResSkipped (url : string)                  (* success, skipped *)
| ResExtracted (url : string)                (* success, extracted *)
| ResError (url : string) (error : string).  (* no success, error message *)

Inductive Exn :=
| AttributeError
| ValueError
| ZeroDivisionError
| ReaderError.  (* raised while the csv reader reads on: _csv.Error, or a
                  decoding error of the file *)

(** What the try block of [check_url_exists] observes: an exception anywhere
    (transport, HTTP status, JSON decoding), or the decoded object with its
    optional isDuplicate member, taken by its truth value. *)
Inductive DupReply :=
| DupError
| DupJson (isDuplicate : option bool).

(** A tab object of the DevTools endpoint; [tab_id] is its optional id key. *)
Record Tab := mkTab { tab_id : option string }.

(** Answer to GET /json: an exception, or the list of tabs of which only the
    first matters. *)
Inductive TabsReply :=
| TabsError
| TabsOk (first : option Tab).

Inductive Sleep :=
| SleepChromeStart   (* asyncio.sleep(5) in start_chrome *)
| SleepExtraction    (* asyncio.sleep(extraction_timeout) *)
| SleepSettle        (* asyncio.sleep(2) before verification *)
| SleepRetry         (* asyncio.sleep(retry_delay) *)
| SleepTab           (* asyncio.sleep(tab_delay) *)
| SleepBatch.        (* asyncio.sleep(3) between batches *)

(** The progress dict written by [_save_progress]. *)
Record Progress := mkProgress {
  last_update : nat;
  progress_stats : ProcessingStats;
  progress_config : Config
}.

Inductive Event :=
| EvSignal                                        (* _signal_handler ran *)
| EvCheckDuplicate (url : string) (r : DupReply)  (* POST /api/check-duplicate *)
| EvListTabs (r : TabsReply)                      (* GET :9222/json *)
| EvNewTab (url : string) (r : option Tab)        (* POST :9222/json/new *)
| EvCloseTab (id : string) (ok : bool)            (* POST :9222/json/close/id *)
| EvTabOpenerProbe (present : bool)               (* os.path.exists(tab_opener.sh) *)
| EvTabOpener (url : string) (ok : bool)          (* ./tab_opener.sh run *)
| EvSleep (s : Sleep)
| EvBatch (batch_index : Z) (size : nat)          (* process_batch entered *)
| EvTask (url : string) (index : Z)               (* process_single_url entered *)
| EvAttempt (url : string) (attempt : Z)          (* one iteration of the retry loop *)
| EvSave (p : Progress)                           (* progress file rewritten *)
| EvSaveFailed                                    (* writing the progress file raised *)
| EvPopen (pid : option Z)                        (* subprocess.Popen *)
| EvDebugProbe (ok : bool)                        (* _verify_chrome_debugging *)
| EvTerminate (pid : Z)
| EvWaitExit (pid : Z) (exited : bool)            (* wait_for(..., timeout=10) *)
| EvKill (pid : Z).

(** Everything the source file does not define.  Each oracle takes the clock
    value at which the call is made. *)
Record Env := mkEnv {
  signal_at : nat -> bool;                 (* SIGINT/SIGTERM delivered during this step *)
  duplicate_reply : nat -> string -> DupReply;
  list_tabs : nat -> TabsReply;
  new_tab : nat -> string -> option Tab;   (* None: the request raised *)
  close_tab : nat -> string -> bool;       (* false: the request raised *)
  tab_opener_present : nat -> bool;
  tab_opener_run : nat -> string -> bool;  (* true: ran and exited with code 0 *)
  popen : nat -> option Z;                 (* None: Popen raised *)
  debug_port_ok : nat -> bool;
  exits_within_timeout : nat -> Z -> bool;
  open_progress_ok : nat -> bool;          (* false: open(progress_file, w) raised *)
  json_dump : Progress -> string;          (* json.dump(progress, indent=2, default=str) *)
  dump_fails_at : nat -> option nat;
    (* Some k: json.dump, or the closing of the file, raised when k
       characters of the text had reached the file; None: neither raised *)
  schedule : nat -> list nat;
    (* the order in which the threads of the batch entered at this clock
       value take their steps: 0 is the main thread, k + 1 the thread of the
       k-th task handed to the executor *)
  as_completed_yields : bool
    (* whether concurrent.futures.as_completed iterates over the futures of
       loop.run_in_executor.  CPython answers no: these are asyncio futures,
       without the _condition attribute as_completed acquires, and the
       iteration raises AttributeError.  true is the behaviour the call is
       written for. *)
}.

(** The [BatchProcessor] object ([config], [stats], [chrome_process],
    [should_stop]), the file at [config.progress_file], the clock and the
    trace (most recent event first). *)
Record World := mkWorld {
  config : Config;
  stats : ProcessingStats;
  chrome_process : option Z;
  should_stop : bool;
  progress_store : option string;
  clock : nat;
  trace : list Event
}.

Definition set_stats (s : ProcessingStats) (w : World) : World :=
  mkWorld (config w) s (chrome_process w) (should_stop w) (progress_store w)
          (clock w) (trace w).

Definition set_chrome (p : option Z) (w : World) : World :=
  mkWorld (config w) (stats w) p (should_stop w) (progress_store w)
          (clock w) (trace w).

(** [_signal_handler], run when a signal was delivered: it logs and sets
    [should_stop]. *)
Definition deliver (signalled : bool) (w : World) : World :=
  mkWorld (config w) (stats w) (chrome_process w) (should_stop w || signalled)
          (progress_store w) (clock w)
          (if signalled then EvSignal :: trace w else trace w).

Definition set_store (f : option string) (w : World) : World :=
  mkWorld (config w) (stats w) (chrome_process w) (should_stop w) f
          (clock w) (trace w).

Definition set_clock (c : nat) (w : World) : World :=
  mkWorld (config w) (stats w) (chrome_process w) (should_stop w)
          (progress_store w) c (trace w).

Definition log (e : Event) (w : World) : World :=
  mkWorld (config w) (stats w) (chrome_process w) (should_stop w)
          (progress_store w) (clock w) (e :: trace w).

(** ** The state monad of the processor *)

Definition M (A : Type) : Type := World -> A * World.

Definition ret {A} (a : A) : M A := fun w => (a, w).

Definition bind {A B} (m : M A) (k : A -> M B) : M B :=
  fun w => let r := m w in k (fst r) (snd r).

Declare Scope proc_scope.
Delimit Scope proc_scope with proc.
Notation "x <- m ;; k" := (bind m (fun x => k))
  (at level 61, m at next level, right associativity) : proc_scope.
Notation "m ;;; k" := (bind m (fun _ => k))
  (at level 61, right associativity) : proc_scope.
Local Open Scope proc_scope.

Definition gets {A} (f : World -> A) : M A := fun w => (f w, w).
Definition modify (f : World -> World) : M unit := fun w => (tt, f w).
Definition emit (e : Event) : M unit := modify (log e).

Definition add_skipped (s : ProcessingStats) : ProcessingStats :=
  mkStats (total s) (processed s) (successful s) (failed s) (skipped s + 1)
          (start_time s) (errors s).

Definition add_successful (s : ProcessingStats) : ProcessingStats :=
  mkStats (total s) (processed s) (successful s + 1) (failed s) (skipped s)
          (start_time s) (errors s).

Definition add_failed (e : ErrorRecord) (s : ProcessingStats) : ProcessingStats :=
  mkStats (total s) (processed s) (successful s) (failed s + 1) (skipped s)
          (start_time s) (errors s ++ [e]).

Definition add_processed (n : Z) (s : ProcessingStats) : ProcessingStats :=
  mkStats (total s) (processed s + n) (successful s) (failed s) (skipped s)
          (start_time s) (errors s).

Definition begin_stats (n : Z) (now : nat) (s : ProcessingStats) : ProcessingStats :=
  mkStats n (processed s) (successful s) (failed s) (skipped s)
          (Some now) (errors s).

Definition update_stats (f : ProcessingStats -> ProcessingStats) : M unit :=
  modify (fun w => set_stats (f (stats w)) w).

(** The writes a task makes to the statistics. *)
Definition set_skipped (n : Z) (s : ProcessingStats) : ProcessingStats :=
  mkStats (total s) (processed s) (successful s) (failed s) n
          (start_time s) (errors s).

Definition set_successful (n : Z) (s : ProcessingStats) : ProcessingStats :=
  mkStats (total s) (processed s) n (failed s) (skipped s)
          (start_time s) (errors s).

Definition set_failed (n : Z) (s : ProcessingStats) : ProcessingStats :=
  mkStats (total s) (processed s) (successful s) n (skipped s)
          (start_time s) (errors s).

Definition append_error (e : ErrorRecord) (s : ProcessingStats) : ProcessingStats :=
  mkStats (total s) (processed s) (successful s) (failed s) (skipped s)
          (start_time s) (errors s ++ [e]).

(** str(n) for a Python int. *)
Definition string_of_Z (n : Z) : string := NilZero.string_of_int (Z.to_int n).

(** ** Threads

    What a thread has left to do: nothing but to answer, or a step and what
    follows its answer.  A step is taken at once; between two steps of a
    thread the other threads may take steps of their own. *)
Inductive Thread (A : Type) : Type :=
| Done (a : A)
| Step {B : Type} (m : M B) (next : B -> Thread A).

Arguments Done {A} a.
Arguments Step {A B} m next.

Fixpoint and_then {A B} (p : Thread A) (k : A -> Thread B) : Thread B :=
  match p with
  | Done a => k a
  | Step m next => Step m (fun b => and_then (next b) k)
  end.

Definition atom {A} (m : M A) : Thread A := Step m Done.

Declare Scope thread_scope.
Delimit Scope thread_scope with thread.
Notation "x <~ p ;; k" := (and_then p (fun x => k))
  (at level 61, p at next level, right associativity) : thread_scope.
Notation "p ;;~ k" := (and_then p (fun _ => k))
  (at level 61, right associativity) : thread_scope.

(** The thread run to its end with no step of another thread in between. *)
Fixpoint alone {A} (p : Thread A) : M A :=
  fun w =>
    match p with
    | Done a => (a, w)
    | Step m next => let r := m w in alone (next (fst r)) (snd r)
    end.

(** self.stats.counter += 1 as a thread takes it: the counter is read, then
    written. *)
Definition increment (counter : ProcessingStats -> Z)
                     (set : Z -> ProcessingStats -> ProcessingStats)
  : Thread unit :=
  (n <~ atom (gets (fun w => counter (stats w))) ;;
   atom (update_stats (set (n + 1))))%thread.

(** A task handed to the executor: whether a worker thread has taken it up,
    and what is left of it. *)
Record Job := mkJob {
  taken : bool;
  remaining : Thread Result
}.

Definition finished (j : Job) : bool :=
  match remaining j with
  | Done _ => true
  | Step _ _ => false
  end.

(** The number of worker threads at work: the jobs taken up and not yet
    finished. *)
Definition busy (jobs : list Job) : Z :=
  Z.of_nat (List.length (filter (fun j => taken j && negb (finished j)) jobs)).

(** The executor has at most [limit] worker threads and hands them the jobs
    in the order they came in: the job at position [k] can be taken up when a
    worker is free and every job before it was taken up. *)
Definition free_worker (limit : Z) (k : nat) (jobs : list Job) : bool :=
  (busy jobs <? limit) && forallb taken (firstn k jobs).

(** [l] with [a] at position [k]; [l] itself when it has no such position. *)
Fixpoint set_nth {A} (k : nat) (a : A) (l : list A) : list A :=
  match l, k with
  | [], _ => []
  | _ :: rest, O => a :: rest
  | x :: rest, S k' => x :: set_nth k' a rest
  end.

(** Where the main thread stands in the launch loop of [process_batch]. *)
Inductive Launch :=
| Launching (urls : list string) (i : Z)   (* at the head of the loop, [urls] to go *)
| Pausing (urls : list string) (i : Z).    (* in asyncio.sleep(tab_delay) *)

(** The steps the main thread has left in the launch loop, at most. *)
Definition launch_left (l : Launch) : nat :=
  match l with
  | Launching urls _ => 2 * List.length urls
  | Pausing urls _ => 2 * List.length urls + 1
  end.

Record Pool := mkPool {
  launch : Launch;
  jobs : list Job
}.

(** A turn of the job at position [k]: a worker thread takes it up if it
    can, or the worker that has it takes its next step. *)
Definition job_step (limit : Z) (k : nat) (pool : Pool) : M Pool :=
  match nth_error (jobs pool) k with
  | None => ret pool
  | Some j =>
      if taken j then
        match remaining j with
        | Done _ => ret pool
        | Step m next =>
            b <- m ;;
            ret (mkPool (launch pool) (set_nth k (mkJob true (next b)) (jobs pool)))
        end
      else if free_worker limit k (jobs pool) then
        ret (mkPool (launch pool) (set_nth k (mkJob true (remaining j)) (jobs pool)))
      else ret pool
  end.

(** Leaving the with block joins the worker threads: every job handed to the
    executor is run to its end.  Here the jobs end one after the other, in
    the order they were handed in; steps of theirs that overlap are steps of
    a longer schedule. *)
Fixpoint join (jobs : list Job) : M (list Result) :=
  match jobs with
  | [] => ret []
  | j :: rest =>
      r <- alone (remaining j) ;;
      rs <- join rest ;;
      ret (r :: rs)
  end.

Section Processor.

Variable env : Env.

(** One step of the outside world: the clock advances, and a signal delivered
    meanwhile runs [_signal_handler], which sets [should_stop]. *)
Definition tick : M unit :=
  fun w => (tt, set_clock (S (clock w)) (deliver (signal_at env (clock w)) w)).

(** A call that leaves the process: its answer is the oracle's at the current
    clock value; the call is logged and one step passes. *)
Definition io {A} (oracle : nat -> A) (ev : A -> Event) : M A :=
  a <- gets (fun w => oracle (clock w)) ;;
  emit (ev a) ;;;
  tick ;;;
  ret a.

Definition sleep (s : Sleep) : M unit := emit (EvSleep s) ;;; tick.

(** ** Item processor *)

Definition is_duplicate (r : DupReply) : bool :=
  match r with
  | DupError => false                  (* except Exception: return False *)
  | DupJson None => false              (* data.get(isDuplicate, False) *)
  | DupJson (Some b) => b
  end.

Definition check_url_exists (url : string) : M bool :=
  r <- io (fun t => duplicate_reply env t url) (EvCheckDuplicate url) ;;
  ret (is_duplicate r).

Definition process_url_via_chrome_devtools (url : string) : M bool :=
  tabs <- io (list_tabs env) EvListTabs ;;
  match tabs with
  | TabsError => ret false
  | TabsOk first =>
      tab <- match first with
             | None => io (fun t => new_tab env t url) (EvNewTab url)
             | Some t => ret (Some t)
             end ;;
      match tab with
      | None => ret false
      | Some t =>
          sleep SleepExtraction ;;;
          match tab_id t with
          | Some id => io (fun c => close_tab env c id) (EvCloseTab id)
          | None => ret true
          end
      end
  end.

Definition process_url_via_tab_opener (url : string) : M bool :=
  io (fun t => tab_opener_run env t url) (EvTabOpener url).

Definition stopped_by_user : string := "Stopped by user".

Definition failed_after (n : Z) : string :=
  "Failed after " ++ string_of_Z n ++ " attempts".

(** The fallback of one attempt, taken when tab_opener.sh exists.  [true]:
    it returned the success dict, having counted the item successful. *)
Definition fallback_extraction (url : string) : M bool :=
  present <- gets (fun w => tab_opener_present env (clock w)) ;;
  emit (EvTabOpenerProbe present) ;;;
  if present then
    success <- process_url_via_tab_opener url ;;
    verified <- (if success then check_url_exists url else ret false) ;;
    if verified then
      update_stats add_successful ;;;
      ret true
    else ret false
  else ret false.

(** The try block of one attempt.  [true]: it returned the success dict;
    [false]: it fell through.  The except clause has no counterpart: both
    triggers and the duplicate check catch their own exceptions and answer
    [false]. *)
Definition attempt_extraction (url : string) : M bool :=
  success <- process_url_via_chrome_devtools url ;;
  verified <- (if success
               then sleep SleepSettle ;;; check_url_exists url
               else ret false) ;;
  if verified then
    update_stats add_successful ;;;
    ret true
  else fallback_extraction url.

(** The body of [for attempt in range(1, max_retries + 1)], iterated
    [remaining] more times starting at [attempt].  [Some r] is a return from
    inside the loop, [None] the loop running out. *)
Fixpoint retry_loop (url : string) (remaining : nat) (attempt : Z)
  : M (option Result) :=
  match remaining with
  | O => ret None
  | S remaining' =>
      stop <- gets should_stop ;;
      if stop then ret (Some (ResError url stopped_by_user)) else
      emit (EvAttempt url attempt) ;;;
      extracted <- attempt_extraction url ;;
      if extracted then ret (Some (ResExtracted url)) else
      max <- gets (fun w => max_retries (config w)) ;;
      (if attempt <? max then sleep SleepRetry else ret tt) ;;;
      retry_loop url remaining' (attempt + 1)
  end.

Definition process_single_url (url : string) (index : Z) : M Result :=
  emit (EvTask url index) ;;;
  dup <- check_url_exists url ;;
  if dup then
    update_stats add_skipped ;;;
    ret (ResSkipped url)
  else
    max <- gets (fun w => max_retries (config w)) ;;
    r <- retry_loop url (Z.to_nat max) 1 ;;
    match r with
    | Some res => ret res
    | None =>
        let error_msg := failed_after max in
        update_stats (add_failed (mkError url error_msg)) ;;;
        ret (ResError url error_msg)
    end.

(** ** The item processor as a thread

    The same code cut into the steps a worker thread takes: a call that
    leaves the process, a sleep, a log line, a read or a write of a field of
    the processor.  [alone] gives back the functions above. *)

Local Open Scope thread_scope.

Definition process_url_via_chrome_devtools_thread (url : string) : Thread bool :=
  tabs <~ atom (io (list_tabs env) EvListTabs) ;;
  match tabs with
  | TabsError => Done false
  | TabsOk first =>
      tab <~ match first with
             | None => atom (io (fun t => new_tab env t url) (EvNewTab url))
             | Some t => Done (Some t)
             end ;;
      match tab with
      | None => Done false
      | Some t =>
          atom (sleep SleepExtraction) ;;~
          match tab_id t with
          | Some id => atom (io (fun c => close_tab env c id) (EvCloseTab id))
          | None => Done true
          end
      end
  end.

Definition fallback_extraction_thread (url : string) : Thread bool :=
  present <~ atom (present <- gets (fun w => tab_opener_present env (clock w)) ;;
                   emit (EvTabOpenerProbe present) ;;;
                   ret present)%proc ;;
  if present then
    success <~ atom (process_url_via_tab_opener url) ;;
    verified <~ (if success then atom (check_url_exists url) else Done false) ;;
    if verified then
      increment successful set_successful ;;~
      Done true
    else Done false
  else Done false.

Definition attempt_extraction_thread (url : string) : Thread bool :=
  success <~ process_url_via_chrome_devtools_thread url ;;
  verified <~ (if success
               then atom (sleep SleepSettle) ;;~ atom (check_url_exists url)
               else Done false) ;;
  if verified then
    increment successful set_successful ;;~
    Done true
  else fallback_extraction_thread url.

Fixpoint retry_loop_thread (url : string) (remaining : nat) (attempt : Z)
  : Thread (option Result) :=
  match remaining with
  | O => Done None
  | S remaining' =>
      stop <~ atom (gets should_stop) ;;
      if stop then Done (Some (ResError url stopped_by_user)) else
      atom (emit (EvAttempt url attempt)) ;;~
      extracted <~ attempt_extraction_thread url ;;
      if extracted then Done (Some (ResExtracted url)) else
      max <~ atom (gets (fun w => max_retries (config w))) ;;
      (if attempt <? max then atom (sleep SleepRetry) else Done tt) ;;~
      retry_loop_thread url remaining' (attempt + 1)
  end.

Definition process_single_url_thread (url : string) (index : Z) : Thread Result :=
  atom (emit (EvTask url index)) ;;~
  dup <~ atom (check_url_exists url) ;;
  if dup then
    increment skipped set_skipped ;;~
    Done (ResSkipped url)
  else
    max <~ atom (gets (fun w => max_retries (config w))) ;;
    r <~ retry_loop_thread url (Z.to_nat max) 1 ;;
    match r with
    | Some res => Done res
    | None =>
        let error_msg := failed_after max in
        increment failed set_failed ;;~
        atom (update_stats (append_error (mkError url error_msg))) ;;~
        Done (ResError url error_msg)
    end.

Local Close Scope thread_scope.

(** ** Batch scheduler *)

(** A step of the main thread in the launch loop of [process_batch]: at the
    head of the loop it reads [should_stop] and hands the next task to the
    executor, a step during which a signal may arrive, [size] being len(urls)
    of the batch; in the pause it sleeps. *)
Definition launch_step (size : Z) (pool : Pool) : M Pool :=
  match launch pool with
  | Launching [] _ => ret pool
  | Launching (url :: rest) i =>
      stop <- gets should_stop ;;
      if stop then ret (mkPool (Launching [] i) (jobs pool)) else
      global_index <- gets (fun w => processed (stats w) + i + 1) ;;
      let job := mkJob false (process_single_url_thread url global_index) in
      tick ;;;
      ret (mkPool (if i <? size - 1 then Pausing rest (i + 1)
                   else Launching rest (i + 1))
                  (jobs pool ++ [job]))
  | Pausing rest i =>
      sleep SleepTab ;;;
      ret (mkPool (Launching rest i) (jobs pool))
  end.

(** The threads take their steps in the order given: 0 is the main thread,
    [k + 1] the job at position [k]; a thread that cannot take a step lets
    its turn pass. *)
Fixpoint run_pool (limit size : Z) (order : list nat) (pool : Pool) : M Pool :=
  match order with
  | [] => ret pool
  | O :: rest =>
      pool' <- launch_step size pool ;;
      run_pool limit size rest pool'
  | S k :: rest =>
      pool' <- job_step limit k pool ;;
      run_pool limit size rest pool'
  end.

(** The with block of [process_batch] for an executor of [limit] worker
    threads.  The threads run in the order the schedule gives; when the
    schedule is used up the main thread ends the launch loop, and leaving the
    block joins the workers, whether or not collecting the results has
    raised.  The answer is what the tasks handed in returned. *)
Definition with_executor (limit : Z) (urls : list string) : M (list Result) :=
  order <- gets (fun w => schedule env (clock w)) ;;
  let size := Z.of_nat (List.length urls) in
  pool <- run_pool limit size order (mkPool (Launching urls 0) []) ;;
  pool <- run_pool limit size (repeat O (launch_left (launch pool))) pool ;;
  join (jobs pool).

(** [process_batch].  The batch is announced in the log, a step during which
    a signal may arrive before the launch loop reads [should_stop].
    ThreadPoolExecutor refuses a number of workers that is not positive.
    as_completed iterates nothing, and raises nothing, when no task was
    handed in. *)
Definition process_batch (urls : list string) (batch_index : Z)
  : M (Exn + list Result) :=
  emit (EvBatch batch_index (List.length urls)) ;;;
  tick ;;;
  limit <- gets (fun w => max_workers (config w)) ;;
  if limit <=? 0 then ret (inl ValueError) else
  results <- with_executor limit urls ;;
  match results with
  | [] => ret (inr [])
  | _ :: _ =>
      if as_completed_yields env then ret (inr results)
      else ret (inl AttributeError)
  end.

(** ** Progress ledger *)

Definition current_progress (w : World) : Progress :=
  mkProgress (clock w) (stats w) (config w).

(** with open(progress_file, w) as f: the file is truncated as it is opened.
    [false]: open raised, and the file is as it was. *)
Definition open_progress : M bool :=
  opened <- gets (fun w => open_progress_ok env (clock w)) ;;
  if opened then
    modify (set_store (Some EmptyString)) ;;;
    ret true
  else ret false.

(** json.dump(progress, f, ...) and the end of the with block, which closes
    the file.  [false]: one of them raised, and the file holds what had
    reached it. *)
Definition dump_progress (text : string) : M bool :=
  failure <- gets (fun w => dump_fails_at env (clock w)) ;;
  match failure with
  | None =>
      modify (set_store (Some text)) ;;;
      ret true
  | Some k =>
      modify (set_store (Some (substring 0 k text))) ;;;
      ret false
  end.

(** [_save_progress]: an exception is logged and swallowed. *)
Definition _save_progress : M unit :=
  p <- gets current_progress ;;
  opened <- open_progress ;;
  if opened then
    written <- dump_progress (json_dump env p) ;;
    (if written then emit (EvSave p) else emit EvSaveFailed) ;;;
    tick
  else
    emit EvSaveFailed ;;;
    tick.

(** range(0, n, step) for n >= 0; a zero step is rejected by the caller. *)
Definition py_range0 (n step : Z) : list Z :=
  if step <=? 0 then []
  else map (fun k => Z.of_nat k * step) (seq 0 (Z.to_nat ((n + step - 1) / step))).

(** urls[i : j] for 0 <= i <= j. *)
Definition slice {A} (l : list A) (i j : Z) : list A :=
  firstn (Z.to_nat (j - i)) (skipn (Z.to_nat i) l).

(** The batch loop of [process_all_urls] over the remaining start indices.
    [_print_progress] only logs and is left out. *)
Fixpoint batch_loop (urls : list string) (starts : list Z) : M (Exn + unit) :=
  match starts with
  | [] => ret (inr tt)
  | i :: rest =>
      stop <- gets should_stop ;;
      if stop then ret (inr tt) else
      size <- gets (fun w => batch_size (config w)) ;;
      let batch := slice urls i (i + size) in
      let batch_index := i / size + 1 in
      r <- process_batch batch batch_index ;;
      match r with
      | inl e => ret (inl e)
      | inr _ =>
          update_stats (add_processed (Z.of_nat (List.length batch))) ;;;
          done <- gets (fun w => processed (stats w)) ;;
          interval <- gets (fun w => progress_save_interval (config w)) ;;
          if interval =? 0 then ret (inl ZeroDivisionError) else
          (if done mod interval =? 0 then _save_progress else ret tt) ;;;
          (if i + size <? Z.of_nat (List.length urls) then sleep SleepBatch else ret tt) ;;;
          batch_loop urls rest
      end
  end.

Definition process_all_urls (urls : list string) : M (Exn + unit) :=
  let n := Z.of_nat (List.length urls) in
  modify (fun w => set_stats (begin_stats n (clock w) (stats w)) w) ;;;
  size <- gets (fun w => batch_size (config w)) ;;
  if size =? 0 then ret (inl ValueError) else
  r <- batch_loop urls (py_range0 n size) ;;
  match r with
  | inl e => ret (inl e)
  | inr _ => _save_progress ;;; ret (inr tt)
  end.

(** ** Process supervisor *)

Definition _verify_chrome_debugging : M bool :=
  io (debug_port_ok env) EvDebugProbe.

Definition start_chrome : M bool :=
  p <- io (popen env) EvPopen ;;
  match p with
  | None => ret false                       (* Popen raised; caught *)
  | Some pid =>
      modify (set_chrome (Some pid)) ;;;
      sleep SleepChromeStart ;;;
      _verify_chrome_debugging             (* false: RuntimeError raised and caught *)
  end.

Definition stop_chrome : M unit :=
  cp <- gets chrome_process ;;
  match cp with
  | None => ret tt
  | Some pid =>
      emit (EvTerminate pid) ;;;
      exited <- io (fun t => exits_within_timeout env t pid) (EvWaitExit pid) ;;
      (if exited then ret tt else emit (EvKill pid)) ;;;
      modify (set_chrome None)
  end.

End Processor.

(** A freshly constructed [BatchProcessor(config)] at clock 0. *)
Definition new_processor (c : Config) : World :=
  mkWorld c empty_stats None false None 0%nat [].

(** The defaults of the [Config] dataclass. *)
Definition default_config : Config :=
  mkConfig "90028 realtors LINKS ONLY (copy).csv" "http://localhost:5001"
           "batch_progress.json" 5 3 3 10.

(** ** Identifier source *)

Module Csv.

(** Python strings are read as sequences of code points below 256. *)

(** str.isspace on one code point. *)
Definition is_space (c : ascii) : bool :=
  let n := nat_of_ascii c in
  ((9 <=? n) && (n <=? 13) || (28 <=? n) && (n <=? 32)
   || (n =? 133) || (n =? 160))%nat.

Fixpoint lstrip (s : string) : string :=
  match s with
  | EmptyString => EmptyString
  | String c s' => if is_space c then lstrip s' else s
  end.

Fixpoint rstrip (s : string) : string :=
  match s with
  | EmptyString => EmptyString
  | String c s' =>
      match rstrip s' with
      | EmptyString => if is_space c then EmptyString else String c EmptyString
      | r => String c r
      end
  end.

(** str.strip() *)
Definition strip (s : string) : string := rstrip (lstrip s).

(** str.lower() on one code point. *)
Definition lower_char (c : ascii) : ascii :=
  let n := nat_of_ascii c in
  if ((65 <=? n) && (n <=? 90)
      || (192 <=? n) && (n <=? 222) && negb (n =? 215))%nat
  then ascii_of_nat (n + 32) else c.

Fixpoint lower (s : string) : string :=
  match s with
  | EmptyString => EmptyString
  | String c s' => String (lower_char c) (lower s')
  end.

(** [needle in s] *)
Fixpoint contains (needle s : string) : bool :=
  prefix needle s ||
  match s with
  | EmptyString => false
  | String _ s' => contains needle s'
  end.

(** s.split(newline)[0] *)
Fixpoint first_line (s : string) : string :=
  match s with
  | EmptyString => EmptyString
  | String c s' => if Ascii.eqb c "010"%char then EmptyString
                   else String c (first_line s')
  end.

(** The opened file: its decoded text, the records csv.reader yields for it
    (lists of fields, the empty list for a blank line), and how the reader
    stops after them: at the end of the file, or by raising on what follows
    (_csv.Error for a field larger than the field size limit, a decoding
    error of the file). *)
Record CsvFile := mkCsvSource {
  csv_text : string;
  csv_records : list (list string);
  csv_error : bool
}.

(** A file the reader reads to its end. *)
Definition mkCsvFile (text : string) (records : list (list string)) : CsvFile :=
  mkCsvSource text records false.

Definition url_indicators : list string :=
  ["url"; "link"; "address"; "page"; "realtor"].

(** [_detect_url_column]; [None] is a reader without field names. *)
Definition _detect_url_column (fieldnames : option (list string)) : string :=
  match fieldnames with
  | None | Some [] => "url"
  | Some (first :: rest) =>
      match find (fun field =>
                    existsb (fun indicator => contains indicator (lower field))
                            url_indicators)
                 (first :: rest) with
      | Some field => field
      | None => first
      end
  end.

(** The dict csv.DictReader builds for one record: the zip of names and
    fields, then the names left over bound to None.  Bindings are listed in
    insertion order and a later one overrides an earlier one.  The surplus
    fields go under the key None, which no column name equals. *)
Definition dict_row (fieldnames row : list string)
  : list (string * option string) :=
  map (fun kv => (fst kv, Some (snd kv))) (combine fieldnames row)
  ++ map (fun k => (k, None)) (skipn (List.length row) fieldnames).

Definition dict_get (d : list (string * option string)) (key : string)
  : option (option string) :=
  option_map snd (find (fun kv => String.eqb (fst kv) key) (rev d)).

(** How a loop over the reader ends once the records are used up. *)
Definition reader_end (raises : bool) : Exn + list string :=
  if raises then inl ReaderError else inr [].

(** The loop over a DictReader: blank records are skipped; a cell that is
    None has no strip method. *)
Fixpoint read_dict_rows (fieldnames : list string) (url_column : string)
                        (raises : bool) (rows : list (list string))
  : Exn + list string :=
  match rows with
  | [] => reader_end raises
  | [] :: rest => read_dict_rows fieldnames url_column raises rest
  | row :: rest =>
      match dict_get (dict_row fieldnames row) url_column with
      | Some None => inl AttributeError
      | cell =>
          let url := strip (match cell with Some (Some v) => v | _ => "" end) in
          match read_dict_rows fieldnames url_column raises rest with
          | inl e => inl e
          | inr urls => inr (if String.eqb url "" then urls else url :: urls)
          end
      end
  end.

(** The loop over a plain csv.reader. *)
Fixpoint read_plain_rows (raises : bool) (rows : list (list string))
  : Exn + list string :=
  match rows with
  | [] => reader_end raises
  | [] :: rest => read_plain_rows raises rest
  | (field :: _) :: rest =>
      match read_plain_rows raises rest with
      | inl e => inl e
      | inr urls =>
          inr (if String.eqb (strip field) "" then urls else strip field :: urls)
      end
  end.

Definition has_header (f : CsvFile) : bool :=
  negb (prefix "http" (strip (first_line (substring 0 1024 (csv_text f))))).

Definition load_urls_from_csv (f : CsvFile) : Exn + list string :=
  if has_header f then
    match csv_records f with
    | [] => reader_end (csv_error f)       (* reader.fieldnames reads the first record *)
    | fieldnames :: rows =>
        read_dict_rows fieldnames (_detect_url_column (Some fieldnames))
                       (csv_error f) rows
    end
  else read_plain_rows (csv_error f) (csv_records f).

End Csv.

Local Open Scope list_scope.

(** ** Observations on traces *)

(** Events that begin new work: a batch, an item task, an extraction attempt. *)
Definition starts_work (e : Event) : bool :=
  match e with
  | EvBatch _ _ | EvTask _ _ | EvAttempt _ _ => true
  | _ => false
  end.

Definition is_signal (e : Event) : bool :=
  match e with EvSignal => true | _ => false end.

Definition is_attempt (e : Event) : bool :=
  match e with EvAttempt _ _ => true | _ => false end.

(** A call of [process_url_via_chrome_devtools] opens with GET /json. *)
Definition is_primary_trigger (e : Event) : bool :=
  match e with EvListTabs _ => true | _ => false end.

(** Anything done to the browser or to the helper script for an extraction. *)
Definition is_extraction (e : Event) : bool :=
  match e with
  | EvAttempt _ _ | EvListTabs _ | EvNewTab _ _ | EvCloseTab _ _
  | EvTabOpenerProbe _ | EvTabOpener _ _ | EvSleep SleepExtraction => true
  | _ => false
  end.

Definition count (p : Event -> bool) (tr : list Event) : nat :=
  List.length (filter p tr).

(** Reads a trace in chronological order, following the shutdown flag from
    its value [stopped] at the start.  [None]: some work began while the flag
    was set.  [Some b]: none did, and the flag ends as [b]. *)
Fixpoint monitor (stopped : bool) (chrono : list Event) : option bool :=
  match chrono with
  | [] => Some stopped
  | e :: rest =>
      if starts_work e then (if stopped then None else monitor false rest)
      else monitor (stopped || is_signal e) rest
  end.

(** [w'] comes after [w]: same configuration, a longer trace in which no work
    begins under a set flag, and the flag as the trace says. *)
Definition steps (w w' : World) : Prop :=
  config w' = config w /\
  exists new, trace w' = new ++ trace w /\
              monitor (should_stop w) (rev new) = Some (should_stop w').

(** No shutdown was requested and none will be from now on. *)
Definition quiet (env : Env) (w : World) : Prop :=
  should_stop w = false /\
  forall t, (clock w <= t)%nat -> signal_at env t = false.

(** [w'] differs from [w] by time passing and by [a] attempts begun and [t]
    primary triggers fired; the books are as they were, and a quiet world
    stays quiet. *)
Definition advance (env : Env) (a t : nat) (w w' : World) : Prop :=
  stats w' = stats w /\ config w' = config w /\
  chrome_process w' = chrome_process w /\
  progress_store w' = progress_store w /\
  (clock w <= clock w')%nat /\
  count is_attempt (trace w') = (count is_attempt (trace w) + a)%nat /\
  count is_primary_trigger (trace w') = (count is_primary_trigger (trace w) + t)%nat /\
  (quiet env w -> quiet env w').

Definition idle (env : Env) : World -> World -> Prop := advance env 0 0.

(** A computation all of whose runs relate the world before to the world
    after by [R]. *)
Definition respects (R : World -> World -> Prop) {A} (m : M A) : Prop :=
  forall w, R w (snd (m w)).

(** At most the signal marker. *)
Definition maybe_signal (sig : list Event) : Prop :=
  sig = [] \/ sig = [EvSignal].

(** What comes right before a verification: the settle delay on the primary
    path, the successful run of the helper on the fallback path. *)
Definition precedes_verification (url : string) (e : Event) : Prop :=
  e = EvSleep SleepSettle \/ e = EvTabOpener url true.

(** [tr] continues [old] and its last call is a duplicate check of [url]
    that the backend answered positively. *)
Definition verified_last (env : Env) (url : string) (old tr : list Event)
  : Prop :=
  exists sig reply sig' before mid,
    tr = sig ++ EvCheckDuplicate url reply :: sig' ++ before :: mid ++ old /\
    precedes_verification url before /\
    (exists c, reply = duplicate_reply env c url) /\
    is_duplicate reply = true /\
    maybe_signal sig /\ maybe_signal sig'.

(** What one try of an extraction does, [r] being its answer and final world
    from [w]: up to the world [w4] in which it returns it has only waited and
    called out, firing the primary trigger [t] times; it answers [true] only
    on a positive verification, and then counts the item successful. *)
Definition attempt_post (env : Env) (url : string) (t : nat) (w : World)
                        (r : bool * World) : Prop :=
  exists w4,
    advance env 0 t w w4 /\
    (exists new, trace w4 = new ++ trace w) /\
    (if fst r
     then snd r = set_stats (add_successful (stats w4)) w4 /\
          verified_last env url (trace w) (trace w4)
     else snd r = w4) /\
    ((forall c, is_duplicate (duplicate_reply env c url) = false) -> fst r = false).

(** [tr] continues [old] with an attempt on [url] and, as its last call, a
    positive duplicate check of [url]. *)
Definition verified_success (env : Env) (url : string)
                            (old tr : list Event) : Prop :=
  exists sig reply sig' before mid k older,
    tr = sig ++ EvCheckDuplicate url reply :: sig' ++ before :: mid
             ++ EvAttempt url k :: older ++ old /\
    precedes_verification url before /\
    (exists c, reply = duplicate_reply env c url) /\
    is_duplicate reply = true /\
    maybe_signal sig /\ maybe_signal sig'.

(** What the retry loop does, [r] being its answer and final world from [w]. *)
Definition loop_post (env : Env) (url : string) (w : World)
                     (r : option Result * World) : Prop :=
  (exists new, trace (snd r) = new ++ trace w) /\
  config (snd r) = config w /\
  match fst r with
  | Some (ResExtracted u) =>
      u = url /\ stats (snd r) = add_successful (stats w) /\
      verified_success env url (trace w) (trace (snd r))
  | Some (ResError u e) =>
      u = url /\ e = stopped_by_user /\ stats (snd r) = stats w /\
      should_stop (snd r) = true
  | Some (ResSkipped _) => False
  | None => stats (snd r) = stats w
  end.

(** The invariant of the statistics. *)
Definition balanced (s : ProcessingStats) : bool :=
  processed s =? successful s + failed s + skipped s.

(** ** Scenarios *)

(** The double quote. *)
Definition dq : string := String (ascii_of_nat 34) EmptyString.

Definition json_member (key : string) (value : Z) : string :=
  (dq ++ key ++ dq ++ ": " ++ string_of_Z value)%string.

(** A one-line rendering of the counters; it stands for the text json.dump
    writes wherever a scenario needs a concrete one. *)
Definition render_progress (p : Progress) : string :=
  let s := progress_stats p in
  ("{" ++ json_member "total" (total s) ++ ", "
       ++ json_member "processed" (processed s) ++ ", "
       ++ json_member "successful" (successful s) ++ ", "
       ++ json_member "failed" (failed s) ++ ", "
       ++ json_member "skipped" (skipped s) ++ "}")%string.

(** A backend that answers and knows no URL, a browser with one open tab that
    does what it is asked, no helper script, no signal, and as_completed as
    CPython runs it. *)
Definition plain_env : Env :=
  mkEnv (fun _ => false)
        (fun _ _ => DupJson (Some false))
        (fun _ => TabsOk (Some (mkTab (Some "tab-1"))))
        (fun _ _ => Some (mkTab (Some "tab-2")))
        (fun _ _ => true)
        (fun _ => false)
        (fun _ _ => false)
        (fun _ => Some 4242)
        (fun _ => true)
        (fun _ _ => true)
        (fun _ => true)
        render_progress
        (fun _ => None)
        (fun _ => [])
        false.

(** [env] with a signal delivered during step [c] and at no other time. *)
Definition with_signal (c : nat) (env : Env) : Env :=
  mkEnv (fun t => Nat.eqb t c) (duplicate_reply env) (list_tabs env)
        (new_tab env) (close_tab env) (tab_opener_present env)
        (tab_opener_run env) (popen env) (debug_port_ok env)
        (exits_within_timeout env) (open_progress_ok env) (json_dump env)
        (dump_fails_at env) (schedule env)
        (as_completed_yields env).

Definition with_backend (reply : nat -> string -> DupReply) (env : Env) : Env :=
  mkEnv (signal_at env) reply (list_tabs env)
        (new_tab env) (close_tab env) (tab_opener_present env)
        (tab_opener_run env) (popen env) (debug_port_ok env)
        (exits_within_timeout env) (open_progress_ok env) (json_dump env)
        (dump_fails_at env) (schedule env)
        (as_completed_yields env).

Definition with_list_tabs (reply : nat -> TabsReply) (env : Env) : Env :=
  mkEnv (signal_at env) (duplicate_reply env) reply
        (new_tab env) (close_tab env) (tab_opener_present env)
        (tab_opener_run env) (popen env) (debug_port_ok env)
        (exits_within_timeout env) (open_progress_ok env) (json_dump env)
        (dump_fails_at env) (schedule env)
        (as_completed_yields env).

Definition with_tab_opener (run : nat -> string -> bool) (env : Env) : Env :=
  mkEnv (signal_at env) (duplicate_reply env) (list_tabs env)
        (new_tab env) (close_tab env) (fun _ => true)
        run (popen env) (debug_port_ok env)
        (exits_within_timeout env) (open_progress_ok env) (json_dump env)
        (dump_fails_at env) (schedule env)
        (as_completed_yields env).

Definition with_popen (start : nat -> option Z) (probe : nat -> bool)
                      (env : Env) : Env :=
  mkEnv (signal_at env) (duplicate_reply env) (list_tabs env)
        (new_tab env) (close_tab env) (tab_opener_present env)
        (tab_opener_run env) start probe
        (exits_within_timeout env) (open_progress_ok env) (json_dump env)
        (dump_fails_at env) (schedule env)
        (as_completed_yields env).

(** [env] with as_completed iterating as the call is written for. *)
Definition with_as_completed (env : Env) : Env :=
  mkEnv (signal_at env) (duplicate_reply env) (list_tabs env)
        (new_tab env) (close_tab env) (tab_opener_present env)
        (tab_opener_run env) (popen env) (debug_port_ok env)
        (exits_within_timeout env) (open_progress_ok env) (json_dump env)
        (dump_fails_at env) (schedule env)
        true.

(** [env] with the threads of every batch taking their steps in [order]. *)
Definition with_schedule (order : list nat) (env : Env) : Env :=
  mkEnv (signal_at env) (duplicate_reply env) (list_tabs env)
        (new_tab env) (close_tab env) (tab_opener_present env)
        (tab_opener_run env) (popen env) (debug_port_ok env)
        (exits_within_timeout env) (open_progress_ok env) (json_dump env)
        (dump_fails_at env) (fun _ => order)
        (as_completed_yields env).

(** [env] with every write of the progress file failing after [k]
    characters. *)
Definition with_dump_failure (k : nat) (env : Env) : Env :=
  mkEnv (signal_at env) (duplicate_reply env) (list_tabs env)
        (new_tab env) (close_tab env) (tab_opener_present env)
        (tab_opener_run env) (popen env) (debug_port_ok env)
        (exits_within_timeout env) (open_progress_ok env) (json_dump env)
        (fun _ => Some k) (schedule env)
        (as_completed_yields env).

Definition known_backend : nat -> string -> DupReply :=
  fun _ _ => DupJson (Some true).

Definition with_max_retries (n : Z) (c : Config) : Config :=
  mkConfig (csv_file c) (backend_url c) (progress_file c) (batch_size c)
           (max_workers c) n (progress_save_interval c).

Definition with_max_workers (n : Z) (c : Config) : Config :=
  mkConfig (csv_file c) (backend_url c) (progress_file c) (batch_size c)
           n (max_retries c) (progress_save_interval c).

(** A processor on which [_signal_handler] has already run. *)
Definition stopped_processor (c : Config) : World :=
  deliver true (new_processor c).

(** The line feed. *)
Definition nl : string := String (ascii_of_nat 10) EmptyString.

(** [urls] is read off [records] in order, each record giving at most one
    identifier: the stripped, non-empty content of one of its fields. *)
Inductive picked : list (list string) -> list string -> Prop :=
| picked_nil : picked [] []
| picked_skip row rows urls :
    picked rows urls -> picked (row :: rows) urls
| picked_take row rows field urls :
    In field row -> Csv.strip field <> EmptyString ->
    picked rows urls -> picked (row :: rows) (Csv.strip field :: urls).

(** A record of a headerless file that yields an identifier. *)
Definition first_field_filled (row : list string) : bool :=
  match row with
  | [] => false
  | field :: _ => negb (String.eqb (Csv.strip field) "")
  end.

(** The identifier a cell gives: its stripped content, unless that is empty. *)
Definition identifier_of (cell : string) : list string :=
  if String.eqb (Csv.strip cell) "" then [] else [Csv.strip cell].

(** The cell of a record under the URL column of the header [fieldnames], as
    the DictReader binds it; the empty string when it binds none. *)
Definition url_cell (fieldnames row : list string) : string :=
  match Csv.dict_get (Csv.dict_row fieldnames row)
                     (Csv._detect_url_column (Some fieldnames)) with
  | Some (Some v) => v
  | _ => EmptyString
  end.

(** The records identifiers are read from: all of them, or those after the
    header. *)
Definition data_records (f : Csv.CsvFile) : list (list string) :=
  if Csv.has_header f then tl (Csv.csv_records f) else Csv.csv_records f.

(** What one record gives: the identifier of its cell in the URL column, or
    of its first field when the file has no header. *)
Definition record_identifier (f : Csv.CsvFile) (row : list string) : list string :=
  if Csv.has_header f
  then identifier_of (url_cell (hd [] (Csv.csv_records f)) row)
  else identifier_of (hd EmptyString row).

(** ** Batches *)

(** The batches the loop of [process_all_urls] cuts out of [urls], one for
    every start index of the range. *)
Definition batches (urls : list string) (size : Z) : list (list string) :=
  map (fun i => slice urls i (i + size))
      (py_range0 (Z.of_nat (List.length urls)) size).

(** ** Agent identifier *)

(** s.rstrip(c) for a single character [c]. *)
Fixpoint rstrip_char (c : ascii) (s : string) : string :=
  match s with
  | EmptyString => EmptyString
  | String a s' =>
      match rstrip_char c s' with
      | EmptyString => if Ascii.eqb a c then EmptyString else String a EmptyString
      | r => String a r
      end
  end.

(** s.split(c) for a single character [c]. *)
Fixpoint split_char (c : ascii) (s : string) : list string :=
  match s with
  | EmptyString => [EmptyString]
  | String a s' =>
      if Ascii.eqb a c then EmptyString :: split_char c s'
      else match split_char c s' with
           | [] => [String a EmptyString]
           | part :: parts => String a part :: parts
           end
  end.

Definition slash : ascii := ascii_of_nat 47.

(** [_extract_agent_id]: parts[-1] if parts else url. *)
Definition _extract_agent_id (url : string) : string :=
  match split_char slash (rstrip_char slash url) with
  | [] => url
  | part :: parts => last (part :: parts) EmptyString
  end.

Definition has_char (c : ascii) (s : string) : bool :=
  existsb (Ascii.eqb c) (list_ascii_of_string s).

(** ** Columns *)

(** The test [_detect_url_column] applies to a field name. *)
Definition has_indicator (field : string) : bool :=
  existsb (fun indicator => Csv.contains indicator (Csv.lower field))
          Csv.url_indicators.

(** A string that does not begin with white space. *)
Definition starts_clean (s : string) : Prop :=
  match s with
  | EmptyString => True
  | String c _ => Csv.is_space c = false
  end.

(** ** More observations *)

(** An observation of the world that is the same before and after. *)
Definition keeps {A} (f : World -> A) (w w' : World) : Prop := f w' = f w.

(** The events of the calls made within one try of an extraction. *)
Definition is_call (e : Event) : bool :=
  match e with
  | EvCheckDuplicate _ _ | EvListTabs _ | EvNewTab _ _ | EvCloseTab _ _
  | EvTabOpenerProbe _ | EvTabOpener _ _
  | EvSleep SleepExtraction | EvSleep SleepSettle => true
  | _ => false
  end.

Definition is_retry_sleep (e : Event) : bool :=
  match e with EvSleep SleepRetry => true | _ => false end.

Definition is_batch (e : Event) : bool :=
  match e with EvBatch _ _ => true | _ => false end.

(** The item tasks of a trace with their indices, most recent first. *)
Definition task_log (tr : list Event) : list (string * Z) :=
  flat_map (fun e => match e with EvTask url index => [(url, index)] | _ => [] end)
           tr.

(** What an item task never touches: the progress file, the processed count,
    the total, the configuration and the browser handle. *)
Definition ledger (w : World) : option string * Z * Z * Config * option Z :=
  (progress_store w, processed (stats w), total (stats w), config w,
   chrome_process w).

(** The events of a trace other than the signal marker. *)
Definition work_log (tr : list Event) : list Event :=
  filter (fun e => negb (is_signal e)) tr.

(** ** Threads *)

(** Every step the thread may still take relates the world before it to the
    world after it by [R]. *)
Fixpoint each_step (R : World -> World -> Prop) {A} (p : Thread A) : Prop :=
  match p with
  | Done _ => True
  | Step m next => respects R m /\ forall b, each_step R (next b)
  end.

(** Every step of every job relates the worlds by [R]. *)
Definition sound (R : World -> World -> Prop) (jobs : list Job) : Prop :=
  Forall (fun j => each_step R (remaining j)) jobs.

(** The events an item task logs. *)
Definition item_event (e : Event) : bool :=
  match e with
  | EvTask _ _ | EvAttempt _ _ | EvSleep SleepRetry => true
  | _ => is_call e
  end.

(** The writes an item task makes to the statistics leave the total, the
    processed count and the start time alone. *)
Definition item_write (g : ProcessingStats -> ProcessingStats) : Prop :=
  forall s, total (g s) = total s /\ processed (g s) = processed s /\
            start_time (g s) = start_time s.

(** The trace of [w'] continues that of [w]. *)
Definition grows (w w' : World) : Prop :=
  exists new, trace w' = new ++ trace w.


(** [e] was logged after [w] and by [v]. *)
Definition logged_since (w : World) (e : Event) (v : World) : Prop :=
  exists new, trace v = new ++ trace w /\ In e new.

(** The first job of the pool is the task [task]: it is as it was handed in,
    or it has taken its first step, which logged [e], since [w]. *)
Definition first_job (task : Thread Result) (e : Event) (w : World)
                     (pool : Pool) (v : World) : Prop :=
  exists j js,
    jobs pool = j :: js /\ sound grows (jobs pool) /\ grows w v /\
    (remaining j = task \/ logged_since w e v).

(** Where a batch that begins with [url] stands, entered in [w]: nothing was
    handed to the executor and the world is as it was, or the task of [url]
    is the first job. *)
Definition batch_state (env : Env) (url : string) (rest : list string)
                       (w : World) (pool : Pool) (v : World) : Prop :=
  let index := processed (stats w) + 0 + 1 in
  (jobs pool = [] /\ launch pool = Launching (url :: rest) 0 /\ v = w) \/
  first_job (process_single_url_thread env url index) (EvTask url index) w pool v.

(** ** The run *)

(** The Chrome settings of [Config]. *)
Record ChromeSettings := mkChromeSettings {
  chrome_binary : string;
  extension_path : string;
  user_data_dir : string
}.

Definition default_chrome_settings : ChromeSettings :=
  mkChromeSettings "google-chrome" "./" "./temp/chrome_batch_profile".

Definition set_chrome_binary (binary : string) (cs : ChromeSettings)
  : ChromeSettings :=
  mkChromeSettings binary (extension_path cs) (user_data_dir cs).

(** What subprocess.run([binary, --version], capture_output=True, check=True)
    did. *)
Inductive VersionReply :=
| VersionOk
| VersionMissing     (* CalledProcessError or FileNotFoundError *)
| VersionRaised.     (* any other exception *)

(** The host as [setup] and [run] find it.  Each oracle takes the clock value
    at which the call is made. *)
Record Site := mkSite {
  makedirs_ok : nat -> string -> bool;     (* false: os.makedirs raised *)
  health_ok : nat -> bool;                 (* GET backend_url/health succeeded *)
  csv_exists : nat -> bool;                (* os.path.exists(csv_file) *)
  chrome_version : nat -> string -> VersionReply;
  manifest_exists : nat -> bool;
  initial_dump : nat -> ProcessingStats -> Config -> ChromeSettings -> string;
                                           (* json.dump of the initial progress *)
  open_csv : nat -> option Csv.CsvFile     (* None: opening or decoding raised *)
}.

(** The exceptions [run] lets through. *)
Inductive RunError :=
| DirectoryError         (* os.makedirs raised *)
| BackendUnavailable     (* RuntimeError: Backend service not available *)
| CsvNotFound            (* FileNotFoundError: CSV file not found *)
| VersionCheckError      (* subprocess.run raised what is not caught *)
| ChromeNotFound         (* RuntimeError: Chrome binary not found *)
| ManifestNotFound       (* FileNotFoundError: manifest.json not found *)
| ProgressFileError      (* opening or writing the progress file raised *)
| ChromeStartFailed      (* RuntimeError: Failed to start Chrome *)
| CsvOpenError           (* open(csv_file) raised *)
| NoUrls                 (* ValueError: No URLs found in CSV file *)
| Raised (e : Exn).      (* from load_urls_from_csv or process_all_urls *)

Section Runner.

Variable site : Site.
Variable env : Env.

(** A call that leaves the process and that the trace does not record. *)
Definition ask {A} (oracle : nat -> A) : M A :=
  a <- gets (fun w => oracle (clock w)) ;;
  tick env ;;;
  ret a.

(** The loop of [_create_directories]; [false]: os.makedirs raised. *)
Fixpoint make_directories (directories : list string) : M bool :=
  match directories with
  | [] => ret true
  | directory :: rest =>
      ok <- ask (fun t => makedirs_ok site t directory) ;;
      if ok then make_directories rest else ret false
  end.

Definition _create_directories (cs : ChromeSettings) : M bool :=
  make_directories ["logs"; "temp"; user_data_dir cs]%string.

Definition alternative_binaries : list string :=
  ["google-chrome-stable"; "chromium"; "chromium-browser"]%string.

(** The loop over the alternative names.  [inr (Some binary)]: [binary]
    answered and was written to config.chrome_binary; [inr None]: the loop
    ran out. *)
Fixpoint try_binaries (binaries : list string) : M (RunError + option string) :=
  match binaries with
  | [] => ret (inr None)
  | binary :: rest =>
      r <- ask (fun t => chrome_version site t binary) ;;
      match r with
      | VersionOk => ret (inr (Some binary))
      | VersionMissing => try_binaries rest
      | VersionRaised => ret (inl VersionCheckError)
      end
  end.

(** [_check_chrome_available]: its answer and config.chrome_binary as it
    leaves it. *)
Definition _check_chrome_available (cs : ChromeSettings)
  : M (RunError + bool * ChromeSettings) :=
  r <- ask (fun t => chrome_version site t (chrome_binary cs)) ;;
  match r with
  | VersionOk => ret (inr (true, cs))
  | VersionRaised => ret (inl VersionCheckError)
  | VersionMissing =>
      found <- try_binaries alternative_binaries ;;
      match found with
      | inl e => ret (inl e)
      | inr (Some binary) => ret (inr (true, set_chrome_binary binary cs))
      | inr None => ret (inr (false, cs))
      end
  end.

Definition _check_dependencies (cs : ChromeSettings)
  : M (RunError + ChromeSettings) :=
  healthy <- ask (health_ok site) ;;
  if negb healthy then ret (inl BackendUnavailable) else
  found <- ask (csv_exists site) ;;
  if negb found then ret (inl CsvNotFound) else
  chrome <- _check_chrome_available cs ;;
  match chrome with
  | inl e => ret (inl e)
  | inr (false, _) => ret (inl ChromeNotFound)
  | inr (true, cs') =>
      manifest <- ask (manifest_exists site) ;;
      if negb manifest then ret (inl ManifestNotFound) else ret (inr cs')
  end.

(** [_initialize_progress]: the progress dict is built, the file is opened,
    which truncates it, and json.dump fills it; nothing catches what either
    raises. *)
Definition _initialize_progress (cs : ChromeSettings) : M (RunError + unit) :=
  text <- gets (fun w => initial_dump site (clock w) (stats w) (config w) cs) ;;
  opened <- open_progress env ;;
  if opened then
    written <- dump_progress env text ;;
    tick env ;;;
    ret (if written then inr tt else inl ProgressFileError)
  else
    tick env ;;;
    ret (inl ProgressFileError).

Definition setup (cs : ChromeSettings) : M (RunError + ChromeSettings) :=
  created <- _create_directories cs ;;
  if negb created then ret (inl DirectoryError) else
  checked <- _check_dependencies cs ;;
  match checked with
  | inl e => ret (inl e)
  | inr cs' =>
      initialized <- _initialize_progress cs' ;;
      match initialized with
      | inl e => ret (inl e)
      | inr _ => ret (inr cs')
      end
  end.

(** The try block of [run]. *)
Definition run_body (cs : ChromeSettings) : M (RunError + unit) :=
  ready <- setup cs ;;
  match ready with
  | inl e => ret (inl e)
  | inr _ =>
      started <- start_chrome env ;;
      if negb started then ret (inl ChromeStartFailed) else
      opened <- ask (open_csv site) ;;
      match opened with
      | None => ret (inl CsvOpenError)
      | Some file =>
          match Csv.load_urls_from_csv file with
          | inl e => ret (inl (Raised e))
          | inr [] => ret (inl NoUrls)
          | inr urls =>
              r <- process_all_urls env urls ;;
              match r with
              | inl e => ret (inl (Raised e))
              | inr _ => ret (inr tt)
              end
          end
      end
  end.

(** [run]: the except clause logs and raises again, the finally clause stops
    the browser. *)
Definition run (cs : ChromeSettings) : M (RunError + unit) :=
  r <- run_body cs ;;
  stop_chrome env ;;;
  ret r.

End Runner.

(** A host on which every check of [setup] passes and whose input file is
    [file]. *)
Definition plain_site (file : Csv.CsvFile) : Site :=
  mkSite (fun _ _ => true) (fun _ => true) (fun _ => true)
         (fun _ _ => VersionOk) (fun _ => true)
         (fun _ _ _ _ => "{}"%string) (fun _ => Some file).

Definition is_popen (e : Event) : bool :=
  match e with EvPopen _ => true | _ => false end.

(** The candidates of [_check_chrome_available] before position [k] did not
    answer, each at the time it was tried from [start] on. *)
Definition missing_before (site : Site) (start : nat) (candidates : list string)
                          (k : nat) : Prop :=
  forall j binary,
    (j < k)%nat -> nth_error candidates j = Some binary ->
    chrome_version site (start + j) binary = VersionMissing.

(** What waiting and asking the host leave as they were. *)
Definition standing (w : World)
  : ProcessingStats * Config * option Z * option string * list Event :=
  (stats w, config w, chrome_process w, progress_store w, work_log (trace w)).

(** What starting and stopping the browser leave as they were. *)
Definition books (w : World)
  : list (string * Z) * ProcessingStats * Config * option string :=
  (task_log (trace w), stats w, config w, progress_store w).

(** A shutdown request is never taken back. *)
Definition stays_stopped (w w' : World) : Prop :=
  should_stop w = true -> should_stop w' = true.

(** [v] is a world [run] reaches from [w] before any item is run: the task
    log, the statistics and the configuration are as in [w], and a browser
    launched since [w] is the one held. *)
Definition before_items (w v : World) : Prop :=
  task_log (trace v) = task_log (trace w) /\
  stats v = stats w /\ config v = config w /\
  forall pid, In (EvPopen (Some pid)) (trace v) ->
              In (EvPopen (Some pid)) (trace w) \/ chrome_process v = Some pid.

(** [w'] is not earlier than [w]. *)
Definition later (w w' : World) : Prop := (clock w <= clock w')%nat.

(** [t] is the time of a step taken from [w] on and before [w']. *)
Definition during (w w' : World) (t : nat) : Prop :=
  (clock w <= t < clock w')%nat.
(** * Properties *)

(** ** Computations that respect a preorder on worlds *)

Section Respects.

Variable R : World -> World -> Prop.
Hypothesis R_refl : forall w, R w w.
Hypothesis R_trans : forall w1 w2 w3, R w1 w2 -> R w2 w3 -> R w1 w3.

Lemma respects_ret {A} (a : A) : respects R (ret a).
Proof. intro w; apply R_refl. Qed.

Lemma respects_gets {A} (f : World -> A) : respects R (gets f).
Proof. intro w; apply R_refl. Qed.

Lemma respects_bind {A B} (m : M A) (k : A -> M B) :
  respects R m -> (forall a, respects R (k a)) -> respects R (bind m k).
Proof.
  intros Hm Hk w; unfold bind; cbn.
  eapply R_trans; [apply Hm | apply Hk].
Qed.

Lemma respects_bind_from {A B} (m : M A) (k : A -> M B) w :
  R w (snd (m w)) -> (forall a, respects R (k a)) -> R w (snd (bind m k w)).
Proof.
  intros Hm Hk; unfold bind; cbn.
  eapply R_trans; [exact Hm | apply Hk].
Qed.

Lemma respects_io env {A} (oracle : nat -> A) (ev : A -> Event) :
  (forall a, respects R (emit (ev a))) -> respects R (tick env) ->
  respects R (io env oracle ev).
Proof.
  intros He Ht; unfold io.
  apply respects_bind; [apply respects_gets|intros a].
  apply respects_bind; [apply He|intros _].
  apply respects_bind; [apply Ht|intros _; apply respects_ret].
Qed.

Lemma respects_sleep env s :
  respects R (emit (EvSleep s)) -> respects R (tick env) ->
  respects R (sleep env s).
Proof. intros He Ht; apply respects_bind; [exact He | intros _; exact Ht]. Qed.

End Respects.

(** ** The shutdown discipline holds along every computation *)

Lemma monitor_app s l1 l2 :
  monitor s (l1 ++ l2) =
  match monitor s l1 with Some s' => monitor s' l2 | None => None end.
Proof.
  revert s; induction l1 as [|e l1 IH]; intros s; cbn; [reflexivity|].
  destruct (starts_work e); [destruct s; [reflexivity|apply IH]|apply IH].
Qed.

Lemma steps_refl w : steps w w.
Proof. split; [reflexivity|]. exists []; split; reflexivity. Qed.

Lemma steps_trans w1 w2 w3 : steps w1 w2 -> steps w2 w3 -> steps w1 w3.
Proof.
  intros (C1 & n1 & T1 & M1) (C2 & n2 & T2 & M2).
  split; [congruence|].
  exists (n2 ++ n1); split.
  - rewrite T2, T1, app_assoc; reflexivity.
  - rewrite rev_app_distr, monitor_app, M1; exact M2.
Qed.

Lemma steps_tick env : respects steps (tick env).
Proof.
  intro w; unfold tick; cbn. split; [reflexivity|]; cbn.
  destruct (signal_at env (clock w)).
  - exists [EvSignal]; split; [reflexivity|]; cbn. now rewrite !orb_true_r.
  - exists []; split; [reflexivity|]; cbn. now rewrite orb_false_r.
Qed.

Lemma steps_emit e :
  starts_work e = false -> is_signal e = false -> respects steps (emit e).
Proof.
  intros Hw Hs w; cbn. split; [reflexivity|]; cbn.
  exists [e]; split; [reflexivity|]; cbn. now rewrite Hw, Hs, orb_false_r.
Qed.

Lemma steps_modify (f : World -> World) :
  (forall w, config (f w) = config w /\ trace (f w) = trace w /\
             should_stop (f w) = should_stop w) ->
  respects steps (modify f).
Proof.
  intros H w; cbn; destruct (H w) as (C & T & S).
  split; [exact C|]. exists []; split; [exact T|]; cbn; congruence.
Qed.

(** Entering work is allowed while the flag is clear. *)
Lemma steps_work {A} e (k : M A) w :
  should_stop w = false -> starts_work e = true ->
  respects steps k -> steps w (snd ((emit e ;;; k) w)).
Proof.
  intros Hs He Hk. unfold bind; cbn.
  destruct (Hk (log e w)) as (C & new & T & Mn); cbn in *.
  split; [exact C|].
  exists (new ++ [e]); split.
  - rewrite T, <- app_assoc; reflexivity.
  - rewrite rev_app_distr; cbn. rewrite Hs, He. rewrite Hs in Mn. exact Mn.
Qed.

Create HintDb respects.

#[local] Hint Resolve steps_tick : respects.
#[local] Hint Extern 1 (respects steps (emit _)) =>
  (apply steps_emit; reflexivity) : respects.
#[local] Hint Extern 1 (respects steps (modify _)) =>
  (apply steps_modify; intro; cbn; auto) : respects.
#[local] Hint Extern 1 (respects steps (update_stats _)) =>
  (apply steps_modify; intro; cbn; auto) : respects.

(** One step of a proof that a computation respects a relation: close the goal
    from the hints, or go under a bind or a branch. *)
Ltac respects_step refl trans :=
  lazymatch goal with
  | |- respects _ (bind _ _) => apply (respects_bind _ trans); [|intros ?]
  | |- respects _ (ret _) => apply (respects_ret _ refl)
  | |- respects _ (gets _) => apply (respects_gets _ refl)
  | |- respects _ (io _ _ _) => apply (respects_io _ refl trans); [intros ?|]
  | |- respects _ (sleep _ _) => apply (respects_sleep _ trans)
  | |- respects _ (if ?b then _ else _) => destruct b
  | |- respects _ (match ?x with _ => _ end) => destruct x
  | |- _ => solve [auto with respects]
  end.

Ltac steps_auto := repeat respects_step steps_refl steps_trans.

Lemma steps_check_url_exists env url : respects steps (check_url_exists env url).
Proof. unfold check_url_exists; steps_auto. Qed.

Lemma steps_devtools env url :
  respects steps (process_url_via_chrome_devtools env url).
Proof. unfold process_url_via_chrome_devtools; steps_auto. Qed.

Lemma steps_tab_opener env url :
  respects steps (process_url_via_tab_opener env url).
Proof. unfold process_url_via_tab_opener; steps_auto. Qed.

#[local] Hint Resolve steps_check_url_exists steps_devtools steps_tab_opener
  : respects.

Lemma steps_fallback_extraction env url :
  respects steps (fallback_extraction env url).
Proof. unfold fallback_extraction; steps_auto. Qed.

#[local] Hint Resolve steps_fallback_extraction : respects.

Lemma steps_attempt_extraction env url :
  respects steps (attempt_extraction env url).
Proof. unfold attempt_extraction; steps_auto. Qed.

#[local] Hint Resolve steps_attempt_extraction : respects.

Lemma steps_retry_loop env url remaining :
  forall attempt, respects steps (retry_loop env url remaining attempt).
Proof.
  induction remaining as [|n IH]; intros attempt w; cbn [retry_loop].
  - apply steps_refl.
  - unfold bind at 1; cbn [gets fst snd].
    destruct (should_stop w) eqn:Hs; [apply steps_refl|].
    apply steps_work; auto. steps_auto.
Qed.

#[local] Hint Resolve steps_retry_loop : respects.

(** ** Waiting and calling out leave the books alone *)

Lemma count_cons p e tr :
  count p (e :: tr) = if p e then S (count p tr) else count p tr.
Proof. unfold count; cbn; destruct (p e); reflexivity. Qed.

Lemma count_app p l1 l2 : count p (l1 ++ l2) = (count p l1 + count p l2)%nat.
Proof. unfold count; now rewrite filter_app, length_app. Qed.

Lemma idle_refl env w : idle env w w.
Proof. unfold idle, advance; intuition lia. Qed.

Lemma advance_trans env a1 t1 a2 t2 w1 w2 w3 :
  advance env a1 t1 w1 w2 -> advance env a2 t2 w2 w3 ->
  advance env (a1 + a2) (t1 + t2) w1 w3.
Proof.
  intros (S1 & C1 & P1 & F1 & K1 & A1 & T1 & Q1)
         (S2 & C2 & P2 & F2 & K2 & A2 & T2 & Q2).
  unfold advance; intuition (try congruence; try lia).
Qed.

Lemma idle_trans env w1 w2 w3 : idle env w1 w2 -> idle env w2 w3 -> idle env w1 w3.
Proof. intros H1 H2; exact (advance_trans env 0 0 0 0 _ _ _ H1 H2). Qed.

Lemma advance_idle env a t w1 w2 w3 :
  advance env a t w1 w2 -> idle env w2 w3 -> advance env a t w1 w3.
Proof.
  intros H1 H2; generalize (advance_trans env a t 0 0 _ _ _ H1 H2).
  now rewrite !Nat.add_0_r.
Qed.

Lemma idle_advance env a t w1 w2 w3 :
  idle env w1 w2 -> advance env a t w2 w3 -> advance env a t w1 w3.
Proof. intros H1 H2; exact (advance_trans env 0 0 a t _ _ _ H1 H2). Qed.

Lemma count_deliver p (s : bool) tr :
  p EvSignal = false ->
  count p (if s then EvSignal :: tr else tr) = count p tr.
Proof. intros H; destruct s; [rewrite count_cons, H|]; reflexivity. Qed.

Lemma idle_tick env : respects (idle env) (tick env).
Proof.
  intro w; unfold tick, idle, advance; cbn -[count].
  rewrite !count_deliver, !Nat.add_0_r by reflexivity.
  do 4 (split; [reflexivity|]). split; [lia|]. do 2 (split; [reflexivity|]).
  intros (Hs & Hq); split; cbn.
  - rewrite Hs, (Hq (clock w)); auto.
  - intros t Ht; apply Hq; lia.
Qed.

Lemma advance_emit env e :
  respects (advance env (if is_attempt e then 1 else 0)
                        (if is_primary_trigger e then 1 else 0)) (emit e).
Proof.
  intro w; unfold advance; cbn -[count]. rewrite !count_cons.
  do 4 (split; [reflexivity|]). split; [lia|].
  split; [destruct (is_attempt e); lia|].
  split; [destruct (is_primary_trigger e); lia|].
  intros H; exact H.
Qed.

Lemma idle_emit env e :
  is_attempt e = false -> is_primary_trigger e = false ->
  respects (idle env) (emit e).
Proof.
  intros Ha Ht w; generalize (advance_emit env e w); now rewrite Ha, Ht.
Qed.

#[local] Hint Resolve idle_tick : respects.
#[local] Hint Extern 1 (respects (idle _) (emit _)) =>
  (apply idle_emit; reflexivity) : respects.

Ltac idle_auto env :=
  repeat respects_step (idle_refl env) (idle_trans env).

Lemma idle_check_url_exists env url : respects (idle env) (check_url_exists env url).
Proof. unfold check_url_exists; idle_auto env. Qed.

Lemma idle_tab_opener env url :
  respects (idle env) (process_url_via_tab_opener env url).
Proof. unfold process_url_via_tab_opener; idle_auto env. Qed.

Lemma idle_sleep env s : respects (idle env) (sleep env s).
Proof. idle_auto env. Qed.

#[local] Hint Resolve idle_check_url_exists idle_tab_opener idle_sleep : respects.

Lemma advance_bind_from env a t {A B} (m : M A) (k : A -> M B) w :
  advance env a t w (snd (m w)) -> (forall x, respects (idle env) (k x)) ->
  advance env a t w (snd (bind m k w)).
Proof.
  intros Hm Hk; unfold bind; cbn.
  eapply advance_idle; [exact Hm | apply Hk].
Qed.

Lemma advance_list_tabs env :
  respects (advance env 0 1) (io env (list_tabs env) EvListTabs).
Proof.
  intro w; unfold io, bind; cbn [gets fst snd ret].
  eapply advance_idle;
    [exact (advance_emit env (EvListTabs (list_tabs env (clock w))) w)
    |apply idle_tick].
Qed.

(** A call of the primary trigger issues GET /json exactly once. *)
Lemma advance_devtools env url :
  respects (advance env 0 1) (process_url_via_chrome_devtools env url).
Proof.
  intro w; unfold process_url_via_chrome_devtools.
  apply advance_bind_from; [apply advance_list_tabs | intros tabs].
  idle_auto env.
Qed.

(** ** One try of an extraction *)

Ltac assoc :=
  repeat (rewrite <- app_assoc || rewrite <- app_comm_cons); reflexivity.

Lemma steps_extends w w' : steps w w' -> exists new, trace w' = new ++ trace w.
Proof. intros (_ & new & T & _); exists new; exact T. Qed.

Lemma run_bind {A B} (m : M A) (k : A -> M B) w :
  bind m k w = k (fst (m w)) (snd (m w)).
Proof. reflexivity. Qed.

Lemma check_url_exists_spec env url w :
  let r := check_url_exists env url w in
  idle env w (snd r) /\
  fst r = is_duplicate (duplicate_reply env (clock w) url) /\
  exists sig,
    trace (snd r) =
      sig ++ EvCheckDuplicate url (duplicate_reply env (clock w) url) :: trace w /\
    maybe_signal sig.
Proof.
  cbn zeta; split; [apply idle_check_url_exists|]; split; [reflexivity|].
  unfold maybe_signal; cbn.
  destruct (signal_at env (clock w)); [exists [EvSignal]|exists []]; auto.
Qed.

Lemma sleep_trace env s w :
  exists sig, trace (snd (sleep env s w)) = sig ++ EvSleep s :: trace w /\
              maybe_signal sig.
Proof.
  unfold maybe_signal; cbn.
  destruct (signal_at env (clock w)); [exists [EvSignal]|exists []]; auto.
Qed.

Lemma tab_opener_trace env url w :
  let r := process_url_via_tab_opener env url w in
  exists sig, trace (snd r) = sig ++ EvTabOpener url (fst r) :: trace w /\
              maybe_signal sig.
Proof.
  unfold maybe_signal; cbn.
  destruct (signal_at env (clock w)); [exists [EvSignal]|exists []]; auto.
Qed.

Lemma fallback_extraction_spec env url w :
  attempt_post env url 0 w (fallback_extraction env url w).
Proof.
  unfold fallback_extraction. rewrite run_bind; cbn [gets fst snd].
  rewrite run_bind.
  set (present := tab_opener_present env (clock w)).
  pose proof (idle_emit env (EvTabOpenerProbe present) eq_refl eq_refl w) as I1.
  assert (T1 : trace (snd (emit (EvTabOpenerProbe present) w))
               = [EvTabOpenerProbe present] ++ trace w) by reflexivity.
  revert I1 T1; generalize (snd (emit (EvTabOpenerProbe present) w)).
  cbn [fst]; intros w1 I1 T1.
  destruct present.
  2:{ exists w1; cbn; split; [exact I1|]; split; [eauto|]; split; reflexivity. }
  rewrite run_bind.
  pose proof (idle_tab_opener env url w1) as I2.
  pose proof (tab_opener_trace env url w1) as (sig2 & T2 & Hsig2).
  cbv zeta in T2.
  destruct (process_url_via_tab_opener env url w1) as [success w2].
  cbn [fst snd] in *.
  destruct success.
  2:{ exists w2; cbn; split; [exact (idle_trans _ _ _ _ I1 I2)|].
      split; [|split; reflexivity].
      exists (sig2 ++ [EvTabOpener url false; EvTabOpenerProbe true]).
      rewrite T2, T1; assoc. }
  rewrite run_bind.
  destruct (check_url_exists_spec env url w2) as (I3 & V3 & sig & T3 & Hsig).
  destruct (check_url_exists env url w2) as [verified w3].
  cbn [fst snd] in *.
  assert (I : idle env w w3).
  { exact (idle_trans _ _ _ _ I1 (idle_trans _ _ _ _ I2 I3)). }
  assert (T : trace w3 = sig ++ EvCheckDuplicate url (duplicate_reply env (clock w2) url)
                          :: sig2 ++ EvTabOpener url true
                          :: [EvTabOpenerProbe true] ++ trace w).
  { rewrite T3, T2, T1; assoc. }
  exists w3. split; [exact I|]. split.
  { exists (sig ++ EvCheckDuplicate url (duplicate_reply env (clock w2) url)
                   :: sig2 ++ [EvTabOpener url true; EvTabOpenerProbe true]).
    rewrite T; assoc. }
  destruct verified; cbn.
  - split; [split; [reflexivity|]|].
    + exists sig, (duplicate_reply env (clock w2) url), sig2,
        (EvTabOpener url true), [EvTabOpenerProbe true].
      unfold precedes_verification; eauto 10.
    + intros H; rewrite H in V3; discriminate.
  - auto.
Qed.

Lemma verified_last_older env url old older tr :
  verified_last env url (older ++ old) tr -> verified_last env url old tr.
Proof.
  intros (sig & reply & sig' & before & mid & T & B & O & V & S & S').
  exists sig, reply, sig', before, (mid ++ older); repeat split; auto.
  rewrite T; assoc.
Qed.

Lemma attempt_post_lift env url t w w3 r :
  advance env 0 t w w3 -> (exists new, trace w3 = new ++ trace w) ->
  attempt_post env url 0 w3 r -> attempt_post env url t w r.
Proof.
  intros A (n & T) (w4 & A4 & (n4 & T4) & R & N).
  exists w4. split; [exact (advance_idle _ _ _ _ _ _ A A4)|].
  split; [exists (n4 ++ n); rewrite T4, T; assoc|].
  split; [|exact N].
  destruct (fst r); [|exact R].
  destruct R as (R & V); split; [exact R|].
  rewrite T in V. eapply verified_last_older; exact V.
Qed.

Lemma steps_sleep env s : respects steps (sleep env s).
Proof. steps_auto. Qed.

Lemma attempt_extraction_spec env url w :
  attempt_post env url 1 w (attempt_extraction env url w).
Proof.
  unfold attempt_extraction. rewrite run_bind.
  pose proof (advance_devtools env url w) as A1.
  pose proof (steps_extends _ _ (steps_devtools env url w)) as (n1 & T1).
  destruct (process_url_via_chrome_devtools env url w) as [success w1].
  cbn [fst snd] in *. rewrite run_bind.
  destruct success.
  2:{ cbn [ret fst snd].
      apply attempt_post_lift with (w3 := w1); eauto.
      apply fallback_extraction_spec. }
  rewrite (run_bind (sleep env SleepSettle)).
  pose proof (idle_sleep env SleepSettle w1) as I2.
  pose proof (sleep_trace env SleepSettle w1) as (sig2 & T2 & Hsig2).
  revert I2 T2; generalize (snd (sleep env SleepSettle w1)); intros w2 I2 T2.
  destruct (check_url_exists_spec env url w2) as (I3 & V3 & sig & T3 & Hsig).
  destruct (check_url_exists env url w2) as [verified w3].
  cbn [fst snd] in *.
  assert (A : advance env 0 1 w w3).
  { exact (advance_idle _ _ _ _ _ _ A1 (idle_trans _ _ _ _ I2 I3)). }
  assert (T : trace w3 = sig ++ EvCheckDuplicate url (duplicate_reply env (clock w2) url)
                          :: sig2 ++ EvSleep SleepSettle :: n1 ++ trace w).
  { rewrite T3, T2, T1; assoc. }
  assert (E : exists new, trace w3 = new ++ trace w).
  { exists (sig ++ EvCheckDuplicate url (duplicate_reply env (clock w2) url)
                   :: sig2 ++ EvSleep SleepSettle :: n1).
    rewrite T; assoc. }
  destruct verified.
  2:{ apply attempt_post_lift with (w3 := w3); auto.
      apply fallback_extraction_spec. }
  exists w3; cbn. split; [exact A|]. split; [exact E|].
  split; [split; [reflexivity|]|].
  - exists sig, (duplicate_reply env (clock w2) url), sig2,
      (EvSleep SleepSettle), n1.
    unfold precedes_verification; eauto 10.
  - intros H; rewrite H in V3; discriminate.
Qed.

(** ** The retry loop *)

Lemma idle_retry_wait env (b : bool) :
  respects (idle env) (if b then sleep env SleepRetry else ret tt).
Proof. idle_auto env. Qed.

Lemma steps_retry_wait env (b : bool) :
  respects steps (if b then sleep env SleepRetry else ret tt).
Proof. steps_auto. Qed.

Lemma retry_loop_outcome env url remaining :
  forall attempt w, loop_post env url w (retry_loop env url remaining attempt w).
Proof.
  induction remaining as [|n IH]; intros attempt w; cbn [retry_loop].
  - split; [exists []; reflexivity|]. split; reflexivity.
  - rewrite run_bind; cbn [gets fst snd].
    destruct (should_stop w) eqn:Hs.
    { split; [exists []; reflexivity|]. cbn; auto. }
    unfold loop_post.
    rewrite run_bind; cbn [emit modify fst snd].
    set (w1 := log (EvAttempt url attempt) w).
    rewrite run_bind.
    destruct (attempt_extraction_spec env url w1) as (w4 & A & (n4 & T4) & R & _).
    destruct (attempt_extraction env url w1) as [ok w']; cbn [fst snd] in *.
    destruct A as (S4 & C4 & _).
    assert (S1 : stats w1 = stats w) by reflexivity.
    assert (C1 : config w1 = config w) by reflexivity.
    assert (T1 : trace w1 = [EvAttempt url attempt] ++ trace w) by reflexivity.
    clearbody w1.
    destruct ok.
    + destruct R as (-> & sig & reply & sig' & before & mid & T & B & O & V
                        & Hsig & Hsig').
      unfold loop_post; cbn [ret fst snd trace config stats set_stats].
      split; [exists (n4 ++ [EvAttempt url attempt]); rewrite T4, T1; assoc|].
      split; [congruence|].
      split; [reflexivity|]. split; [congruence|].
      exists sig, reply, sig', before, mid, attempt, [].
      split; [rewrite T, T1; assoc|auto].
    + subst w'. rewrite run_bind; cbn [gets fst snd]. rewrite run_bind.
      set (b := attempt <? max_retries (config w4)).
      pose proof (idle_retry_wait env b w4) as (S5 & C5 & _).
      pose proof (steps_extends _ _ (steps_retry_wait env b w4)) as (n5 & T5).
      revert S5 C5 T5.
      generalize (snd ((if b then sleep env SleepRetry else ret tt) w4)).
      intros w5 S5 C5 T5.
      destruct (IH (attempt + 1) w5) as ((n6 & T6) & C6 & P6).
      assert (T : trace w5 = (n5 ++ n4 ++ [EvAttempt url attempt]) ++ trace w).
      { rewrite T5, T4, T1; assoc. }
      split; [exists (n6 ++ n5 ++ n4 ++ [EvAttempt url attempt]); rewrite T6, T; assoc|].
      split; [congruence|].
      destruct (fst (retry_loop env url n (attempt + 1) w5)) as [[u|u|u e]|];
        auto.
      * destruct P6 as (-> & S6 & sig & reply & sig' & before & mid & k & older
                           & T7 & B & O & V & Hs7).
        split; [reflexivity|]. split; [congruence|].
        exists sig, reply, sig', before, mid, k,
          (older ++ n5 ++ n4 ++ [EvAttempt url attempt]).
        split; [rewrite T7, T; assoc|auto].
      * destruct P6 as (-> & -> & S6 & St). repeat split; auto; congruence.
      * congruence.
Qed.

Lemma retry_loop_exhausts env url remaining :
  (forall c, is_duplicate (duplicate_reply env c url) = false) ->
  forall attempt w,
    quiet env w ->
    fst (retry_loop env url remaining attempt w) = None /\
    advance env remaining remaining w (snd (retry_loop env url remaining attempt w)).
Proof.
  intros Hdup; induction remaining as [|n IH]; intros attempt w Hq;
    cbn [retry_loop].
  - split; [reflexivity | apply idle_refl].
  - rewrite run_bind; cbn [gets fst snd].
    destruct Hq as (Hs & Hq). rewrite Hs.
    rewrite run_bind.
    pose proof (advance_emit env (EvAttempt url attempt) w) as A1.
    cbn [is_attempt is_primary_trigger] in A1.
    revert A1; generalize (snd (emit (EvAttempt url attempt) w)).
    cbn [fst]; intros w1 A1.
    rewrite run_bind.
    destruct (attempt_extraction_spec env url w1) as (w4 & A4 & _ & R & N).
    rewrite (N Hdup) in *. rewrite R.
    rewrite run_bind; cbn [gets fst snd]. rewrite run_bind.
    set (b := attempt <? max_retries (config w4)).
    pose proof (idle_retry_wait env b w4) as I5.
    revert I5.
    generalize (snd ((if b then sleep env SleepRetry else ret tt) w4)).
    intros w5 I5.
    pose proof (advance_idle _ _ _ _ _ _ (advance_trans _ _ _ _ _ _ _ _ A1 A4) I5) as A5.
    assert (Q5 : quiet env w5).
    { apply A5; split; assumption. }
    destruct (IH (attempt + 1) w5 Q5) as (E & A6).
    split; [exact E|].
    pose proof (advance_trans _ _ _ _ _ _ _ _ A5 A6) as A.
    cbn in A. exact A.
Qed.

(** ** Item processor *)

(** C7.  An identifier the backend reports as a duplicate at the initial check
    is [Skipped]: the skipped count goes up by one and no other counter
    moves; all that was done is the check itself, so no extraction is
    triggered and no attempt begun, and running the item again against the
    stored identifier repeats no extraction. *)
Theorem C7_duplicate_is_skipped env url index w :
  is_duplicate (duplicate_reply env (clock w) url) = true ->
  let r := process_single_url env url index w in
  fst r = ResSkipped url /\
  skipped (stats (snd r)) = skipped (stats w) + 1 /\
  successful (stats (snd r)) = successful (stats w) /\
  failed (stats (snd r)) = failed (stats w) /\
  errors (stats (snd r)) = errors (stats w) /\
  processed (stats (snd r)) = processed (stats w) /\
  total (stats (snd r)) = total (stats w) /\
  (exists sig,
     maybe_signal sig /\
     trace (snd r)
     = sig ++ EvCheckDuplicate url (duplicate_reply env (clock w) url)
           :: EvTask url index :: trace w) /\
  filter is_extraction (trace (snd r)) = filter is_extraction (trace w).
Proof.
  intros H; cbn zeta; unfold process_single_url.
  rewrite !run_bind; cbn [emit modify fst snd].
  destruct (check_url_exists_spec env url (log (EvTask url index) w))
    as ((S & _) & V & sig & T & Hsig).
  cbn [clock log] in V, T. rewrite V, H.
  rewrite run_bind; cbn [update_stats modify ret fst snd stats trace set_stats].
  rewrite S. cbn [stats log add_skipped skipped successful failed errors
                  processed total].
  repeat (split; [reflexivity|]).
  split; [exists sig; split; [exact Hsig | exact T]|].
  etransitivity; [exact (f_equal (filter is_extraction) T)|].
  destruct Hsig as [-> | ->]; reflexivity.
Qed.

Lemma C7_duplicate_is_skipped_witness :
  let env := with_backend known_backend plain_env in
  let r := process_single_url env "http://a" 1 (new_processor default_config) in
  fst r = ResSkipped "http://a" /\
  skipped (stats (snd r)) = 1 /\
  filter is_extraction (trace (snd r)) = [].
Proof.
  destruct (C7_duplicate_is_skipped (with_backend known_backend plain_env)
              "http://a" 1 (new_processor default_config) eq_refl)
    as (A & B & _ & _ & _ & _ & _ & _ & C).
  split; [exact A|]. split; [exact B | exact C].
Defined.

(** C10.  With [max_retries = 0] an identifier not reported as a duplicate is
    recorded as failed with the message of zero attempts: the failed count
    goes up by one, the failure list gains this one entry, no other counter
    moves, and all that was done is the initial check, nothing for an
    extraction. *)
Theorem C10_zero_retries_fail_untried env url index w :
  max_retries (config w) = 0 ->
  is_duplicate (duplicate_reply env (clock w) url) = false ->
  let r := process_single_url env url index w in
  fst r = ResError url "Failed after 0 attempts" /\
  failed (stats (snd r)) = failed (stats w) + 1 /\
  errors (stats (snd r))
  = errors (stats w) ++ [mkError url "Failed after 0 attempts"] /\
  successful (stats (snd r)) = successful (stats w) /\
  skipped (stats (snd r)) = skipped (stats w) /\
  processed (stats (snd r)) = processed (stats w) /\
  total (stats (snd r)) = total (stats w) /\
  (exists sig,
     maybe_signal sig /\
     trace (snd r)
     = sig ++ EvCheckDuplicate url (duplicate_reply env (clock w) url)
           :: EvTask url index :: trace w) /\
  filter is_extraction (trace (snd r)) = filter is_extraction (trace w).
Proof.
  intros H0 H; cbn zeta; unfold process_single_url.
  rewrite !run_bind; cbn [emit modify fst snd].
  destruct (check_url_exists_spec env url (log (EvTask url index) w))
    as ((S & C & _) & V & sig & T & Hsig).
  cbn [clock log] in V, T. rewrite V, H.
  rewrite !run_bind; cbn [gets fst snd].
  rewrite C; cbn [config log]. rewrite H0.
  cbn [Z.to_nat retry_loop ret fst snd]. rewrite !run_bind.
  cbn [update_stats modify ret fst snd stats trace set_stats
       add_failed skipped successful failed errors processed total].
  rewrite S. cbn [stats log].
  repeat (split; [reflexivity|]).
  split; [exists sig; split; [exact Hsig | exact T]|].
  etransitivity; [exact (f_equal (filter is_extraction) T)|].
  destruct Hsig as [-> | ->]; reflexivity.
Qed.

Lemma C10_zero_retries_fail_untried_witness :
  let r := process_single_url plain_env "http://a" 1
             (new_processor (with_max_retries 0 default_config)) in
  fst r = ResError "http://a" "Failed after 0 attempts" /\
  failed (stats (snd r)) = 1 /\
  errors (stats (snd r)) = [mkError "http://a" "Failed after 0 attempts"] /\
  filter is_extraction (trace (snd r)) = [].
Proof.
  destruct (C10_zero_retries_fail_untried plain_env "http://a" 1
              (new_processor (with_max_retries 0 default_config))
              eq_refl eq_refl)
    as (A & B & C & _ & _ & _ & _ & _ & D).
  split; [exact A|]. split; [exact B|]. split; [exact C | exact D].
Defined.

Lemma count_extends p new tr : (count p tr <= count p (new ++ tr))%nat.
Proof. rewrite count_app; lia. Qed.

(** With the flag clear, one more turn of the loop begins an attempt and
    fires the primary trigger. *)
Lemma retry_loop_begins env url n attempt w :
  should_stop w = false ->
  let r := retry_loop env url (S n) attempt w in
  In (EvAttempt url attempt) (trace (snd r)) /\
  (count is_primary_trigger (trace w) < count is_primary_trigger (trace (snd r)))%nat.
Proof.
  intros Hs; cbn zeta; cbn [retry_loop].
  rewrite run_bind; cbn [gets fst snd]. rewrite Hs.
  rewrite run_bind; cbn [emit modify fst snd].
  set (w1 := log (EvAttempt url attempt) w).
  assert (T1 : trace w1 = [EvAttempt url attempt] ++ trace w) by reflexivity.
  clearbody w1. rewrite run_bind.
  destruct (attempt_extraction_spec env url w1) as (w4 & A & (n4 & T4) & R & _).
  destruct A as (_ & _ & _ & _ & _ & _ & F & _).
  rewrite T1, count_app in F; cbn in F.
  destruct (attempt_extraction env url w1) as [ok w']; cbn [fst snd] in *.
  destruct ok.
  - destruct R as (-> & _); cbn [ret snd trace set_stats].
    split; [rewrite T4, T1; apply in_or_app; right; left; reflexivity | lia].
  - subst w'.
    match goal with
    | |- context [snd (?k w4)] =>
        assert (E : exists new, trace (snd (k w4)) = new ++ trace w4)
    end.
    { apply steps_extends.
      match goal with |- steps w4 (snd (?k w4)) => revert w4 T4 F end.
      intros w4 _ _; revert w4.
      match goal with
      | |- forall w, steps w (snd (?m w)) => change (respects steps m)
      end.
      steps_auto. }
    destruct E as (n5 & T5). rewrite T5. split.
    + rewrite T4, T1. apply in_or_app; right; apply in_or_app; right.
      left; reflexivity.
    + pose proof (count_extends is_primary_trigger n5 (trace w4)); lia.
Qed.

(** C8.  When the duplicate check fails with an error, [check_url_exists]
    answers [False]: the item is not skipped, and processing goes on into the
    retry loop.  With a retry budget and no shutdown requested, the first
    attempt is begun and the primary trigger fired. *)
Theorem C8_check_error_is_not_duplicate env url index w :
  duplicate_reply env (clock w) url = DupError ->
  fst (check_url_exists env url w) = false /\
  let r := process_single_url env url index w in
  fst r <> ResSkipped url /\
  skipped (stats (snd r)) = skipped (stats w) /\
  (should_stop w = false -> signal_at env (clock w) = false ->
   1 <= max_retries (config w) ->
   In (EvAttempt url 1) (trace (snd r)) /\
   (count is_primary_trigger (trace w)
    < count is_primary_trigger (trace (snd r)))%nat).
Proof.
  intros H; split; [cbn; now rewrite H|].
  cbn zeta; unfold process_single_url.
  rewrite !run_bind; cbn [emit modify fst snd].
  set (w0 := log (EvTask url index) w).
  assert (K0 : clock w0 = clock w) by reflexivity.
  assert (S0 : stats w0 = stats w) by reflexivity.
  assert (C0 : config w0 = config w) by reflexivity.
  assert (B0 : should_stop w0 = should_stop w) by reflexivity.
  assert (T0 : trace w0 = [EvTask url index] ++ trace w) by reflexivity.
  clearbody w0.
  assert (B1 : signal_at env (clock w) = false ->
               should_stop (snd (check_url_exists env url w0)) = should_stop w).
  { intros Hn; cbn. rewrite K0, Hn, B0. apply orb_false_r. }
  destruct (check_url_exists_spec env url w0)
    as ((St & C & _ & _ & _ & _ & F & _) & V & sig & T & Hsig).
  rewrite K0, H in V; change (is_duplicate DupError) with false in V.
  revert B1 St C F V T.
  destruct (check_url_exists env url w0) as [dup w1]; cbn [fst snd].
  intros B1 St C F -> T.
  rewrite !run_bind; cbn [gets fst snd].
  pose proof (retry_loop_outcome env url (Z.to_nat (max_retries (config w1))) 1 w1)
    as (_ & _ & P).
  assert (G : should_stop w = false -> signal_at env (clock w) = false ->
              1 <= max_retries (config w) ->
              let r := retry_loop env url (Z.to_nat (max_retries (config w1))) 1 w1 in
              In (EvAttempt url 1) (trace (snd r)) /\
              (count is_primary_trigger (trace w)
               < count is_primary_trigger (trace (snd r)))%nat).
  { intros Hs Hn Hm.
    replace (Z.to_nat (max_retries (config w1)))
      with (S (Z.to_nat (max_retries (config w1)) - 1))%nat
      by (rewrite C, C0; lia).
    destruct (retry_loop_begins env url
                (Z.to_nat (max_retries (config w1)) - 1) 1 w1) as (G1 & G2).
    { rewrite B1 by assumption; exact Hs. }
    split; [exact G1|].
    rewrite F, T0, count_app in G2.
    change (count is_primary_trigger [EvTask url index]) with 0%nat in G2.
    cbv zeta; lia. }
  revert P G.
  destruct (retry_loop env url (Z.to_nat (max_retries (config w1))) 1 w1)
    as [res w2]; cbn [fst snd].
  intros P G.
  destruct res as [[u|u|u e]|];
    cbn [ret fst snd update_stats modify stats trace set_stats].
  - destruct P.
  - destruct P as (-> & S2 & _). split; [discriminate|].
    split; [rewrite S2, St, S0; reflexivity | exact G].
  - destruct P as (-> & -> & S2 & _). split; [discriminate|].
    split; [rewrite S2, St, S0; reflexivity | exact G].
  - split; [discriminate|].
    split; [cbn; rewrite P, St, S0; reflexivity | exact G].
Qed.

Lemma C8_check_error_is_not_duplicate_witness :
  let env := with_backend (fun _ _ => DupError) plain_env in
  let w := new_processor default_config in
  let r := process_single_url env "http://a" 1 w in
  fst (check_url_exists env "http://a" w) = false /\
  fst r <> ResSkipped "http://a" /\
  skipped (stats (snd r)) = 0 /\
  In (EvAttempt "http://a" 1) (trace (snd r)) /\
  (0 < count is_primary_trigger (trace (snd r)))%nat.
Proof.
  destruct (C8_check_error_is_not_duplicate
              (with_backend (fun _ _ => DupError) plain_env) "http://a" 1
              (new_processor default_config) eq_refl) as (A & B & C & D).
  destruct (D eq_refl eq_refl ltac:(cbn; lia)) as (E & F).
  repeat split; assumption.
Defined.

(** The outcome of an item, whatever the outside does. *)
Lemma process_single_url_outcome env url index w :
  let r := process_single_url env url index w in
  match fst r with
  | ResExtracted u =>
      u = url /\ stats (snd r) = add_successful (stats w) /\
      verified_success env url (trace w) (trace (snd r))
  | ResSkipped u =>
      u = url /\ stats (snd r) = add_skipped (stats w)
  | ResError u e =>
      u = url /\
      (e = stopped_by_user /\ stats (snd r) = stats w /\
       should_stop (snd r) = true
       \/ e = failed_after (max_retries (config w)) /\
          stats (snd r) = add_failed (mkError url e) (stats w))
  end.
Proof.
  cbn zeta; unfold process_single_url.
  rewrite !run_bind; cbn [emit modify fst snd].
  set (w0 := log (EvTask url index) w).
  assert (S0 : stats w0 = stats w) by reflexivity.
  assert (C0 : config w0 = config w) by reflexivity.
  assert (T0 : trace w0 = [EvTask url index] ++ trace w) by reflexivity.
  clearbody w0.
  destruct (check_url_exists_spec env url w0)
    as ((St & C & _) & _ & sig0 & T & _).
  revert St C T.
  destruct (check_url_exists env url w0) as [dup w1]; cbn [fst snd].
  intros St C T.
  destruct dup; rewrite ?run_bind;
    cbn [update_stats modify gets ret fst snd stats set_stats].
  { split; [reflexivity | congruence]. }
  rewrite ?run_bind; cbn [gets fst snd].
  pose proof (retry_loop_outcome env url (Z.to_nat (max_retries (config w1))) 1 w1)
    as (_ & _ & P).
  revert P.
  destruct (retry_loop env url (Z.to_nat (max_retries (config w1))) 1 w1)
    as [res w2]; cbn [fst snd].
  intros P.
  destruct res as [[u|u|u e]|];
    cbn [ret fst snd update_stats modify stats trace set_stats].
  - destruct P.
  - destruct P as (-> & S2 & sig & reply & sig' & before & mid & k & older
                      & T2 & B & O & V & Hs).
    split; [reflexivity|]. split; [congruence|].
    exists sig, reply, sig', before, mid, k,
      (older ++ sig0 ++ EvCheckDuplicate url (duplicate_reply env (clock w0) url)
             :: [EvTask url index]).
    split; [rewrite T2, T, T0; assoc | auto].
  - destruct P as (-> & -> & S2 & B). split; [reflexivity|].
    left; split; [reflexivity|]. split; [congruence | exact B].
  - split; [reflexivity|]. right.
    rewrite run_bind; cbn [update_stats modify ret fst snd stats set_stats].
    split; congruence.
Qed.

(** C6, as amended.  An item is counted successful exactly when its outcome
    is the extracted one, and then the last call made for it is a duplicate
    check that the backend answered positively, issued after an attempt had
    begun: after the settle delay on the primary path, right after the
    successful run of the helper on the fallback path.  Whatever the triggers
    report, an item the backend never confirms is not counted successful. *)
Theorem C6_success_needs_verification env url index w :
  let r := process_single_url env url index w in
  match fst r with
  | ResExtracted u =>
      u = url /\ successful (stats (snd r)) = successful (stats w) + 1 /\
      verified_success env url (trace w) (trace (snd r))
  | _ => successful (stats (snd r)) = successful (stats w)
  end /\
  ((forall c, is_duplicate (duplicate_reply env c url) = false) ->
   fst r <> ResExtracted url /\
   successful (stats (snd r)) = successful (stats w)).
Proof.
  pose proof (process_single_url_outcome env url index w) as P.
  cbn zeta in *.
  destruct (process_single_url env url index w) as [res w']; cbn [fst snd] in *.
  assert (Q : match res with
              | ResExtracted u =>
                  u = url /\ successful (stats w') = successful (stats w) + 1 /\
                  verified_success env url (trace w) (trace w')
              | _ => successful (stats w') = successful (stats w)
              end).
  { destruct res as [u|u|u e].
    - destruct P as (_ & ->); reflexivity.
    - destruct P as (-> & -> & V); auto.
    - destruct P as (_ & [(_ & -> & _) | (_ & ->)]); reflexivity. }
  split; [exact Q|].
  intros N. destruct res as [u|u|u e]; try (split; [discriminate | exact Q]).
  destruct Q as (_ & _ & sig & reply & sig' & before & mid & k & older & _ & _
                   & (c & ->) & V & _).
  rewrite N in V; discriminate.
Qed.

Lemma C6_success_needs_verification_witness :
  let env := with_tab_opener (fun _ _ => true) plain_env in
  let r := process_single_url env "http://a" 1 (new_processor default_config) in
  fst r = ResError "http://a" "Failed after 3 attempts" /\
  fst r <> ResExtracted "http://a" /\
  successful (stats (snd r)) = 0 /\
  count is_primary_trigger (trace (snd r)) = 3%nat.
Proof.
  destruct (C6_success_needs_verification
              (with_tab_opener (fun _ _ => true) plain_env) "http://a" 1
              (new_processor default_config)) as (_ & N).
  destruct (N (fun _ => eq_refl)) as (A & B).
  split; [reflexivity|]. split; [exact A|]. split; [exact B | reflexivity].
Defined.

(** The primary trigger fails, the helper succeeds and the backend then knows
    the URL: the item is counted successful on a check made with no settle
    delay before it. *)
Lemma C6_counterexample :
  let env := with_list_tabs (fun _ => TabsError)
               (with_tab_opener (fun _ _ => true)
                  (with_backend (fun c _ => DupJson (Some (1 <=? c)%nat))
                     plain_env)) in
  let r := process_single_url env "http://a" 1 (new_processor default_config) in
  trace (snd r)
    = [EvCheckDuplicate "http://a" (DupJson (Some true));
       EvTabOpener "http://a" true; EvTabOpenerProbe true;
       EvListTabs TabsError; EvAttempt "http://a" 1;
       EvCheckDuplicate "http://a" (DupJson (Some false));
       EvTask "http://a" 1] /\
  fst r = ResExtracted "http://a" /\
  successful (stats (snd r)) = 1 /\
  ~ In (EvSleep SleepSettle) (trace (snd r)).
Proof.
  cbv zeta; split; [reflexivity|]. split; [reflexivity|].
  split; [reflexivity|].
  cbn; intros H; repeat (destruct H as [H | H]; [discriminate|]); exact H.
Qed.

(** C3, as amended.  While no shutdown is requested, an identifier the backend
    never reports, at the initial check or at any verification, is attempted
    exactly [max_retries] times (the length of range(1, max_retries + 1)),
    each attempt firing the primary trigger once; it is then recorded once in
    the failure list, with the message of [max_retries] attempts: the list
    gains this one entry at its end, the failed count goes up by one, and no
    other counter moves. *)
Theorem C3_retry_bound env url index w :
  quiet env w ->
  (forall c, is_duplicate (duplicate_reply env c url) = false) ->
  let r := process_single_url env url index w in
  let n := max_retries (config w) in
  fst r = ResError url (failed_after n) /\
  failed (stats (snd r)) = failed (stats w) + 1 /\
  errors (stats (snd r)) = errors (stats w) ++ [mkError url (failed_after n)] /\
  successful (stats (snd r)) = successful (stats w) /\
  skipped (stats (snd r)) = skipped (stats w) /\
  processed (stats (snd r)) = processed (stats w) /\
  total (stats (snd r)) = total (stats w) /\
  count is_attempt (trace (snd r))
    = (count is_attempt (trace w) + Z.to_nat n)%nat /\
  count is_primary_trigger (trace (snd r))
    = (count is_primary_trigger (trace w) + Z.to_nat n)%nat.
Proof.
  intros Hq Hdup; cbv zeta; unfold process_single_url.
  rewrite run_bind.
  pose proof (idle_emit env (EvTask url index) eq_refl eq_refl w) as I0.
  revert I0; generalize (snd (emit (EvTask url index) w)); cbn [fst].
  intros w0 I0. rewrite run_bind.
  destruct (check_url_exists_spec env url w0) as (I1 & V & _).
  rewrite Hdup in V. revert I1 V.
  destruct (check_url_exists env url w0) as [dup w1]; cbn [fst snd].
  intros I1 ->. rewrite ?run_bind; cbn [gets fst snd].
  pose proof (idle_trans _ _ _ _ I0 I1) as I.
  assert (Q1 : quiet env w1) by (apply I; exact Hq).
  destruct (retry_loop_exhausts env url (Z.to_nat (max_retries (config w1)))
              Hdup 1 w1 Q1) as (E & A).
  revert E A.
  destruct (retry_loop env url (Z.to_nat (max_retries (config w1))) 1 w1)
    as [res w2]; cbn [fst snd].
  intros -> A.
  rewrite run_bind; cbn [update_stats modify ret fst snd stats trace set_stats].
  destruct (idle_advance _ _ _ _ _ _ I A) as (S2 & C2 & _ & _ & _ & A2 & T2 & _).
  destruct I as (_ & C1 & _).
  rewrite C1, S2.
  cbn [add_failed skipped successful failed errors processed total].
  repeat (split; [reflexivity|]).
  rewrite A2, T2, C1; split; reflexivity.
Qed.

Lemma C3_retry_bound_witness :
  let r := process_single_url plain_env "http://a" 1
             (new_processor default_config) in
  fst r = ResError "http://a" "Failed after 3 attempts" /\
  failed (stats (snd r)) = 1 /\
  errors (stats (snd r)) = [mkError "http://a" "Failed after 3 attempts"] /\
  count is_attempt (trace (snd r)) = 3%nat /\
  count is_primary_trigger (trace (snd r)) = 3%nat.
Proof.
  assert (Q : quiet plain_env (new_processor default_config))
    by (split; [reflexivity | intros t _; reflexivity]).
  destruct (C3_retry_bound plain_env "http://a" 1 (new_processor default_config)
              Q (fun c => eq_refl)) as (A & B & C & _ & _ & _ & _ & D & E).
  split; [exact A|]. split; [exact B|]. split; [exact C|].
  split; [exact D | exact E].
Defined.

(** A shutdown requested during the initial duplicate check: the item is
    never attempted and never recorded, though the backend would never have
    confirmed it. *)
Lemma C3_counterexample :
  let env := with_signal 0 plain_env in
  let r := process_single_url env "http://a" 1 (new_processor default_config) in
  (forall c, is_duplicate (duplicate_reply env c "http://a") = false) /\
  max_retries default_config = 3 /\
  fst r = ResError "http://a" stopped_by_user /\
  count is_attempt (trace (snd r)) = 0%nat /\
  failed (stats (snd r)) = 0 /\
  errors (stats (snd r)) = [].
Proof. repeat split. Qed.

(** C1.  Two runs at whose end the processed count differs from the sum of the
    other three.  In the first, the only identifier is already stored: it is
    counted as skipped, then collecting the results of the batch raises, as
    it does in CPython for every batch that launched a task, and the batch is
    never added to the processed count.  In the second, a shutdown is
    requested while the batch is announced, after the batch loop has read the
    flag and before the launch loop reads it: no task is launched, collecting
    the results of no task raises nothing whether or not as_completed
    iterates, yet the whole batch is added to the processed count, and the
    final checkpoint records the imbalance. *)
Theorem C1_processed_count_out_of_balance :
  (let r := process_all_urls (with_backend known_backend plain_env)
              ["http://a"] (new_processor default_config) in
   fst r = inl AttributeError /\
   stats (snd r) = mkStats 1 0 0 0 1 (Some 0%nat) [] /\
   balanced (stats (snd r)) = false) /\
  (let r := process_all_urls (with_as_completed (with_signal 0 plain_env))
              ["http://a"] (new_processor default_config) in
   fst r = inr tt /\
   stats (snd r) = mkStats 1 1 0 0 0 (Some 0%nat) [] /\
   hd_error (trace (snd r))
     = Some (EvSave (mkProgress 1 (stats (snd r)) default_config)) /\
   balanced (stats (snd r)) = false).
Proof. repeat split. Qed.

(** ** Progress ledger *)

Lemma open_progress_run env w :
  open_progress env w
  = if open_progress_ok env (clock w) then (true, set_store (Some EmptyString) w)
    else (false, w).
Proof.
  unfold open_progress; rewrite run_bind; cbn [gets fst snd].
  destruct (open_progress_ok env (clock w)); reflexivity.
Qed.

Lemma dump_progress_run env text w :
  dump_progress env text w
  = match dump_fails_at env (clock w) with
    | None => (true, set_store (Some text) w)
    | Some k => (false, set_store (Some (substring 0 k text)) w)
    end.
Proof.
  unfold dump_progress; rewrite run_bind; cbn [gets fst snd].
  destruct (dump_fails_at env (clock w)); reflexivity.
Qed.

(** The world a checkpoint leaves. *)
Lemma save_progress_run env w :
  snd (_save_progress env w)
  = let p := current_progress w in
    snd (tick env
           (if open_progress_ok env (clock w) then
              match dump_fails_at env (clock w) with
              | None => log (EvSave p) (set_store (Some (json_dump env p)) w)
              | Some k =>
                  log EvSaveFailed
                      (set_store (Some (substring 0 k (json_dump env p))) w)
              end
            else log EvSaveFailed w)).
Proof.
  unfold _save_progress. rewrite !run_bind; cbn [gets fst snd].
  rewrite open_progress_run.
  destruct (open_progress_ok env (clock w)); cbn [fst snd];
    [|rewrite !run_bind; reflexivity].
  rewrite run_bind, dump_progress_run. cbn [clock set_store].
  destruct (dump_fails_at env (clock w)); rewrite !run_bind; reflexivity.
Qed.

(** C5, as amended.  A checkpoint rewrites the progress file in place.  When
    the file cannot be opened it is left as it was.  Once it is open it is
    empty, whatever it held: nothing of the previous snapshot is kept from
    then on.  A write that completes leaves exactly the new snapshot; a write
    that fails after the file was opened is swallowed and leaves the part of
    the new snapshot that had reached the file.  In no case are the
    statistics touched. *)
Theorem C5_checkpoint_rewrites_in_place env w :
  let text := json_dump env (current_progress w) in
  let w' := snd (_save_progress env w) in
  (open_progress_ok env (clock w) = false ->
   progress_store (snd (open_progress env w)) = progress_store w /\
   progress_store w' = progress_store w) /\
  (open_progress_ok env (clock w) = true ->
   progress_store (snd (open_progress env w)) = Some EmptyString /\
   (dump_fails_at env (clock w) = None -> progress_store w' = Some text) /\
   (forall k, dump_fails_at env (clock w) = Some k ->
              progress_store w' = Some (substring 0 k text))) /\
  stats w' = stats w.
Proof.
  cbv zeta. rewrite save_progress_run, open_progress_run. cbv zeta.
  destruct (open_progress_ok env (clock w)).
  - split; [discriminate|]. split.
    + intros _. split; [reflexivity|]. split.
      * intros ->. reflexivity.
      * intros k ->. reflexivity.
    + destruct (dump_fails_at env (clock w)); reflexivity.
  - split; [intros _; split; reflexivity|]. split; [discriminate | reflexivity].
Qed.

Lemma C5_checkpoint_rewrites_in_place_witness :
  let w := snd (_save_progress plain_env (new_processor default_config)) in
  progress_store w
    = Some ("{" ++ json_member "total" 0 ++ ", " ++ json_member "processed" 0
                ++ ", " ++ json_member "successful" 0 ++ ", "
                ++ json_member "failed" 0 ++ ", " ++ json_member "skipped" 0
                ++ "}")%string /\
  progress_store (snd (_save_progress (with_dump_failure 10 plain_env) w))
    = Some ("{" ++ dq ++ "total" ++ dq ++ ": ")%string.
Proof.
  destruct (C5_checkpoint_rewrites_in_place plain_env
              (new_processor default_config)) as (_ & A & _).
  destruct (A eq_refl) as (_ & A1 & _).
  destruct (C5_checkpoint_rewrites_in_place (with_dump_failure 10 plain_env)
              (snd (_save_progress plain_env (new_processor default_config))))
    as (_ & B & _).
  destruct (B eq_refl) as (_ & _ & B1).
  split; [exact (A1 eq_refl) | exact (B1 10%nat eq_refl)].
Defined.

(** A valid snapshot is in the file.  The next checkpoint opens the file:
    from that moment the file is empty.  Its write then fails after ten
    characters: the exception is swallowed and the file is left with these
    ten characters, the previous snapshot gone. *)
Lemma C5_counterexample :
  let env := with_dump_failure 10 plain_env in
  let w := snd (_save_progress plain_env (new_processor default_config)) in
  let w' := snd (_save_progress env w) in
  progress_store w
    = Some (render_progress (current_progress (new_processor default_config))) /\
  progress_store (snd (open_progress env w)) = Some EmptyString /\
  progress_store w' = Some ("{" ++ dq ++ "total" ++ dq ++ ": ")%string /\
  progress_store w' <> progress_store w.
Proof. repeat split; discriminate. Qed.

(** ** Process supervisor *)

(** C9, as amended.  [stop_chrome] does nothing when no browser process is
    held: before any start, after a stop, after a start that failed to launch.
    It always ends with no process held, so a second call does nothing.  After
    a [start_chrome] that reported failure it can be called and ends with no
    process held; if that start had launched the process before failing, the
    call terminates it. *)
Theorem C9_stop_chrome_idempotent env w :
  (chrome_process w = None -> stop_chrome env w = (tt, w)) /\
  chrome_process (snd (stop_chrome env w)) = None /\
  stop_chrome env (snd (stop_chrome env w)) = (tt, snd (stop_chrome env w)) /\
  (fst (start_chrome env w) = false ->
   let w' := snd (start_chrome env w) in
   chrome_process (snd (stop_chrome env w')) = None /\
   (chrome_process w = None -> popen env (clock w) = None ->
    stop_chrome env w' = (tt, w')) /\
   (forall pid, popen env (clock w) = Some pid ->
                In (EvTerminate pid) (trace (snd (stop_chrome env w'))))).
Proof.
  assert (N : forall v, chrome_process v = None -> stop_chrome env v = (tt, v)).
  { intros v H; unfold stop_chrome; rewrite run_bind; cbn [gets fst snd].
    now rewrite H. }
  assert (E : forall v, chrome_process (snd (stop_chrome env v)) = None).
  { intros v; unfold stop_chrome; rewrite run_bind; cbn [gets fst snd].
    destruct (chrome_process v) as [pid|] eqn:H; [reflexivity | exact H]. }
  split; [exact (N w)|]. split; [exact (E w)|].
  split; [apply N, E|]. intros _; cbv zeta.
  split; [apply E|]. split.
  - intros Hw Hp; apply N. unfold start_chrome, io.
    rewrite !run_bind; cbn [gets fst snd]. rewrite Hp; cbn. exact Hw.
  - intros pid Hp. unfold start_chrome, io.
    rewrite !run_bind; cbn [gets fst snd]. rewrite Hp.
    unfold stop_chrome; rewrite !run_bind; cbn [gets fst snd].
    cbn. destruct (exits_within_timeout env _ pid); cbn;
      repeat match goal with
             | |- context [if ?b then _ else _] => destruct b; cbn
             end; auto 10.
Qed.

Lemma C9_stop_chrome_idempotent_witness :
  let w := new_processor default_config in
  let no_binary := with_popen (fun _ => None) (fun _ => true) plain_env in
  let no_port := with_popen (fun _ => Some 4242) (fun _ => false) plain_env in
  stop_chrome plain_env w = (tt, w) /\
  fst (start_chrome no_binary w) = false /\
  stop_chrome no_binary (snd (start_chrome no_binary w))
    = (tt, snd (start_chrome no_binary w)) /\
  fst (start_chrome no_port w) = false /\
  chrome_process (snd (start_chrome no_port w)) = Some 4242 /\
  chrome_process (snd (stop_chrome no_port (snd (start_chrome no_port w)))) = None /\
  In (EvTerminate 4242)
     (trace (snd (stop_chrome no_port (snd (start_chrome no_port w))))).
Proof.
  cbv zeta.
  destruct (C9_stop_chrome_idempotent plain_env (new_processor default_config))
    as (A & _).
  destruct (C9_stop_chrome_idempotent
              (with_popen (fun _ => None) (fun _ => true) plain_env)
              (new_processor default_config)) as (_ & _ & _ & B).
  destruct (C9_stop_chrome_idempotent
              (with_popen (fun _ => Some 4242) (fun _ => false) plain_env)
              (new_processor default_config)) as (_ & _ & _ & C).
  destruct (B eq_refl) as (_ & B2 & _).
  destruct (C eq_refl) as (C1 & _ & C3).
  split; [exact (A eq_refl)|].
  split; [reflexivity|]. split; [exact (B2 eq_refl eq_refl)|].
  split; [reflexivity|]. split; [reflexivity|]. split; [exact C1|].
  exact (C3 4242 eq_refl).
Defined.

(** A start that launches the browser and then finds the debugging port
    closed reports failure and keeps the process: the stop that follows is
    not a no-op, it terminates the process. *)
Lemma C9_counterexample :
  let env := with_popen (fun _ => Some 4242) (fun _ => false) plain_env in
  let started := start_chrome env (new_processor default_config) in
  let stopped := stop_chrome env (snd started) in
  fst started = false /\
  chrome_process (snd started) = Some 4242 /\
  trace (snd stopped)
    = EvWaitExit 4242 true :: EvTerminate 4242 :: trace (snd started) /\
  stopped <> (tt, snd started).
Proof.
  cbv zeta; split; [reflexivity|]. split; [reflexivity|].
  split; [reflexivity|]. intros H.
  apply (f_equal (fun r => chrome_process (snd r))) in H; discriminate.
Qed.
(** ** Identifier source *)

Lemma eqb_empty_false s : String.eqb s "" = false -> s <> EmptyString.
Proof. intros H ->; discriminate. Qed.

Lemma reader_end_returns raises urls :
  Csv.reader_end raises = inr urls -> raises = false /\ urls = [].
Proof. destruct raises; [discriminate|]. intros H; injection H as <-; auto. Qed.

Lemma dict_get_in fieldnames row key v :
  Csv.dict_get (Csv.dict_row fieldnames row) key = Some (Some v) -> In v row.
Proof.
  unfold Csv.dict_get, Csv.dict_row; intros H.
  destruct (find _ _) as [[k o]|] eqn:F; [|discriminate].
  cbn in H; injection H as ->.
  apply find_some in F; destruct F as (F & _).
  apply in_rev, in_app_or in F; destruct F as [F | F].
  - apply in_map_iff in F; destruct F as ([k' v'] & E & F).
    cbn in E; injection E as _ ->.
    eapply in_combine_r; exact F.
  - apply in_map_iff in F; destruct F as (k' & E & _); discriminate.
Qed.

Lemma read_dict_rows_picked fieldnames column raises rows :
  forall urls,
    Csv.read_dict_rows fieldnames column raises rows = inr urls ->
    picked rows urls /\ Forall (fun u => u <> EmptyString) urls.
Proof.
  induction rows as [|row rows IH]; intros urls H; cbn [Csv.read_dict_rows] in H.
  - apply reader_end_returns in H; destruct H as (_ & ->); split; constructor.
  - destruct row as [|field fields].
    + destruct (IH _ H) as (P & N); split; [now constructor | exact N].
    + set (row := field :: fields) in *.
      destruct (Csv.dict_get (Csv.dict_row fieldnames row) column)
        as [[v|]|] eqn:G; try discriminate;
        destruct (Csv.read_dict_rows fieldnames column raises rows) as [e|rest];
        try discriminate; destruct (IH _ eq_refl) as (P & N);
        injection H as <-.
      * destruct (String.eqb (Csv.strip v) "") eqn:E.
        -- split; [now constructor | exact N].
        -- apply eqb_empty_false in E. split.
           ++ apply picked_take; auto. eapply dict_get_in; exact G.
           ++ now constructor.
      * cbn. split; [now constructor | exact N].
Qed.

Lemma read_plain_rows_picked raises rows :
  forall urls,
    Csv.read_plain_rows raises rows = inr urls ->
    picked rows urls /\
    Forall (fun u => u <> EmptyString) urls /\
    List.length urls = List.length (filter first_field_filled rows).
Proof.
  induction rows as [|row rows IH]; intros urls H; cbn [Csv.read_plain_rows] in H.
  - apply reader_end_returns in H; destruct H as (_ & ->).
    repeat split; constructor.
  - destruct row as [|field fields]; cbn [filter first_field_filled].
    + destruct (IH _ H) as (P & N & L).
      split; [now constructor | split; assumption].
    + destruct (Csv.read_plain_rows raises rows) as [e|rest]; [discriminate|].
      destruct (IH _ eq_refl) as (P & N & L). injection H as <-.
      destruct (String.eqb (Csv.strip field) "") eqn:E; cbn [negb].
      * split; [now constructor | split; assumption].
      * apply eqb_empty_false in E. split; [|split].
        -- apply picked_take; auto. now left.
        -- now constructor.
        -- cbn; now rewrite L.
Qed.

(** A blank record binds no cell. *)
Lemma dict_get_blank fieldnames key v :
  Csv.dict_get (Csv.dict_row fieldnames []) key <> Some (Some v).
Proof.
  intros H; apply dict_get_in in H; destruct H.
Qed.

(** When the loop over a DictReader returns, it has read every record by
    itself: the result is the identifier of the cell of each, in order. *)
Lemma read_dict_rows_exact fieldnames column raises rows :
  forall urls,
    Csv.read_dict_rows fieldnames column raises rows = inr urls ->
    urls = flat_map
             (fun row =>
                identifier_of
                  match Csv.dict_get (Csv.dict_row fieldnames row) column with
                  | Some (Some v) => v
                  | _ => EmptyString
                  end) rows.
Proof.
  induction rows as [|row rows IH]; intros urls H; cbn [Csv.read_dict_rows] in H.
  - apply reader_end_returns in H; destruct H as (_ & ->); reflexivity.
  - cbn [flat_map]. destruct row as [|field fields].
    + pose proof (dict_get_blank fieldnames column) as B.
      destruct (Csv.dict_get (Csv.dict_row fieldnames []) column) as [[v|]|];
        [destruct (B v eq_refl) | |]; cbn [app]; apply IH; exact H.
    + set (row := field :: fields) in *.
      destruct (Csv.dict_get (Csv.dict_row fieldnames row) column)
        as [[v|]|] eqn:G; try discriminate;
        destruct (Csv.read_dict_rows fieldnames column raises rows) as [e|rest];
        try discriminate; rewrite <- (IH _ eq_refl);
        injection H as <-; unfold identifier_of.
      * destruct (String.eqb (Csv.strip v) ""); reflexivity.
      * reflexivity.
Qed.

Lemma read_plain_rows_exact raises rows :
  forall urls,
    Csv.read_plain_rows raises rows = inr urls ->
    urls = flat_map (fun row => identifier_of (hd EmptyString row)) rows.
Proof.
  induction rows as [|row rows IH]; intros urls H; cbn [Csv.read_plain_rows] in H.
  - apply reader_end_returns in H; destruct H as (_ & ->); reflexivity.
  - cbn [flat_map]. destruct row as [|field fields].
    + cbn [hd app]. change (identifier_of EmptyString) with (@nil string).
      apply IH; exact H.
    + destruct (Csv.read_plain_rows raises rows) as [e|rest]; [discriminate|].
      rewrite <- (IH _ eq_refl). injection H as <-.
      cbn [hd]; unfold identifier_of.
      destruct (String.eqb (Csv.strip field) ""); reflexivity.
Qed.

Lemma load_urls_from_csv_exact f urls :
  Csv.load_urls_from_csv f = inr urls ->
  urls = flat_map (record_identifier f) (data_records f).
Proof.
  unfold Csv.load_urls_from_csv, data_records, record_identifier; intros H.
  destruct (Csv.has_header f).
  - destruct (Csv.csv_records f) as [|fieldnames rows].
    + apply reader_end_returns in H; destruct H as (_ & ->); reflexivity.
    + cbn [hd tl]. unfold url_cell. eapply read_dict_rows_exact; exact H.
  - eapply read_plain_rows_exact; exact H.
Qed.

Lemma count_occ_flat_map {A B} (dec : forall x y : B, {x = y} + {x <> y})
      (g : A -> list B) (l : list A) (b : B) :
  (forall a, g a = [] \/ exists c, g a = [c]) ->
  count_occ dec (flat_map g l) b
  = List.length (filter (fun a => if list_eq_dec dec (g a) [b] then true else false) l).
Proof.
  intros Hg; induction l as [|a l IH]; [reflexivity|].
  cbn [flat_map filter]. rewrite count_occ_app, IH.
  destruct (Hg a) as [E | (c & E)]; rewrite E.
  - destruct (list_eq_dec dec [] [b]); [discriminate | reflexivity].
  - cbn [count_occ]. destruct (dec c b) as [-> | N].
    + destruct (list_eq_dec dec [b] [b]); [reflexivity | contradiction].
    + destruct (list_eq_dec dec [c] [b]) as [E' | _]; [|reflexivity].
      injection E' as ->; contradiction.
Qed.

Lemma dict_get_full fieldnames row key :
  (List.length fieldnames <= List.length row)%nat ->
  Csv.dict_get (Csv.dict_row fieldnames row) key <> Some None.
Proof.
  unfold Csv.dict_get, Csv.dict_row; intros L H.
  rewrite skipn_all2, app_nil_r in H by exact L.
  destruct (find _ _) as [[k o]|] eqn:F; [|discriminate].
  cbn in H; injection H as ->.
  apply find_some in F; destruct F as (F & _).
  apply in_rev, in_map_iff in F; destruct F as (kv & E & _); discriminate.
Qed.

Lemma read_plain_rows_returns rows :
  exists urls, Csv.read_plain_rows false rows = inr urls.
Proof.
  induction rows as [|row rows (urls & IH)]; cbn [Csv.read_plain_rows];
    [eexists; reflexivity|].
  destruct row as [|field fields]; [exists urls; exact IH|].
  rewrite IH. eexists; reflexivity.
Qed.

(** Loading returns when the reader reads the file to its end and either
    there is no header, or no record is shorter than the header. *)
Lemma load_urls_from_csv_returns f :
  Csv.csv_error f = false ->
  Csv.has_header f = false \/
  (forall fieldnames rows,
     Csv.csv_records f = fieldnames :: rows ->
     Forall (fun row => (List.length fieldnames <= List.length row)%nat) rows) ->
  exists urls, Csv.load_urls_from_csv f = inr urls.
Proof.
  unfold Csv.load_urls_from_csv; intros -> [-> | H];
    [apply read_plain_rows_returns|].
  destruct (Csv.has_header f); [|apply read_plain_rows_returns].
  destruct (Csv.csv_records f) as [|fieldnames rows]; [eexists; reflexivity|].
  specialize (H _ _ eq_refl).
  induction H as [|row rows L _ (urls & IH)]; cbn [Csv.read_dict_rows];
    [eexists; reflexivity|].
  destruct row as [|field fields]; [exists urls; exact IH|].
  rewrite IH.
  pose proof (dict_get_full fieldnames (field :: fields)
                (Csv._detect_url_column (Some fieldnames)) L) as N.
  destruct (Csv.dict_get _ _) as [[v|]|]; try (eexists; reflexivity).
  destruct (N eq_refl).
Qed.

(** C2, as amended.  When loading returns, every record after the header
    (every record, when there is none) is read by itself and gives at most
    one identifier: the stripped content of its cell in the URL column (of
    its first field, when there is no header), unless that is empty.  The
    result is these identifiers in the order of the records.  So the
    identifiers are non-empty and in input order, and nothing is
    de-duplicated: an identifier is returned as many times as there are
    records that give it. *)
Theorem C2_identifiers_in_input_order f urls :
  Csv.load_urls_from_csv f = inr urls ->
  urls = flat_map (record_identifier f) (data_records f) /\
  (forall u,
     count_occ string_dec urls u
     = List.length
         (filter (fun row =>
                    if list_eq_dec string_dec (record_identifier f row) [u]
                    then true else false)
                 (data_records f))) /\
  Forall (fun u => u <> EmptyString) urls /\
  picked (Csv.csv_records f) urls /\
  (Csv.has_header f = false ->
   List.length urls
     = List.length (filter first_field_filled (Csv.csv_records f))).
Proof.
  intros H. pose proof (load_urls_from_csv_exact f urls H) as E.
  split; [exact E|]. split.
  { intros u. rewrite E at 1. apply count_occ_flat_map.
    intros row; unfold record_identifier, identifier_of.
    destruct (Csv.has_header f);
      match goal with
      | |- context [String.eqb ?s ""] => destruct (String.eqb s "")
      end; eauto. }
  revert H; unfold Csv.load_urls_from_csv; intros H.
  destruct (Csv.has_header f).
  - split; [|split; [|discriminate]].
    + destruct (Csv.csv_records f) as [|fieldnames rows].
      * apply reader_end_returns in H; destruct H as (_ & ->); constructor.
      * eapply read_dict_rows_picked; exact H.
    + destruct (Csv.csv_records f) as [|fieldnames rows].
      * apply reader_end_returns in H; destruct H as (_ & ->); constructor.
      * constructor. eapply read_dict_rows_picked; exact H.
  - destruct (read_plain_rows_picked _ _ _ H) as (P & N & L).
    auto.
Qed.

Lemma C2_identifiers_in_input_order_witness :
  let f := Csv.mkCsvFile ("name,Profile URL" ++ nl)%string
             [["name"; "Profile URL"]; ["x"; " http://a "]; [];
              ["y"; ""]; ["z"; "http://b"; "extra"]] in
  Csv.load_urls_from_csv f = inr ["http://a"; "http://b"] /\
  ["http://a"; "http://b"] = flat_map (record_identifier f) (data_records f) /\
  picked (Csv.csv_records f) ["http://a"; "http://b"].
Proof.
  split; [reflexivity|].
  destruct (C2_identifiers_in_input_order
              (Csv.mkCsvFile ("name,Profile URL" ++ nl)%string
                 [["name"; "Profile URL"]; ["x"; " http://a "]; [];
                  ["y"; ""]; ["z"; "http://b"; "extra"]])
              ["http://a"; "http://b"] eq_refl) as (A & _ & _ & B & _).
  split; [exact A | exact B].
Defined.

(** A URL listed in two records is returned twice, with a header as
    without. *)
Lemma C2_counterexample :
  let plain := Csv.mkCsvFile ("http://a" ++ nl ++ "http://a" ++ nl)%string
                 [["http://a"]; ["http://a"]] in
  let headed := Csv.mkCsvFile ("url" ++ nl ++ "http://a" ++ nl ++ "http://a" ++ nl)%string
                  [["url"]; ["http://a"]; ["http://a"]] in
  Csv.load_urls_from_csv plain = inr ["http://a"; "http://a"] /\
  Csv.load_urls_from_csv headed = inr ["http://a"; "http://a"] /\
  ~ NoDup ["http://a"; "http://a"].
Proof.
  split; [reflexivity|]. split; [reflexivity|].
  intros H; inversion H as [|? ? N _]; apply N; left; reflexivity.
Qed.

(** * Further properties *)

(** ** Batches *)

Lemma firstn_plus {A} (a b : nat) (l : list A) :
  firstn (a + b) l = firstn a l ++ firstn b (skipn a l).
Proof.
  revert l; induction a as [|a IH]; intros l; [reflexivity|].
  destruct l as [|x l]; cbn; [now rewrite firstn_nil | now rewrite IH].
Qed.

Lemma concat_slices {A} (l : list A) (b m : nat) :
  List.concat (map (fun k => firstn b (skipn (k * b) l)) (seq 0 m)) = firstn (m * b) l.
Proof.
  induction m as [|m IH]; [reflexivity|].
  rewrite seq_S, map_app, concat_app, IH; cbn [map List.concat plus].
  rewrite app_nil_r, <- firstn_plus. f_equal; lia.
Qed.

Lemma slice_at {A} (l : list A) (k : nat) (size : Z) :
  0 < size ->
  slice l (Z.of_nat k * size) (Z.of_nat k * size + size)
  = firstn (Z.to_nat size) (skipn (k * Z.to_nat size) l).
Proof.
  intros H; unfold slice. f_equal; [f_equal; lia|]. f_equal; nia.
Qed.

Lemma batches_firstn urls size :
  0 < size ->
  batches urls size
  = map (fun k => firstn (Z.to_nat size) (skipn (k * Z.to_nat size) urls))
        (seq 0 (Z.to_nat ((Z.of_nat (List.length urls) + size - 1) / size))).
Proof.
  intros H; unfold batches, py_range0.
  destruct (size <=? 0) eqn:E; [apply Z.leb_le in E; lia|].
  rewrite map_map. apply map_ext; intros k. now apply slice_at.
Qed.

(** The batches are consecutive pieces of the list: put end to end they give
    it back, none is empty, none is longer than the batch size, and all but
    the last have exactly the batch size. *)
Theorem batches_partition urls size :
  0 < size ->
  List.concat (batches urls size) = urls /\
  Forall (fun b => b <> [] /\ Z.of_nat (List.length b) <= size) (batches urls size) /\
  (forall k b, nth_error (batches urls size) k = Some b ->
               (S k < List.length (batches urls size))%nat ->
               Z.of_nat (List.length b) = size) /\
  Z.of_nat (List.length (batches urls size))
    = (Z.of_nat (List.length urls) + size - 1) / size.
Proof.
  intros H. rewrite batches_firstn by exact H.
  set (n := List.length urls). set (b := Z.to_nat size).
  set (m := Z.to_nat ((Z.of_nat n + size - 1) / size)).
  assert (Hb : (0 < b)%nat) by lia.
  assert (Hm : (n <= m * b /\ (m = 0 \/ (m - 1) * b < n))%nat).
  { assert (Q : (Z.of_nat n + size - 1) / size = Z.of_nat m).
    { unfold m; rewrite Z2Nat.id; [reflexivity|].
      apply Z.div_pos; lia. }
    pose proof (Z.div_mod (Z.of_nat n + size - 1) size ltac:(lia)) as D.
    pose proof (Z.mod_pos_bound (Z.of_nat n + size - 1) size H) as B.
    rewrite Q in D. unfold b. split; [nia|].
    destruct m as [|m']; [now left | right]. nia. }
  destruct Hm as (Hm1 & Hm2).
  split; [|split; [|split]].
  - rewrite concat_slices. apply firstn_all2. exact Hm1.
  - apply Forall_forall; intros x Hx.
    apply in_map_iff in Hx; destruct Hx as (k & <- & Hk).
    apply in_seq in Hk. split.
    + intros E. apply (f_equal (@List.length string)) in E.
      rewrite length_firstn, length_skipn in E; cbn in E.
      destruct Hm2 as [Hm2 | Hm2]; [lia|].
      assert (k * b <= (m - 1) * b)%nat by (apply Nat.mul_le_mono_r; lia).
      fold n in E. lia.
    + rewrite length_firstn. lia.
  - intros k x Hx Hk. rewrite length_map, length_seq in Hk.
    rewrite nth_error_map in Hx.
    rewrite nth_error_seq in Hx.
    destruct (k <? m)%nat eqn:E; [|discriminate].
    cbn in Hx; injection Hx as <-.
    rewrite length_firstn, length_skipn. fold n.
    destruct Hm2 as [Hm2 | Hm2]; [lia|].
    assert (S k * b <= (m - 1) * b)%nat by (apply Nat.mul_le_mono_r; lia).
    cbn in H0. unfold b in *. lia.
  - rewrite length_map, length_seq. unfold m.
    rewrite Z2Nat.id; [reflexivity | apply Z.div_pos; lia].
Qed.

Lemma batches_partition_witness :
  batches ["a"; "b"; "c"; "d"; "e"]%string 2
    = [["a"; "b"]; ["c"; "d"]; ["e"]]%string /\
  List.concat (batches ["a"; "b"; "c"; "d"; "e"]%string 2)
    = ["a"; "b"; "c"; "d"; "e"]%string.
Proof.
  split; [reflexivity|].
  exact (proj1 (batches_partition ["a"; "b"; "c"; "d"; "e"]%string 2 eq_refl)).
Defined.

(** ** Agent identifier *)

Lemma split_char_nonempty c s : split_char c s <> [].
Proof.
  destruct s as [|a s]; cbn; [discriminate|].
  destruct (Ascii.eqb a c); [discriminate|].
  destruct (split_char c s); discriminate.
Qed.

Lemma split_char_single c s p : split_char c s = [p] -> s = p.
Proof.
  revert p; induction s as [|a s IH]; intros p H; cbn in H.
  - now injection H.
  - destruct (Ascii.eqb a c).
    + injection H as _ H. destruct (split_char_nonempty _ _ H).
    + pose proof (split_char_nonempty c s) as NE.
      destruct (split_char c s) as [|q qs]; [contradiction|].
      injection H as <- ->. now rewrite (IH q eq_refl).
Qed.

Lemma split_char_no_separator c s :
  has_char c s = false -> split_char c s = [s].
Proof.
  unfold has_char; induction s as [|a s IH]; cbn; [reflexivity|].
  intros H; apply orb_false_elim in H; destruct H as (H1 & H2).
  rewrite Ascii.eqb_sym, H1, (IH H2); reflexivity.
Qed.

(** The last part of a split has no separator in it, and the string ends with
    it, right after a separator unless it is the whole string. *)
Lemma split_char_last c s :
  let part := last (split_char c s) EmptyString in
  has_char c part = false /\
  exists before, s = (before ++ part)%string /\
                 (before = EmptyString \/
                  exists b, before = (b ++ String c EmptyString)%string).
Proof.
  cbv zeta; induction s as [|a s (N & before & E & B)]; cbn [split_char].
  - split; [reflexivity|]. exists EmptyString; auto.
  - pose proof (split_char_nonempty c s) as NE.
    pose proof (split_char_single c s) as Single.
    destruct (split_char c s) as [|p ps] eqn:Sp; [contradiction|].
    destruct (Ascii.eqb a c) eqn:Hac.
    + apply Ascii.eqb_eq in Hac; subst a.
      change (last (EmptyString :: p :: ps) EmptyString)
        with (last (p :: ps) EmptyString).
      split; [exact N|].
      exists (String c before); split; [cbn [append]; congruence|].
      right. destruct B as [-> | (b & ->)].
      * exists EmptyString; reflexivity.
      * exists (String c b); reflexivity.
    + destruct ps as [|q qs].
      * cbn [last] in *. rewrite (Single p eq_refl) in *.
        split; [unfold has_char in *; cbn; now rewrite Ascii.eqb_sym, Hac|].
        exists EmptyString; auto.
      * change (last (String a p :: q :: qs) EmptyString)
          with (last (p :: q :: qs) EmptyString).
        split; [exact N|].
        exists (String a before); split; [cbn [append]; congruence|].
        right. destruct B as [-> | (b & ->)].
        -- cbn [append] in E. rewrite <- E in N.
           rewrite (split_char_no_separator c s N) in Sp. discriminate.
        -- exists (String a b); reflexivity.
Qed.

Lemma rstrip_char_no_separator c s :
  has_char c s = false -> rstrip_char c s = s.
Proof.
  unfold has_char; induction s as [|a s IH]; cbn; [reflexivity|].
  intros H; apply orb_false_elim in H; destruct H as (H1 & H2).
  rewrite (IH H2). destruct s; [|reflexivity].
  now rewrite Ascii.eqb_sym, H1.
Qed.

(** [_extract_agent_id] answers the last path segment: it contains no slash,
    the URL without its trailing slashes ends with it, right after a slash
    unless it is all that is left; the fallback to the whole URL is never
    taken, and applying the function again changes nothing. *)
Theorem extract_agent_id_last_segment url :
  let id := _extract_agent_id url in
  has_char slash id = false /\
  (exists before,
     rstrip_char slash url = (before ++ id)%string /\
     (before = EmptyString \/
      exists b, before = (b ++ String slash EmptyString)%string)) /\
  id = last (split_char slash (rstrip_char slash url)) EmptyString /\
  _extract_agent_id id = id.
Proof.
  cbv zeta.
  assert (E : _extract_agent_id url
              = last (split_char slash (rstrip_char slash url)) EmptyString).
  { unfold _extract_agent_id.
    pose proof (split_char_nonempty slash (rstrip_char slash url)).
    destruct (split_char _ _); [contradiction | reflexivity]. }
  destruct (split_char_last slash (rstrip_char slash url)) as (N & B).
  rewrite <- E in N, B.
  split; [exact N|]. split; [exact B|]. split; [exact E|].
  unfold _extract_agent_id at 1.
  now rewrite (rstrip_char_no_separator _ _ N), (split_char_no_separator _ _ N).
Qed.

(** ** Identifier source *)

Lemma find_first {A} (p : A -> bool) l x :
  find p l = Some x ->
  exists before after,
    l = before ++ x :: after /\ p x = true /\
    Forall (fun y => p y = false) before.
Proof.
  induction l as [|y l IH]; cbn; [discriminate|].
  destruct (p y) eqn:E.
  - intros H; injection H as <-. exists [], l; auto.
  - intros H; destruct (IH H) as (b & a & -> & P & F).
    exists (y :: b), a; auto.
Qed.

Lemma find_nowhere {A} (p : A -> bool) l :
  find p l = None -> Forall (fun y => p y = false) l.
Proof.
  intros H; apply Forall_forall; intros y Hy.
  exact (find_none p l H y Hy).
Qed.

(** [_detect_url_column] answers the first field name that contains one of
    the indicators, whatever its case, the first field name when none does,
    and the name url when there are no field names at all; with field names
    it always answers one of them. *)
Theorem detect_url_column_first_match fieldnames :
  let column := Csv._detect_url_column fieldnames in
  match fieldnames with
  | None | Some [] => column = "url"%string
  | Some (first :: rest) =>
      exists before after,
        first :: rest = before ++ column :: after /\
        Forall (fun field => has_indicator field = false) before /\
        (has_indicator column = true \/
         before = [] /\ Forall (fun field => has_indicator field = false) after)
  end.
Proof.
  cbv zeta; destruct fieldnames as [[|first rest]|]; try reflexivity.
  unfold Csv._detect_url_column.
  change (fun field => existsb (fun indicator => Csv.contains indicator (Csv.lower field))
                               Csv.url_indicators) with has_indicator.
  destruct (find has_indicator (first :: rest)) as [field|] eqn:F.
  - destruct (find_first _ _ _ F) as (b & a & E & P & N).
    exists b, a; auto.
  - apply find_nowhere in F. exists [], rest.
    split; [reflexivity|]. split; [constructor|].
    right; split; [reflexivity|]. now inversion F.
Qed.

Lemma lstrip_starts_clean s : starts_clean (Csv.lstrip s).
Proof.
  induction s as [|c s IH]; cbn; [exact I|].
  destruct (Csv.is_space c) eqn:E; [exact IH | exact E].
Qed.

Lemma lstrip_clean s : starts_clean s -> Csv.lstrip s = s.
Proof. destruct s as [|c s]; cbn; [reflexivity|]. now intros ->. Qed.

Lemma rstrip_starts_clean s : starts_clean s -> starts_clean (Csv.rstrip s).
Proof.
  destruct s as [|c s]; cbn; [auto|]. intros H.
  destruct (Csv.rstrip s); [rewrite H|]; exact H.
Qed.

Lemma rstrip_rstrip s : Csv.rstrip (Csv.rstrip s) = Csv.rstrip s.
Proof.
  induction s as [|c s IH]; cbn; [reflexivity|].
  destruct (Csv.rstrip s) as [|d r] eqn:E.
  - destruct (Csv.is_space c) eqn:Hc; cbn; [reflexivity | now rewrite Hc].
  - cbn [Csv.rstrip]. cbn [Csv.rstrip] in IH. rewrite IH. reflexivity.
Qed.

Lemma strip_strip s : Csv.strip (Csv.strip s) = Csv.strip s.
Proof.
  unfold Csv.strip.
  rewrite (lstrip_clean (Csv.rstrip (Csv.lstrip s))).
  - apply rstrip_rstrip.
  - apply rstrip_starts_clean, lstrip_starts_clean.
Qed.

Lemma picked_length rows urls :
  picked rows urls -> (List.length urls <= List.length rows)%nat.
Proof. induction 1; cbn; lia. Qed.

Lemma picked_stripped rows urls :
  picked rows urls -> Forall (fun u => Csv.strip u = u) urls.
Proof.
  induction 1; [constructor | assumption |].
  constructor; [apply strip_strip | assumption].
Qed.

(** The records that can give identifiers: all of them without a header,
    all but the first with one. *)
Lemma load_picked f urls :
  Csv.load_urls_from_csv f = inr urls ->
  picked (if Csv.has_header f then tl (Csv.csv_records f) else Csv.csv_records f)
         urls.
Proof.
  unfold Csv.load_urls_from_csv; intros H.
  destruct (Csv.has_header f).
  - destruct (Csv.csv_records f) as [|fieldnames rows].
    + apply reader_end_returns in H; destruct H as (_ & ->); constructor.
    + eapply read_dict_rows_picked; exact H.
  - eapply read_plain_rows_picked; exact H.
Qed.

(** Every identifier [load_urls_from_csv] returns is already stripped: it
    has no white space at either end. *)
Theorem loaded_identifiers_are_stripped f urls :
  Csv.load_urls_from_csv f = inr urls ->
  Forall (fun u => Csv.strip u = u) urls.
Proof. intros H; eapply picked_stripped, load_picked; exact H. Qed.

Lemma loaded_identifiers_are_stripped_witness :
  Forall (fun u => Csv.strip u = u) ["http://a"; "http://b"]%string.
Proof.
  exact (loaded_identifiers_are_stripped
           (Csv.mkCsvFile ("name,Profile URL" ++ nl)%string
              [["name"; "Profile URL"]; ["x"; " http://a "]; [];
               ["y"; ""]; ["z"; "http://b"; "extra"]]%string)
           ["http://a"; "http://b"]%string eq_refl).
Defined.

(** With a header the first record names the columns and never gives an
    identifier, even when it holds a URL: the identifiers are read off the
    records after it, at most one each. *)
Theorem header_record_gives_no_identifier f urls :
  Csv.has_header f = true ->
  Csv.load_urls_from_csv f = inr urls ->
  picked (tl (Csv.csv_records f)) urls /\
  (List.length urls <= List.length (Csv.csv_records f) - 1)%nat.
Proof.
  intros Hh H. pose proof (load_picked f urls H) as P. rewrite Hh in P.
  split; [exact P|]. apply picked_length in P.
  destruct (Csv.csv_records f); cbn in *; lia.
Qed.

Lemma header_record_gives_no_identifier_witness :
  let f := Csv.mkCsvFile ("www.example.com/a" ++ nl ++ "http://b" ++ nl)%string
             [["www.example.com/a"]; ["http://b"]]%string in
  Csv.load_urls_from_csv f = inr ["http://b"]%string /\
  picked (tl (Csv.csv_records f)) ["http://b"]%string.
Proof.
  split; [reflexivity|].
  exact (proj1 (header_record_gives_no_identifier
                  (Csv.mkCsvFile ("www.example.com/a" ++ nl ++ "http://b" ++ nl)%string
                     [["www.example.com/a"]; ["http://b"]]%string)
                  ["http://b"]%string eq_refl eq_refl)).
Defined.

Lemma find_app {A} (p : A -> bool) l1 l2 :
  find p (l1 ++ l2) = match find p l1 with Some x => Some x | None => find p l2 end.
Proof.
  induction l1 as [|x l1 IH]; cbn; [reflexivity|].
  destruct (p x); [reflexivity | exact IH].
Qed.

Lemma dict_get_missing fieldnames row column :
  In column (skipn (List.length row) fieldnames) ->
  Csv.dict_get (Csv.dict_row fieldnames row) column = Some None.
Proof.
  intros H; unfold Csv.dict_get, Csv.dict_row.
  rewrite rev_app_distr, find_app.
  destruct (find _ (rev (map _ (skipn _ fieldnames)))) as [[k o]|] eqn:F.
  - apply find_some in F; destruct F as (F & _).
    apply in_rev, in_map_iff in F; destruct F as (k' & E & _).
    injection E as _ <-. reflexivity.
  - exfalso. eapply find_none with (x := (column, None)) in F.
    + cbn in F. now rewrite String.eqb_refl in F.
    + apply in_rev. rewrite rev_involutive. apply in_map_iff.
      exists column; auto.
Qed.

Lemma read_dict_rows_raises fieldnames column raises rows row :
  In row rows -> row <> [] ->
  In column (skipn (List.length row) fieldnames) ->
  Csv.read_dict_rows fieldnames column raises rows = inl AttributeError.
Proof.
  intros Hin Hrow Hcol.
  induction rows as [|r rows IH]; [destruct Hin|].
  cbn [Csv.read_dict_rows].
  destruct Hin as [-> | Hin].
  - destruct row as [|field fields]; [contradiction|].
    now rewrite (dict_get_missing _ _ _ Hcol).
  - specialize (IH Hin). destruct r as [|field fields]; [exact IH|].
    rewrite IH.
    destruct (Csv.dict_get _ _) as [[v|]|]; reflexivity.
Qed.

(** With a header, one non-blank record too short to reach the URL column
    makes the whole loading raise AttributeError: no identifier is returned,
    not even those of the well-formed records. *)
Theorem short_record_raises f fieldnames rows row :
  Csv.has_header f = true ->
  Csv.csv_records f = fieldnames :: rows ->
  In row rows -> row <> [] ->
  In (Csv._detect_url_column (Some fieldnames))
     (skipn (List.length row) fieldnames) ->
  Csv.load_urls_from_csv f = inl AttributeError.
Proof.
  intros Hh Hr Hin Hrow Hcol. unfold Csv.load_urls_from_csv.
  rewrite Hh, Hr. eapply read_dict_rows_raises; eassumption.
Qed.

Lemma short_record_raises_witness :
  Csv.load_urls_from_csv
    (Csv.mkCsvFile ("name,url" ++ nl)%string
       [["name"; "url"]; ["x"; "http://a"]; ["y"]]%string)
  = inl AttributeError.
Proof.
  apply (short_record_raises _ ["name"; "url"]%string
           [["x"; "http://a"]; ["y"]]%string ["y"]%string).
  - reflexivity.
  - reflexivity.
  - right; left; reflexivity.
  - discriminate.
  - left; reflexivity.
Defined.

(** ** Threads *)









(** ** What every schedule respects *)

Section Pool.

Variable env : Env.
Variable R : World -> World -> Prop.
Hypothesis R_refl : forall w, R w w.
Hypothesis R_trans : forall w1 w2 w3, R w1 w2 -> R w2 w3 -> R w1 w3.

Lemma each_step_and_then {A B} (p : Thread A) (k : A -> Thread B) :
  each_step R p -> (forall a, each_step R (k a)) -> each_step R (and_then p k).
Proof.
  intros Hp Hk; induction p as [a | C m next IH]; cbn [and_then each_step] in *;
    [apply Hk|].
  destruct Hp as (Hm & Hn). split; [exact Hm|]. intros b; apply IH, Hn.
Qed.

Lemma each_step_atom {A} (m : M A) : respects R m -> each_step R (atom m).
Proof. intros H; split; [exact H | intros b; exact I]. Qed.

Lemma each_step_alone {A} (p : Thread A) :
  each_step R p -> respects R (alone p).
Proof.
  induction p as [a | C m next IH]; intros H w; cbn [alone]; [apply R_refl|].
  destruct H as (Hm & Hn).
  eapply R_trans; [apply Hm | apply IH, Hn].
Qed.

Lemma sound_set_nth k j jobs :
  sound R jobs -> each_step R (remaining j) -> sound R (set_nth k j jobs).
Proof.
  intros Hs Hj; revert k; induction Hs as [|x l Hx Hl IH]; intros k;
    [destruct k; cbn [set_nth]; constructor|].
  destruct k as [|k]; cbn [set_nth]; constructor; auto.
  apply IH.
Qed.

Lemma sound_nth k j jobs :
  sound R jobs -> nth_error jobs k = Some j -> each_step R (remaining j).
Proof.
  intros Hs Hn. apply nth_error_In in Hn.
  exact (proj1 (Forall_forall _ _) Hs j Hn).
Qed.

(** A turn of a job respects what its steps respect, and leaves jobs whose
    steps respect it. *)
Lemma job_step_sound limit k pool w :
  sound R (jobs pool) ->
  R w (snd (job_step limit k pool w)) /\
  sound R (jobs (fst (job_step limit k pool w))).
Proof.
  intros Hs; unfold job_step.
  destruct (nth_error (jobs pool) k) as [j|] eqn:N; [|split; [apply R_refl | exact Hs]].
  pose proof (sound_nth _ _ _ Hs N) as Hj.
  destruct (taken j).
  - destruct (remaining j) as [a | C m next]; [split; [apply R_refl | exact Hs]|].
    destruct Hj as (Hm & Hn). rewrite run_bind; cbn [ret fst snd jobs].
    split; [apply Hm|]. apply sound_set_nth; [exact Hs | apply Hn].
  - destruct (free_worker limit k (jobs pool)); cbn [ret fst snd jobs];
      (split; [apply R_refl|]); [apply sound_set_nth|]; assumption.
Qed.

Lemma join_respects jobs : sound R jobs -> respects R (join jobs).
Proof.
  induction 1 as [|j rest Hj _ IH]; cbn [join]; [apply (respects_ret _ R_refl)|].
  apply (respects_bind _ R_trans); [apply each_step_alone, Hj|intros r].
  apply (respects_bind _ R_trans); [exact IH|intros rs].
  apply (respects_ret _ R_refl).
Qed.

Hypothesis R_tick : respects R (tick env).
Hypothesis R_item : forall e, item_event e = true -> respects R (emit e).
Hypothesis R_write : forall g, item_write g -> respects R (update_stats g).

Lemma item_io {A} (oracle : nat -> A) (ev : A -> Event) :
  (forall a, item_event (ev a) = true) -> respects R (io env oracle ev).
Proof.
  intros H; apply (respects_io _ R_refl R_trans); [|exact R_tick].
  intros a; apply R_item, H.
Qed.

Lemma item_sleep s :
  item_event (EvSleep s) = true -> respects R (sleep env s).
Proof.
  intros H; apply (respects_sleep _ R_trans); [apply R_item, H | exact R_tick].
Qed.

Lemma item_check_url_exists url : respects R (check_url_exists env url).
Proof.
  unfold check_url_exists.
  apply (respects_bind _ R_trans); [apply item_io; reflexivity|intros r].
  apply (respects_ret _ R_refl).
Qed.

Lemma item_increment counter set :
  (forall n, item_write (set n)) -> each_step R (increment counter set).
Proof.
  intros H; unfold increment.
  apply each_step_and_then; [apply each_step_atom, (respects_gets _ R_refl)|].
  intros n; apply each_step_atom, R_write, H.
Qed.

Lemma item_write_successful n : item_write (set_successful n).
Proof. intro s; repeat split. Qed.

Lemma item_write_skipped n : item_write (set_skipped n).
Proof. intro s; repeat split. Qed.

Lemma item_write_failed n : item_write (set_failed n).
Proof. intro s; repeat split. Qed.

Lemma item_write_error e : item_write (append_error e).
Proof. intro s; repeat split. Qed.

Ltac thread_step :=
  lazymatch goal with
  | |- each_step _ (and_then _ _) => apply each_step_and_then; [|intros ?]
  | |- each_step _ (Done _) => exact I
  | |- each_step _ (increment _ _) =>
      apply item_increment;
      first [exact item_write_successful | exact item_write_skipped
            | exact item_write_failed]
  | |- each_step _ (atom _) => apply each_step_atom
  | |- each_step _ (if ?b then _ else _) => destruct b
  | |- each_step _ (match ?x with _ => _ end) => destruct x
  | |- respects _ (io _ _ _) => apply item_io; reflexivity
  | |- respects _ (sleep _ _) => apply item_sleep; reflexivity
  | |- respects _ (check_url_exists _ _) => apply item_check_url_exists
  | |- respects _ (process_url_via_tab_opener _ _) => apply item_io; reflexivity
  | |- respects _ (emit _) => apply R_item; reflexivity
  | |- respects _ (gets _) => apply (respects_gets _ R_refl)
  | |- respects _ (ret _) => apply (respects_ret _ R_refl)
  | |- respects _ (bind _ _) => apply (respects_bind _ R_trans); [|intros ?]
  | |- respects _ (update_stats _) => apply R_write, item_write_error
  end.

Lemma each_step_attempt_extraction url :
  each_step R (attempt_extraction_thread env url).
Proof.
  unfold attempt_extraction_thread, fallback_extraction_thread,
    process_url_via_chrome_devtools_thread.
  repeat thread_step.
Qed.

Lemma each_step_retry_loop url remaining :
  forall attempt, each_step R (retry_loop_thread env url remaining attempt).
Proof.
  induction remaining as [|n IH]; intros attempt; cbn [retry_loop_thread];
    [exact I|].
  pose proof (each_step_attempt_extraction url) as E.
  repeat first [exact E | apply IH | thread_step].
Qed.

(** Every step of an item task respects [R]. *)
Lemma each_step_process_single_url url index :
  each_step R (process_single_url_thread env url index).
Proof.
  unfold process_single_url_thread.
  repeat first [apply each_step_retry_loop | thread_step].
Qed.

Hypothesis R_tab : respects R (emit (EvSleep SleepTab)).

Lemma launch_step_sound size pool w :
  sound R (jobs pool) ->
  R w (snd (launch_step env size pool w)) /\
  sound R (jobs (fst (launch_step env size pool w))).
Proof.
  intros Hs; unfold launch_step.
  destruct (launch pool) as [[|url rest] i | rest i].
  - split; [apply R_refl | exact Hs].
  - rewrite run_bind; cbn [gets fst snd].
    destruct (should_stop w); [split; [apply R_refl | exact Hs]|].
    rewrite !run_bind; cbn [gets ret fst snd jobs].
    split; [apply R_tick|].
    apply Forall_app; split; [exact Hs|]. constructor; [|constructor].
    apply each_step_process_single_url.
  - rewrite run_bind; cbn [ret fst snd jobs]. split; [|exact Hs].
    apply (respects_sleep _ R_trans); [exact R_tab | exact R_tick].
Qed.

Lemma run_pool_sound limit size order :
  forall pool w,
    sound R (jobs pool) ->
    R w (snd (run_pool env limit size order pool w)) /\
    sound R (jobs (fst (run_pool env limit size order pool w))).
Proof.
  induction order as [|[|k] rest IH]; intros pool w Hs; cbn [run_pool].
  - split; [apply R_refl | exact Hs].
  - rewrite run_bind.
    destruct (launch_step_sound size pool w Hs) as (H1 & S1).
    destruct (IH _ (snd (launch_step env size pool w)) S1) as (H2 & S2).
    split; [eapply R_trans; eassumption | exact S2].
  - rewrite run_bind.
    destruct (job_step_sound limit k pool w Hs) as (H1 & S1).
    destruct (IH _ (snd (job_step limit k pool w)) S1) as (H2 & S2).
    split; [eapply R_trans; eassumption | exact S2].
Qed.

(** The with block respects what the steps of the main thread and of the
    item tasks respect, whatever the schedule. *)
Lemma with_executor_respects limit urls :
  respects R (with_executor env limit urls).
Proof.
  intro w; unfold with_executor. rewrite run_bind; cbn [gets fst snd].
  rewrite run_bind.
  destruct (run_pool_sound limit (Z.of_nat (List.length urls))
              (schedule env (clock w)) (mkPool (Launching urls 0) []) w
              (Forall_nil _)) as (H1 & S1).
  revert H1 S1.
  destruct (run_pool env limit _ (schedule env (clock w)) _ w) as [pool1 w1];
    cbn [fst snd]; intros H1 S1.
  rewrite run_bind.
  destruct (run_pool_sound limit (Z.of_nat (List.length urls))
              (repeat O (launch_left (launch pool1))) pool1 w1 S1) as (H2 & S2).
  revert H2 S2.
  destruct (run_pool env limit _ (repeat O _) pool1 w1) as [pool2 w2];
    cbn [fst snd]; intros H2 S2.
  eapply R_trans; [exact H1|]. eapply R_trans; [exact H2|].
  apply join_respects, S2.
Qed.

Hypothesis R_batch : forall index size, respects R (emit (EvBatch index size)).

Lemma process_batch_respects urls batch_index :
  respects R (process_batch env urls batch_index).
Proof.
  unfold process_batch.
  apply (respects_bind _ R_trans); [apply R_batch|intros _].
  apply (respects_bind _ R_trans); [apply R_tick|intros _].
  apply (respects_bind _ R_trans); [apply (respects_gets _ R_refl)|intros limit].
  destruct (limit <=? 0); [apply (respects_ret _ R_refl)|].
  apply (respects_bind _ R_trans); [apply with_executor_respects|intros results].
  destruct results; [apply (respects_ret _ R_refl)|].
  destruct (as_completed_yields env); apply (respects_ret _ R_refl).
Qed.

End Pool.

(** ** Observations that computations keep *)

Lemma keeps_refl {A} (f : World -> A) w : keeps f w w.
Proof. reflexivity. Qed.

Lemma keeps_trans {A} (f : World -> A) w1 w2 w3 :
  keeps f w1 w2 -> keeps f w2 w3 -> keeps f w1 w3.
Proof. unfold keeps; congruence. Qed.

Section Keeps.

Variable env : Env.
Variable A : Type.
Variable f : World -> A.

Hypothesis f_tick : forall w b, f (set_clock (S (clock w)) (deliver b w)) = f w.
Hypothesis f_call : forall e w, is_call e = true -> f (log e w) = f w.
Hypothesis f_successful :
  forall w, f (set_stats (add_successful (stats w)) w) = f w.

Lemma keeps_tick : respects (keeps f) (tick env).
Proof. intro w; apply f_tick. Qed.

Lemma keeps_call e : is_call e = true -> respects (keeps f) (emit e).
Proof. intros H w; apply f_call, H. Qed.

Lemma keeps_successful : respects (keeps f) (update_stats add_successful).
Proof. intro w; apply f_successful. Qed.

#[local] Hint Resolve keeps_tick keeps_successful : respects.
#[local] Hint Extern 1 (respects (keeps _) (emit _)) =>
  (apply keeps_call; reflexivity) : respects.

Ltac keeps_auto := repeat respects_step (keeps_refl f) (keeps_trans f).

Lemma keeps_check_url_exists url : respects (keeps f) (check_url_exists env url).
Proof. unfold check_url_exists; keeps_auto. Qed.

Lemma keeps_devtools url :
  respects (keeps f) (process_url_via_chrome_devtools env url).
Proof. unfold process_url_via_chrome_devtools; keeps_auto. Qed.

Lemma keeps_tab_opener url :
  respects (keeps f) (process_url_via_tab_opener env url).
Proof. unfold process_url_via_tab_opener; keeps_auto. Qed.

#[local] Hint Resolve keeps_check_url_exists keeps_devtools keeps_tab_opener
  : respects.

Lemma keeps_attempt_extraction url :
  respects (keeps f) (attempt_extraction env url).
Proof. unfold attempt_extraction, fallback_extraction; keeps_auto. Qed.

#[local] Hint Resolve keeps_attempt_extraction : respects.

Hypothesis f_attempt : forall url k w, f (log (EvAttempt url k) w) = f w.

Lemma keeps_attempt url k : respects (keeps f) (emit (EvAttempt url k)).
Proof. intro w; apply f_attempt. Qed.

#[local] Hint Resolve keeps_attempt : respects.

(** The retry loop keeps what its retry delay keeps. *)
Lemma keeps_retry_loop_when url remaining :
  (forall w, f (log (EvSleep SleepRetry) w) = f w) ->
  forall attempt, respects (keeps f) (retry_loop env url remaining attempt).
Proof.
  intros Hs.
  assert (S : respects (keeps f) (emit (EvSleep SleepRetry)))
    by (intro w; apply Hs).
  induction remaining as [|n IH]; intros attempt; cbn [retry_loop]; keeps_auto.
Qed.

Hypothesis f_retry : forall w, f (log (EvSleep SleepRetry) w) = f w.
Hypothesis f_task : forall url k w, f (log (EvTask url k) w) = f w.
Hypothesis f_skipped : forall w, f (set_stats (add_skipped (stats w)) w) = f w.
Hypothesis f_failed :
  forall e w, f (set_stats (add_failed e (stats w)) w) = f w.

Lemma keeps_retry_loop url remaining attempt :
  respects (keeps f) (retry_loop env url remaining attempt).
Proof. apply keeps_retry_loop_when; exact f_retry. Qed.

Lemma keeps_process_single_url url index :
  respects (keeps f) (process_single_url env url index).
Proof.
  pose proof keeps_retry_loop.
  assert (respects (keeps f) (emit (EvTask url index)))
    by (intro w; apply f_task).
  assert (respects (keeps f) (update_stats add_skipped))
    by (intro w; apply f_skipped).
  assert (forall e, respects (keeps f) (update_stats (add_failed e)))
    by (intros e w; apply f_failed).
  unfold process_single_url; keeps_auto.
Qed.

End Keeps.

(** ** More on the item processor *)

Lemma retry_loop_attempts env url remaining :
  forall attempt w,
    let w' := snd (retry_loop env url remaining attempt w) in
    exists k, (k <= remaining)%nat /\
      count is_attempt (trace w') = (count is_attempt (trace w) + k)%nat /\
      count is_primary_trigger (trace w')
        = (count is_primary_trigger (trace w) + k)%nat.
Proof.
  induction remaining as [|n IH]; intros attempt w; cbv zeta; cbn [retry_loop].
  - exists 0%nat; cbn; lia.
  - rewrite run_bind; cbn [gets fst snd].
    destruct (should_stop w); [exists 0%nat; cbn; lia|].
    rewrite run_bind.
    pose proof (advance_emit env (EvAttempt url attempt) w) as A1.
    cbn [is_attempt is_primary_trigger] in A1.
    revert A1; generalize (snd (emit (EvAttempt url attempt) w)).
    cbn [fst]; intros w1 A1. rewrite run_bind.
    destruct (attempt_extraction_spec env url w1) as (w4 & A4 & _ & R & _).
    pose proof (advance_trans _ _ _ _ _ _ _ _ A1 A4) as A.
    destruct (attempt_extraction env url w1) as [ok w2]; cbn [fst snd] in *.
    destruct ok.
    + destruct R as (-> & _). cbn [ret snd trace set_stats].
      destruct A as (_ & _ & _ & _ & _ & Ca & Ct & _).
      exists 1%nat. split; [lia|]. split; [exact Ca | exact Ct].
    + subst w2. rewrite run_bind; cbn [gets fst snd]. rewrite run_bind.
      set (b := attempt <? max_retries (config w4)).
      pose proof (idle_retry_wait env b w4) as I5. revert I5.
      generalize (snd ((if b then sleep env SleepRetry else ret tt) w4)).
      intros w5 I5.
      destruct (advance_idle _ _ _ _ _ _ A I5)
        as (_ & _ & _ & _ & _ & Ca & Ct & _).
      destruct (IH (attempt + 1) w5) as (k & Hk & Ka & Kt).
      exists (S k). split; [lia|]. cbn [fst]. rewrite Ka, Kt, Ca, Ct. lia.
Qed.

(** Whatever the outside answers, an item is attempted at most [max_retries]
    times, and every attempt fires the primary trigger exactly once. *)
Theorem attempts_within_budget env url index w :
  let w' := snd (process_single_url env url index w) in
  exists k, (k <= Z.to_nat (max_retries (config w)))%nat /\
    count is_attempt (trace w') = (count is_attempt (trace w) + k)%nat /\
    count is_primary_trigger (trace w')
      = (count is_primary_trigger (trace w) + k)%nat.
Proof.
  cbv zeta; unfold process_single_url. rewrite run_bind.
  pose proof (idle_emit env (EvTask url index) eq_refl eq_refl w) as I0.
  revert I0; generalize (snd (emit (EvTask url index) w)); cbn [fst].
  intros w0 I0. rewrite run_bind.
  pose proof (idle_trans _ _ _ _ I0 (idle_check_url_exists env url w0)) as I.
  revert I. destruct (check_url_exists env url w0) as [dup w1]; cbn [fst snd].
  intros (_ & C & _ & _ & _ & Ca & Ct & _).
  rewrite Nat.add_0_r in Ca, Ct.
  destruct dup; rewrite ?run_bind; cbn [update_stats modify gets ret fst snd].
  { exists 0%nat; cbn [trace set_stats]. split; [lia|]. rewrite Ca, Ct; lia. }
  rewrite ?run_bind; cbn [gets fst snd].
  destruct (retry_loop_attempts env url (Z.to_nat (max_retries (config w1))) 1 w1)
    as (k & Hk & Ka & Kt).
  revert Hk Ka Kt.
  destruct (retry_loop env url (Z.to_nat (max_retries (config w1))) 1 w1)
    as [res w2]; cbn [fst snd].
  intros Hk Ka Kt. rewrite C in Hk. exists k. split; [exact Hk|].
  destruct res as [res|]; rewrite ?run_bind;
    cbn [update_stats modify ret fst snd trace set_stats];
    rewrite Ka, Kt, Ca, Ct; split; reflexivity.
Qed.

Lemma count_retry_sleep_tick w b :
  count is_retry_sleep (trace (set_clock (S (clock w)) (deliver b w)))
  = count is_retry_sleep (trace w).
Proof. destruct b; reflexivity. Qed.

Lemma count_retry_sleep_call e w :
  is_call e = true ->
  count is_retry_sleep (trace (log e w)) = count is_retry_sleep (trace w).
Proof.
  intros H; cbn [trace log]; rewrite count_cons.
  destruct e; try discriminate; try reflexivity.
  destruct s; try discriminate; reflexivity.
Qed.

Lemma retry_loop_delays env url remaining :
  forall attempt w,
    attempt + Z.of_nat remaining = max_retries (config w) + 1 ->
    (count is_retry_sleep (trace (snd (retry_loop env url remaining attempt w)))
     <= count is_retry_sleep (trace w) + pred remaining)%nat.
Proof.
  induction remaining as [|n IH]; intros attempt w Hinv; cbn [retry_loop].
  - cbn; lia.
  - rewrite run_bind; cbn [gets fst snd].
    destruct (should_stop w); [cbn; lia|].
    rewrite run_bind; cbn [emit modify fst snd].
    set (w1 := log (EvAttempt url attempt) w).
    assert (C1 : config w1 = config w) by reflexivity.
    assert (R1 : count is_retry_sleep (trace w1) = count is_retry_sleep (trace w))
      by reflexivity.
    clearbody w1. rewrite run_bind.
    pose proof (keeps_attempt_extraction env _
                  (fun v => count is_retry_sleep (trace v))
                  count_retry_sleep_tick count_retry_sleep_call
                  (fun v => eq_refl) url w1) as K.
    destruct (attempt_extraction_spec env url w1) as (w4 & A4 & _ & R & _).
    unfold keeps in K. revert K R.
    destruct (attempt_extraction env url w1) as [ok w2]; cbn [fst snd].
    intros K R. destruct ok; [cbn [ret snd]; lia|].
    subst w2. rewrite run_bind; cbn [gets fst snd]. rewrite run_bind.
    destruct A4 as (_ & C4 & _).
    assert (Hb : (attempt <? max_retries (config w4)) = negb (Nat.eqb n 0)).
    { rewrite C4, C1. destruct n; cbn [Nat.eqb negb].
      - apply Z.ltb_ge; lia.
      - apply Z.ltb_lt; lia. }
    rewrite Hb. destruct n as [|n]; cbn [Nat.eqb negb].
    + cbn [ret fst snd retry_loop]. lia.
    + set (w5 := snd (sleep env SleepRetry w4)).
      assert (C5 : config w5 = config w4) by reflexivity.
      assert (R5 : count is_retry_sleep (trace w5)
                   = S (count is_retry_sleep (trace w4))).
      { unfold w5, sleep; rewrite run_bind; unfold tick.
        cbn [emit modify fst snd].
        rewrite count_retry_sleep_tick. reflexivity. }
      clearbody w5. cbn [fst].
      assert (Hinv' : attempt + 1 + Z.of_nat (S n) = max_retries (config w5) + 1)
        by (rewrite C5, C4, C1; lia).
      pose proof (IH (attempt + 1) w5 Hinv'). cbn [pred] in *. lia.
Qed.

(** The retry delay is taken only between attempts: whatever the outside
    answers, an item waits it at most [max_retries - 1] times. *)
Theorem retry_delays_between_attempts env url index w :
  (count is_retry_sleep (trace (snd (process_single_url env url index w)))
   <= count is_retry_sleep (trace w) + pred (Z.to_nat (max_retries (config w))))%nat.
Proof.
  unfold process_single_url. rewrite run_bind; cbn [emit modify fst snd].
  set (w0 := log (EvTask url index) w).
  assert (C0 : config w0 = config w) by reflexivity.
  assert (R0 : count is_retry_sleep (trace w0) = count is_retry_sleep (trace w))
    by reflexivity.
  clearbody w0. rewrite run_bind.
  pose proof (keeps_check_url_exists env _
                (fun v => count is_retry_sleep (trace v))
                count_retry_sleep_tick count_retry_sleep_call url w0) as K.
  pose proof (idle_check_url_exists env url w0) as (_ & C & _).
  unfold keeps in K. revert K C.
  destruct (check_url_exists env url w0) as [dup w1]; cbn [fst snd].
  intros K C.
  destruct dup; rewrite ?run_bind;
    cbn [update_stats modify gets ret fst snd trace set_stats]; [lia|].
  rewrite ?run_bind; cbn [gets fst snd].
  assert (L : (count is_retry_sleep
                 (trace (snd (retry_loop env url
                                (Z.to_nat (max_retries (config w1))) 1 w1)))
               <= count is_retry_sleep (trace w1)
                  + pred (Z.to_nat (max_retries (config w1))))%nat).
  { destruct (Z.to_nat (max_retries (config w1))) as [|n] eqn:E.
    - cbn; lia.
    - rewrite <- E. apply retry_loop_delays. lia. }
  revert L.
  destruct (retry_loop env url (Z.to_nat (max_retries (config w1))) 1 w1)
    as [res w2]; cbn [fst snd].
  intros L. rewrite C, C0 in L.
  destruct res as [res|]; rewrite ?run_bind;
    cbn [update_stats modify ret fst snd trace set_stats]; lia.
Qed.

Lemma in_tick env e w :
  In e (trace (snd (tick env w))) -> e = EvSignal \/ In e (trace w).
Proof.
  unfold tick; cbn [snd]. destruct (signal_at env (clock w)); cbn; intuition auto.
Qed.

Lemma in_sleep env s e w :
  In e (trace (snd (sleep env s w))) ->
  e = EvSignal \/ e = EvSleep s \/ In e (trace w).
Proof.
  unfold sleep; rewrite run_bind; intros H.
  apply in_tick in H; cbn in H. intuition auto.
Qed.

Lemma in_io {A} env (oracle : nat -> A) ev e w :
  In e (trace (snd (io env oracle ev w))) ->
  e = EvSignal \/ e = ev (oracle (clock w)) \/ In e (trace w).
Proof.
  unfold io; rewrite !run_bind; cbn [gets ret fst snd]; intros H.
  apply in_tick in H; cbn in H. intuition auto.
Qed.

(** With a tab already open the primary trigger never hands the URL to the
    browser: it answers and leaves the world the same for every URL, opens no
    tab, and its answer is that of closing the first listed tab (or success
    when that tab has no id). *)
Theorem open_tab_trigger_ignores_url env url w tab :
  list_tabs env (clock w) = TabsOk (Some tab) ->
  let r := process_url_via_chrome_devtools env url w in
  (forall url', process_url_via_chrome_devtools env url' w = r) /\
  (forall u t, In (EvNewTab u t) (trace (snd r)) -> In (EvNewTab u t) (trace w)) /\
  match tab_id tab with
  | Some id => In (EvCloseTab id (fst r)) (trace (snd r))
  | None => fst r = true
  end.
Proof.
  intros H.
  assert (E : forall u, process_url_via_chrome_devtools env u w
                        = (sleep env SleepExtraction ;;;
                           match tab_id tab with
                           | Some id => io env (fun c => close_tab env c id)
                                           (EvCloseTab id)
                           | None => ret true
                           end)
                            (snd (io env (list_tabs env) EvListTabs w))).
  { intros u; unfold process_url_via_chrome_devtools.
    rewrite run_bind.
    change (fst (io env (list_tabs env) EvListTabs w))
      with (list_tabs env (clock w)).
    rewrite H. rewrite run_bind; reflexivity. }
  cbv zeta. split; [intros u; now rewrite !E|].
  rewrite E, run_bind. clear E.
  set (w1 := snd (io env (list_tabs env) EvListTabs w)).
  assert (I1 : forall e, In e (trace w1) ->
                 e = EvSignal \/ e = EvListTabs (TabsOk (Some tab)) \/ In e (trace w)).
  { intros e He; apply in_io in He; rewrite H in He; exact He. }
  clearbody w1.
  set (w2 := snd (sleep env SleepExtraction w1)).
  assert (I2 : forall e, In e (trace w2) ->
                 e = EvSignal \/ e = EvSleep SleepExtraction \/ In e (trace w1))
    by (intros e; apply in_sleep).
  clearbody w2. cbn [fst].
  destruct (tab_id tab) as [id|].
  - split.
    + intros u t Hin. apply in_io in Hin.
      destruct Hin as [Hin|[Hin|Hin]]; try discriminate.
      apply I2 in Hin. destruct Hin as [Hin|[Hin|Hin]]; try discriminate.
      apply I1 in Hin. destruct Hin as [Hin|[Hin|Hin]]; try discriminate.
      exact Hin.
    + unfold io, tick; rewrite !run_bind; cbn [gets ret emit modify fst snd].
      destruct (signal_at env (clock _)); cbn; auto.
  - cbn [ret fst snd]. split; [|reflexivity].
    intros u t Hin.
    apply I2 in Hin. destruct Hin as [Hin|[Hin|Hin]]; try discriminate.
    apply I1 in Hin. destruct Hin as [Hin|[Hin|Hin]]; try discriminate.
    exact Hin.
Qed.

Lemma open_tab_trigger_ignores_url_witness :
  let env := with_list_tabs (fun _ => TabsOk (Some (mkTab (Some "T1")))) plain_env in
  let w := new_processor default_config in
  process_url_via_chrome_devtools env "https://a/1" w
  = process_url_via_chrome_devtools env "https://b/2" w.
Proof.
  intros env w.
  exact (eq_sym (proj1 (open_tab_trigger_ignores_url env "https://b/2" w
                          (mkTab (Some "T1")) eq_refl) "https://a/1")).
Defined.

(** ** More on the batch scheduler *)

Lemma keeps_update_stats {A} (f : World -> A) g :
  (forall w, f (set_stats (g (stats w)) w) = f w) ->
  respects (keeps f) (update_stats g).
Proof. intros H w; apply H. Qed.

Lemma task_log_tick w b :
  task_log (trace (set_clock (S (clock w)) (deliver b w))) = task_log (trace w).
Proof. destruct b; reflexivity. Qed.

Lemma task_log_call e w :
  is_call e = true -> task_log (trace (log e w)) = task_log (trace w).
Proof. destruct e; try discriminate; reflexivity. Qed.

Lemma task_log_app l1 l2 : task_log (l1 ++ l2) = task_log l1 ++ task_log l2.
Proof. apply flat_map_app. Qed.

(** An item task enters the task log once, under the index it was given. *)
Lemma task_log_item env url index w :
  task_log (trace (snd (process_single_url env url index w)))
  = (url, index) :: task_log (trace w).
Proof.
  unfold process_single_url. rewrite run_bind; cbn [emit modify fst snd].
  set (f := fun v => task_log (trace v)).
  change ((url, index) :: task_log (trace w))
    with (f (log (EvTask url index) w)).
  generalize (log (EvTask url index) w); intros w0.
  match goal with
  | |- task_log (trace (snd (?body w0))) = _ =>
      assert (K : respects (keeps f) body); [|exact (K w0)]
  end.
  pose proof (keeps_check_url_exists env _ f task_log_tick task_log_call url).
  pose proof (keeps_retry_loop env _ f task_log_tick task_log_call
                (fun v => eq_refl) (fun u k v => eq_refl) (fun v => eq_refl) url).
  pose proof (keeps_update_stats f add_skipped (fun v => eq_refl)).
  pose proof (fun e => keeps_update_stats f (add_failed e) (fun v => eq_refl)).
  repeat respects_step (keeps_refl f) (keeps_trans f).
Qed.

Lemma ledger_item env url index w :
  ledger (snd (process_single_url env url index w)) = ledger w.
Proof.
  apply (keeps_process_single_url env _ ledger); intros; reflexivity.
Qed.

Lemma count_batch_tick w b :
  count is_batch (trace (set_clock (S (clock w)) (deliver b w)))
  = count is_batch (trace w).
Proof. destruct b; reflexivity. Qed.

Lemma count_batch_call e w :
  is_call e = true ->
  count is_batch (trace (log e w)) = count is_batch (trace w).
Proof. destruct e; try discriminate; reflexivity. Qed.

Lemma quiet_sleep env s w : quiet env w -> quiet env (snd (sleep env s w)).
Proof. apply (idle_sleep env s w). Qed.

Lemma tick_keeps env v :
  let v' := snd (tick env v) in
  stats v' = stats v /\ config v' = config v /\
  chrome_process v' = chrome_process v /\
  task_log (trace v') = task_log (trace v) /\
  count is_batch (trace v') = count is_batch (trace v) /\
  (should_stop v = true -> should_stop v' = true) /\
  (quiet env v -> quiet env v').
Proof.
  cbv zeta. split; [reflexivity|]. split; [reflexivity|].
  split; [reflexivity|]. split; [apply task_log_tick|].
  split; [apply count_batch_tick|].
  split; [cbn; intros ->; reflexivity | apply (idle_tick env v)].
Qed.

Lemma save_progress_keeps env w :
  let w' := snd (_save_progress env w) in
  stats w' = stats w /\ config w' = config w /\
  chrome_process w' = chrome_process w /\
  task_log (trace w') = task_log (trace w) /\
  count is_batch (trace w') = count is_batch (trace w) /\
  (should_stop w = true -> should_stop w' = true) /\
  (quiet env w -> quiet env w').
Proof.
  cbv zeta; rewrite save_progress_run; cbv zeta.
  destruct (open_progress_ok env (clock w));
    [destruct (dump_fails_at env (clock w)) as [k|]|].
  - exact (tick_keeps env
             (log EvSaveFailed
                  (set_store (Some (substring 0 k (json_dump env (current_progress w))))
                             w))).
  - exact (tick_keeps env
             (log (EvSave (current_progress w))
                  (set_store (Some (json_dump env (current_progress w))) w))).
  - exact (tick_keeps env (log EvSaveFailed w)).
Qed.

(** ** What a batch keeps under every schedule *)

Lemma ledger_tick w b :
  ledger (set_clock (S (clock w)) (deliver b w)) = ledger w.
Proof. destruct b; reflexivity. Qed.

Lemma ledger_write g w :
  item_write g -> ledger (set_stats (g (stats w)) w) = ledger w.
Proof.
  intros H; destruct (H (stats w)) as (T & P & _).
  unfold ledger; cbn [progress_store stats config chrome_process set_stats].
  now rewrite T, P.
Qed.

Lemma ledger_with_executor env limit urls w :
  ledger (snd (with_executor env limit urls w)) = ledger w.
Proof.
  apply (with_executor_respects env (keeps ledger)
           (keeps_refl ledger) (keeps_trans ledger)).
  - intro v; apply ledger_tick.
  - intros e _ v; reflexivity.
  - intros g H v; apply ledger_write, H.
  - intro v; reflexivity.
Qed.

Lemma ledger_process_batch env urls batch_index w :
  ledger (snd (process_batch env urls batch_index w)) = ledger w.
Proof.
  apply (process_batch_respects env (keeps ledger)
           (keeps_refl ledger) (keeps_trans ledger)).
  - intro v; apply ledger_tick.
  - intros e _ v; reflexivity.
  - intros g H v; apply ledger_write, H.
  - intro v; reflexivity.
  - intros index size v; reflexivity.
Qed.

Lemma count_batch_item e w :
  item_event e = true ->
  count is_batch (trace (log e w)) = count is_batch (trace w).
Proof. destruct e; try discriminate; reflexivity. Qed.

Lemma count_batch_with_executor env limit urls w :
  count is_batch (trace (snd (with_executor env limit urls w)))
  = count is_batch (trace w).
Proof.
  apply (with_executor_respects env (keeps (fun v => count is_batch (trace v)))
           (keeps_refl _) (keeps_trans _)).
  - intro v; apply count_batch_tick.
  - intros e H v; apply count_batch_item, H.
  - intros g _ v; reflexivity.
  - intro v; reflexivity.
Qed.

Lemma grows_refl w : grows w w.
Proof. exists []; reflexivity. Qed.

Lemma grows_trans w1 w2 w3 : grows w1 w2 -> grows w2 w3 -> grows w1 w3.
Proof.
  intros (n1 & E1) (n2 & E2). exists (n2 ++ n1).
  now rewrite E2, E1, app_assoc.
Qed.

Lemma grows_tick env : respects grows (tick env).
Proof.
  intro w; unfold tick; cbn [snd trace set_clock].
  destruct (signal_at env (clock w)); [exists [EvSignal] | exists []]; reflexivity.
Qed.

Lemma grows_emit e : respects grows (emit e).
Proof. intro w; exists [e]; reflexivity. Qed.

Lemma grows_write g : respects grows (update_stats g).
Proof. intro w; exists []; reflexivity. Qed.

Lemma grows_item env url index :
  each_step grows (process_single_url_thread env url index).
Proof.
  apply (each_step_process_single_url env grows grows_refl grows_trans).
  - apply grows_tick.
  - intros e _; apply grows_emit.
  - intros g _; apply grows_write.
Qed.

Lemma stays_stopped_refl w : stays_stopped w w.
Proof. intro H; exact H. Qed.

Lemma stays_stopped_trans w1 w2 w3 :
  stays_stopped w1 w2 -> stays_stopped w2 w3 -> stays_stopped w1 w3.
Proof. unfold stays_stopped; auto. Qed.

Lemma stays_stopped_tick env : respects stays_stopped (tick env).
Proof.
  intros w H; unfold tick; cbn. now rewrite H.
Qed.

Lemma stays_stopped_same (f : World -> World) :
  (forall w, should_stop (f w) = should_stop w) ->
  respects stays_stopped (modify f).
Proof. intros H w Hs; cbn [modify snd]. now rewrite H. Qed.

(** A batch never takes a shutdown request back, whatever the schedule. *)
Lemma stays_stopped_process_batch env urls batch_index :
  respects stays_stopped (process_batch env urls batch_index).
Proof.
  apply (process_batch_respects env stays_stopped
           stays_stopped_refl stays_stopped_trans).
  - apply stays_stopped_tick.
  - intros e _; apply stays_stopped_same; reflexivity.
  - intros g _; apply stays_stopped_same; reflexivity.
  - apply stays_stopped_same; reflexivity.
  - intros index size; apply stays_stopped_same; reflexivity.
Qed.

(** ** Collecting the results of a batch *)

Lemma job_step_none limit k pool w :
  jobs pool = [] -> job_step limit k pool w = (pool, w).
Proof.
  intros H; unfold job_step. rewrite H. now destruct k.
Qed.

Lemma length_set_nth {A} k (a : A) l : List.length (set_nth k a l) = List.length l.
Proof.
  revert k; induction l as [|x l IH]; intros [|k]; cbn [set_nth List.length];
    try reflexivity. now rewrite IH.
Qed.

Lemma job_step_length limit k pool w :
  List.length (jobs (fst (job_step limit k pool w))) = List.length (jobs pool).
Proof.
  unfold job_step. destruct (nth_error (jobs pool) k) as [j|]; [|reflexivity].
  destruct (taken j).
  - destruct (remaining j) as [a | C m next]; [reflexivity|].
    rewrite run_bind; cbn [ret fst jobs]. apply length_set_nth.
  - destruct (free_worker limit k (jobs pool)); cbn [ret fst jobs];
      [apply length_set_nth | reflexivity].
Qed.

Lemma launch_step_length env size pool w :
  (List.length (jobs pool)
   <= List.length (jobs (fst (launch_step env size pool w))))%nat.
Proof.
  unfold launch_step. destruct (launch pool) as [[|url rest] i | rest i].
  - cbn; lia.
  - rewrite run_bind; cbn [gets fst snd].
    destruct (should_stop w); [cbn; lia|].
    rewrite !run_bind; cbn [gets ret fst snd jobs]. rewrite length_app; lia.
  - rewrite run_bind; cbn; lia.
Qed.

(** No job leaves the pool. *)
Lemma run_pool_length env limit size order :
  forall pool w,
    (List.length (jobs pool)
     <= List.length (jobs (fst (run_pool env limit size order pool w))))%nat.
Proof.
  induction order as [|[|k] rest IH]; intros pool w; cbn [run_pool].
  - cbn; lia.
  - rewrite run_bind.
    pose proof (launch_step_length env size pool w).
    pose proof (IH (fst (launch_step env size pool w))
                   (snd (launch_step env size pool w))). lia.
  - rewrite run_bind.
    pose proof (job_step_length limit k pool w).
    pose proof (IH (fst (job_step limit k pool w))
                   (snd (job_step limit k pool w))). lia.
Qed.

Lemma join_length jobs w :
  List.length (fst (join jobs w)) = List.length jobs.
Proof.
  revert w; induction jobs as [|j rest IH]; intros w; cbn [join];
    [reflexivity|].
  rewrite !run_bind; cbn [ret fst List.length]. now rewrite IH.
Qed.

Lemma launch_step_done env size pool w i :
  launch pool = Launching [] i -> launch_step env size pool w = (pool, w).
Proof. intros H; unfold launch_step; now rewrite H. Qed.

Lemma launch_step_stopped env size pool w url rest i :
  launch pool = Launching (url :: rest) i -> should_stop w = true ->
  launch_step env size pool w = (mkPool (Launching [] i) (jobs pool), w).
Proof.
  intros H Hs; unfold launch_step; rewrite H.
  rewrite run_bind; cbn [gets fst snd]. now rewrite Hs.
Qed.

Lemma launch_step_hands_in env size pool w url rest i :
  launch pool = Launching (url :: rest) i -> should_stop w = false ->
  launch_step env size pool w
  = (mkPool (if i <? size - 1 then Pausing rest (i + 1)
             else Launching rest (i + 1))
            (jobs pool
             ++ [mkJob false
                   (process_single_url_thread env url
                      (processed (stats w) + i + 1))]),
     snd (tick env w)).
Proof.
  intros H Hs; unfold launch_step; rewrite H.
  rewrite run_bind; cbn [gets fst snd]. rewrite Hs.
  rewrite !run_bind; cbn [gets ret fst snd]. reflexivity.
Qed.

Lemma launch_step_pause env size pool w rest i :
  launch pool = Pausing rest i ->
  launch_step env size pool w
  = (mkPool (Launching rest i) (jobs pool), snd (sleep env SleepTab w)).
Proof.
  intros H; unfold launch_step; rewrite H. rewrite run_bind. reflexivity.
Qed.

(** As long as no task was handed to the executor nothing has happened; and
    none is handed in only when there is none or a shutdown is requested. *)
Lemma run_pool_idle env limit size order :
  forall urls i w,
    let r := run_pool env limit size order (mkPool (Launching urls i) []) w in
    jobs (fst r) = [] ->
    snd r = w /\
    exists urls',
      launch (fst r) = Launching urls' i /\
      ((urls = [] \/ should_stop w = true) \/ (urls' = urls /\ ~ In O order)).
Proof.
  induction order as [|[|k] rest IH]; intros urls i w; cbv zeta; cbn [run_pool].
  - intros _. split; [reflexivity|]. exists urls. split; [reflexivity|].
    right; split; [reflexivity | intros []].
  - rewrite run_bind. destruct urls as [|url more].
    + rewrite (launch_step_done env size _ w i) by reflexivity. cbn [fst snd].
      intros H; destruct (IH [] i w H) as (E & urls' & L & _).
      split; [exact E|]. exists urls'. split; [exact L | left; left; reflexivity].
    + destruct (should_stop w) eqn:Hs.
      * rewrite (launch_step_stopped env size _ w url more i) by auto.
        cbn [fst snd jobs].
        intros H; destruct (IH [] i w H) as (E & urls' & L & _).
        split; [exact E|]. exists urls'.
        split; [exact L | left; right; reflexivity].
      * rewrite (launch_step_hands_in env size _ w url more i) by auto.
        cbn [fst snd jobs app]. intros H.
        match goal with
        | H : jobs (fst (run_pool _ _ _ _ ?p ?v)) = [] |- _ =>
            pose proof (run_pool_length env limit size rest p v) as L;
              rewrite H in L; cbn in L; lia
        end.
  - rewrite run_bind, job_step_none by reflexivity. cbn [fst snd].
    intros H; destruct (IH urls i w H) as (E & urls' & L & D).
    split; [exact E|]. exists urls'. split; [exact L|].
    destruct D as [D | (D & N)]; [left; exact D|].
    right; split; [exact D|]. intros [F | F]; [discriminate | exact (N F)].
Qed.

(** The with block of a batch that hands in no task leaves the world as it
    was; this happens only to an empty batch or under a shutdown request. *)
Lemma with_executor_idle env limit urls w :
  fst (with_executor env limit urls w) = [] ->
  snd (with_executor env limit urls w) = w /\
  (urls = [] \/ should_stop w = true).
Proof.
  unfold with_executor. rewrite run_bind; cbn [gets fst snd]. rewrite run_bind.
  set (size := Z.of_nat (List.length urls)).
  pose proof (run_pool_idle env limit size (schedule env (clock w)) urls 0 w) as P1.
  cbv zeta in P1. revert P1.
  destruct (run_pool env limit size (schedule env (clock w))
              (mkPool (Launching urls 0) []) w) as [pool1 w1]; cbn [fst snd].
  intros P1. rewrite run_bind.
  pose proof (run_pool_length env limit size
                (repeat O (launch_left (launch pool1))) pool1 w1) as L2.
  revert L2.
  destruct (run_pool env limit size (repeat O (launch_left (launch pool1)))
              pool1 w1) as [pool2 w2] eqn:E2; cbn [fst snd].
  intros L2 H.
  pose proof (join_length (jobs pool2) w2) as J. rewrite H in J.
  destruct (jobs pool2) as [|j2 js2] eqn:J2; [|discriminate].
  cbn [join ret snd].
  destruct (jobs pool1) as [|j1 js1] eqn:J1; [|cbn in L2; lia].
  destruct (P1 eq_refl) as (-> & urls1 & L1 & D).
  destruct pool1 as [l1 jobs1]; cbn [jobs launch] in *. subst jobs1 l1.
  pose proof (run_pool_idle env limit size
                (repeat O (launch_left (Launching urls1 0))) urls1 0 w) as P2.
  cbv zeta in P2. rewrite E2 in P2. cbn [fst snd] in P2.
  destruct (P2 J2) as (-> & urls2 & _ & D2).
  split; [reflexivity|].
  destruct D as [D | (-> & _)]; [exact D|].
  destruct D2 as [D2 | (_ & N)]; [exact D2|].
  destruct urls as [|url more]; [now left|].
  exfalso; apply N. cbn [launch_left List.length].
  rewrite Nat.mul_succ_r, Nat.add_comm. cbn [Nat.add repeat]. now left.
Qed.

(** Under a shutdown request the with block hands in no task. *)
Lemma with_executor_stopped env limit urls w :
  should_stop w = true -> with_executor env limit urls w = ([], w).
Proof.
  intros Hs.
  assert (P : forall order urls' pool v,
             run_pool env limit (Z.of_nat (List.length urls)) order
                      (mkPool (Launching urls' 0) []) w = (pool, v) ->
             v = w /\ jobs pool = [] /\ exists urls2, launch pool = Launching urls2 0).
  { induction order as [|[|k] rest IH]; intros urls' pool v; cbn [run_pool].
    - intros E; injection E as <- <-. cbn [jobs launch].
      split; [reflexivity|]. split; [reflexivity|]. now exists urls'.
    - rewrite run_bind. destruct urls' as [|url more].
      + rewrite (launch_step_done env _ _ w 0) by reflexivity. apply IH.
      + rewrite (launch_step_stopped env _ _ w url more 0) by auto. apply IH.
    - rewrite run_bind, job_step_none by reflexivity. apply IH. }
  unfold with_executor. rewrite run_bind; cbn [gets fst snd]. rewrite run_bind.
  destruct (run_pool env limit _ (schedule env (clock w)) _ w)
    as [pool1 w1] eqn:E1.
  destruct (P _ _ _ _ E1) as (-> & J1 & urls1 & L1). cbn [fst snd].
  destruct pool1 as [l1 jobs1]; cbn [jobs launch] in *. subst jobs1 l1.
  rewrite run_bind.
  destruct (run_pool env limit _ (repeat O _) _ w) as [pool2 w2] eqn:E2.
  destruct (P _ _ _ _ E2) as (-> & J2 & _). cbn [fst snd]. now rewrite J2.
Qed.

Lemma logged_grows w e v v' :
  logged_since w e v -> grows v v' -> logged_since w e v'.
Proof.
  intros (n1 & E1 & I1) (n2 & E2). exists (n2 ++ n1). split.
  - now rewrite E2, E1, app_assoc.
  - apply in_or_app; now right.
Qed.

Lemma launch_step_jobs env size pool w :
  exists more, jobs (fst (launch_step env size pool w)) = jobs pool ++ more.
Proof.
  unfold launch_step. destruct (launch pool) as [[|url rest] i | rest i].
  - exists []; cbn. now rewrite app_nil_r.
  - rewrite run_bind; cbn [gets fst snd].
    destruct (should_stop w); [exists []; cbn; now rewrite app_nil_r|].
    rewrite !run_bind; cbn [gets ret fst snd jobs]. eexists; reflexivity.
  - rewrite run_bind; cbn [ret fst jobs]. exists []. now rewrite app_nil_r.
Qed.

Lemma launch_step_grows env size pool w :
  sound grows (jobs pool) ->
  grows w (snd (launch_step env size pool w)) /\
  sound grows (jobs (fst (launch_step env size pool w))).
Proof.
  apply (launch_step_sound env grows grows_refl grows_trans).
  - apply grows_tick.
  - intros e _; apply grows_emit.
  - intros g _; apply grows_write.
  - apply grows_emit.
Qed.

Lemma job_step_grows limit k pool w :
  sound grows (jobs pool) ->
  grows w (snd (job_step limit k pool w)) /\
  sound grows (jobs (fst (job_step limit k pool w))).
Proof. apply (job_step_sound grows grows_refl). Qed.

(** A turn of a job leaves the first job as it is, unless it is the first
    step of that job. *)
Lemma job_step_first limit k pool w j js e (next : unit -> Thread Result) :
  jobs pool = j :: js -> remaining j = Step (emit e) next ->
  let r := job_step limit k pool w in
  exists j' js',
    jobs (fst r) = j' :: js' /\
    (remaining j' = remaining j \/ trace (snd r) = e :: trace w).
Proof.
  intros H Hr; cbv zeta; unfold job_step. rewrite H.
  destruct k as [|k]; cbn [nth_error].
  - destruct (taken j).
    + rewrite Hr, run_bind. cbn [emit modify ret fst snd jobs set_nth].
      eexists _, _. split; [reflexivity|]. right; reflexivity.
    + destruct (free_worker limit 0 (j :: js)); cbn [ret fst snd jobs set_nth].
      * eexists _, _. split; [reflexivity|]. left; reflexivity.
      * exists j, js; split; [exact H | left; reflexivity].
  - destruct (nth_error js k) as [j2|];
      [|exists j, js; split; [exact H | left; reflexivity]].
    destruct (taken j2).
    + destruct (remaining j2) as [a | C m next2];
        [exists j, js; split; [exact H | left; reflexivity]|].
      rewrite run_bind. cbn [ret fst snd jobs set_nth].
      eexists _, _. split; [reflexivity|]. left; reflexivity.
    + destruct (free_worker limit (S k) (j :: js)); cbn [ret fst snd jobs set_nth].
      * eexists _, _. split; [reflexivity|]. left; reflexivity.
      * exists j, js; split; [exact H | left; reflexivity].
Qed.

Lemma item_thread_first env url index :
  exists next,
    process_single_url_thread env url index = Step (emit (EvTask url index)) next.
Proof. eexists; reflexivity. Qed.

Lemma first_job_launch_step env size task e w pool v :
  first_job task e w pool v ->
  first_job task e w (fst (launch_step env size pool v))
                     (snd (launch_step env size pool v)).
Proof.
  intros (j & js & H & S & G & D).
  destruct (launch_step_grows env size pool v S) as (G' & S').
  destruct (launch_step_jobs env size pool v) as (more & E).
  exists j, (js ++ more). rewrite E, H. split; [reflexivity|].
  rewrite E, H in S'. split; [exact S'|].
  split; [eapply grows_trans; eassumption|].
  destruct D as [D | D]; [left; exact D | right; eapply logged_grows; eassumption].
Qed.

Lemma first_job_job_step limit k e w pool v (next : unit -> Thread Result) :
  first_job (Step (emit e) next) e w pool v ->
  first_job (Step (emit e) next) e w (fst (job_step limit k pool v))
                                     (snd (job_step limit k pool v)).
Proof.
  intros (j & js & H & S & G & D).
  destruct (job_step_grows limit k pool v S) as (G' & S').
  destruct D as [D | D].
  - destruct (job_step_first limit k pool v j js e next H D)
      as (j' & js' & H' & D').
    exists j', js'. split; [exact H'|]. split; [exact S'|].
    split; [eapply grows_trans; eassumption|].
    destruct D' as [D' | D']; [left; congruence|].
    right. destruct G as (new & T). exists (e :: new).
    rewrite D', T. split; [reflexivity | now left].
  - pose proof (job_step_length limit k pool v) as L. rewrite H in L.
    destruct (jobs (fst (job_step limit k pool v))) as [|j' js'] eqn:H';
      [discriminate|].
    exists j', js'. split; [exact H'|]. split; [now rewrite H'|].
    split; [eapply grows_trans; eassumption|].
    right; eapply logged_grows; eassumption.
Qed.

Lemma first_job_run_pool env limit size order e w (next : unit -> Thread Result) :
  forall pool v,
    first_job (Step (emit e) next) e w pool v ->
    first_job (Step (emit e) next) e w
              (fst (run_pool env limit size order pool v))
              (snd (run_pool env limit size order pool v)).
Proof.
  induction order as [|[|k] rest IH]; intros pool v H; cbn [run_pool].
  - exact H.
  - rewrite run_bind. apply IH, first_job_launch_step, H.
  - rewrite run_bind. apply IH, first_job_job_step, H.
Qed.

(** The first turn of the main thread hands in the first task, unless a
    shutdown is requested. *)
Lemma batch_state_begins env size url rest w :
  should_stop w = false ->
  let pool := mkPool (Launching (url :: rest) 0) [] in
  let index := processed (stats w) + 0 + 1 in
  first_job (process_single_url_thread env url index) (EvTask url index) w
            (fst (launch_step env size pool w))
            (snd (launch_step env size pool w)).
Proof.
  intros Hs; cbv zeta.
  rewrite (launch_step_hands_in env size _ w url rest 0) by auto.
  cbn [fst snd jobs app].
  eexists _, _. split; [reflexivity|]. split.
  - constructor; [apply grows_item | constructor].
  - split; [apply grows_tick | left; reflexivity].
Qed.

Lemma batch_state_launch env limit size order url rest w :
  should_stop w = false ->
  let pool := mkPool (Launching (url :: rest) 0) [] in
  let index := processed (stats w) + 0 + 1 in
  first_job (process_single_url_thread env url index) (EvTask url index) w
            (fst (run_pool env limit size (O :: order) pool w))
            (snd (run_pool env limit size (O :: order) pool w)).
Proof.
  intros Hs; cbv zeta; cbn [run_pool]. rewrite run_bind.
  destruct (item_thread_first env url (processed (stats w) + 0 + 1)) as (next & T).
  rewrite T. apply first_job_run_pool. rewrite <- T.
  apply batch_state_begins, Hs.
Qed.

Lemma batch_state_run_pool env limit size order url rest w :
  should_stop w = false ->
  forall pool v,
    batch_state env url rest w pool v ->
    batch_state env url rest w (fst (run_pool env limit size order pool v))
                               (snd (run_pool env limit size order pool v)).
Proof.
  intros Hs.
  destruct (item_thread_first env url (processed (stats w) + 0 + 1)) as (next & T).
  unfold batch_state; cbv zeta. rewrite T.
  induction order as [|[|k] more IH]; intros pool v H; cbn [run_pool].
  - exact H.
  - destruct H as [(J & L & ->) | H].
    + right. rewrite <- T.
      destruct pool as [l jobs0]; cbn [jobs launch] in *; subst.
      apply (batch_state_launch env limit size more url rest w Hs).
    + rewrite run_bind.
      right. apply first_job_run_pool, first_job_launch_step, H.
  - rewrite run_bind. destruct H as [(J & L & ->) | H].
    + rewrite job_step_none by exact J. cbn [fst snd]. apply IH. now left.
    + right. apply first_job_run_pool, first_job_job_step, H.
Qed.

(** Entered with no shutdown requested, the with block of a batch hands in
    its first task at least, and that task logs its start before the block
    is left, whatever the schedule. *)
Lemma with_executor_first env limit url rest w :
  should_stop w = false ->
  let r := with_executor env limit (url :: rest) w in
  fst r <> [] /\
  logged_since w (EvTask url (processed (stats w) + 1)) (snd r).
Proof.
  intros Hs; cbv zeta; unfold with_executor.
  rewrite run_bind; cbn [gets fst snd]. rewrite run_bind.
  set (size := Z.of_nat (List.length (url :: rest))).
  pose proof (batch_state_run_pool env limit size (schedule env (clock w))
                url rest w Hs (mkPool (Launching (url :: rest) 0) []) w
                (or_introl (conj eq_refl (conj eq_refl eq_refl)))) as B1.
  revert B1.
  destruct (run_pool env limit size (schedule env (clock w))
              (mkPool (Launching (url :: rest) 0) []) w) as [pool1 w1];
    cbn [fst snd]; intros B1.
  rewrite run_bind.
  assert (B2 : first_job
                 (process_single_url_thread env url (processed (stats w) + 0 + 1))
                 (EvTask url (processed (stats w) + 0 + 1)) w
                 (fst (run_pool env limit size
                         (repeat O (launch_left (launch pool1))) pool1 w1))
                 (snd (run_pool env limit size
                         (repeat O (launch_left (launch pool1))) pool1 w1))).
  { destruct (item_thread_first env url (processed (stats w) + 0 + 1))
      as (next & T).
    destruct B1 as [(J & L & ->) | B1].
    - destruct pool1 as [l jobs0]; cbn [jobs launch] in *; subst.
      replace (repeat O (launch_left (Launching (url :: rest) 0)))
        with (O :: repeat O (S (2 * List.length rest))).
      + apply (batch_state_launch env limit size _ url rest w Hs).
      + cbn [launch_left List.length].
        rewrite Nat.mul_succ_r, Nat.add_comm. reflexivity.
    - rewrite T in *. apply first_job_run_pool, B1. }
  revert B2.
  destruct (run_pool env limit size (repeat O (launch_left (launch pool1)))
              pool1 w1) as [pool2 w2]; cbn [fst snd].
  intros (j & js & H & S & G & D). rewrite H. cbn [join].
  rewrite !run_bind; cbn [ret fst snd]. split; [discriminate|].
  replace (processed (stats w) + 1) with (processed (stats w) + 0 + 1) by lia.
  rewrite H in S. apply Forall_cons_iff in S. destruct S as (Sj & Sjs).
  apply logged_grows with (v := snd (alone (remaining j) w2));
    [|apply (join_respects grows grows_refl grows_trans), Sjs].
  destruct D as [D | D].
  - rewrite D.
    destruct (item_thread_first env url (processed (stats w) + 0 + 1))
      as (next & T).
    rewrite T. cbn [alone emit modify fst snd].
    rewrite D, T in Sj. destruct Sj as (_ & Sn).
    destruct (each_step_alone grows grows_refl grows_trans (next tt) (Sn tt)
                (log (EvTask url (processed (stats w) + 0 + 1)) w2)) as (n2 & E2).
    destruct G as (n1 & E1).
    exists (n2 ++ EvTask url (processed (stats w) + 0 + 1) :: n1). split.
    + rewrite E2. cbn [trace log]. rewrite E1, <- app_assoc. reflexivity.
    + apply in_or_app; right; now left.
  - eapply logged_grows; [exact D|].
    apply (each_step_alone grows grows_refl grows_trans), Sj.
Qed.

(** What [process_batch] does, the with block apart. *)
Lemma process_batch_run env urls batch_index w :
  process_batch env urls batch_index w
  = let w0 := snd (tick env (log (EvBatch batch_index (List.length urls)) w)) in
    if max_workers (config w) <=? 0 then (inl ValueError, w0) else
    let r := with_executor env (max_workers (config w)) urls w0 in
    (match fst r with
     | [] => inr []
     | _ :: _ => if as_completed_yields env then inr (fst r)
                 else inl AttributeError
     end, snd r).
Proof.
  unfold process_batch. rewrite !run_bind; cbn [emit modify gets fst snd].
  cbv zeta. change (config (snd (tick env _))) with (config w).
  destruct (max_workers (config w) <=? 0); [reflexivity|].
  rewrite run_bind.
  destruct (fst (with_executor env _ urls _)); [reflexivity|].
  destruct (as_completed_yields env); reflexivity.
Qed.

Lemma task_log_grows w v :
  grows w v -> exists later, task_log (trace v) = later ++ task_log (trace w).
Proof. intros (new & E). exists (task_log new). now rewrite E, task_log_app. Qed.

Lemma task_log_logged w url index v :
  logged_since w (EvTask url index) v ->
  exists later,
    task_log (trace v) = later ++ task_log (trace w) /\ In (url, index) later.
Proof.
  intros (new & E & I). exists (task_log new). split.
  - now rewrite E, task_log_app.
  - unfold task_log. apply in_flat_map. exists (EvTask url index).
    split; [exact I | now left].
Qed.

(** In CPython a batch entered with tasks to launch, workers to run them and
    no shutdown requested by the time the launch loop begins ends in
    AttributeError, its first task having logged its start. *)
Lemma process_batch_raises env batch batch_index w :
  as_completed_yields env = false ->
  should_stop w = false -> signal_at env (clock w) = false ->
  0 < max_workers (config w) -> batch <> [] ->
  let r := process_batch env batch batch_index w in
  fst r = inl AttributeError /\
  ledger (snd r) = ledger w /\
  count is_batch (trace (snd r)) = S (count is_batch (trace w)) /\
  exists later,
    task_log (trace (snd r)) = later ++ task_log (trace w) /\
    In (hd EmptyString batch, processed (stats w) + 1) later.
Proof.
  intros Y Hs Hq Hw Hb; cbv zeta.
  split; [|split; [apply ledger_process_batch|]].
  - rewrite process_batch_run; cbv zeta.
    destruct (max_workers (config w) <=? 0) eqn:E; [apply Z.leb_le in E; lia|].
    destruct batch as [|url rest]; [contradiction|]. cbn [fst].
    set (w0 := snd (tick env (log (EvBatch batch_index (List.length (url :: rest))) w))).
    assert (H0 : should_stop w0 = false).
    { unfold w0, tick; cbn. now rewrite Hs, Hq. }
    destruct (with_executor_first env (max_workers (config w)) url rest w0 H0)
      as (N & _).
    destruct (fst (with_executor env _ (url :: rest) w0)); [contradiction|].
    now rewrite Y.
  - rewrite process_batch_run; cbv zeta.
    destruct (max_workers (config w) <=? 0) eqn:E; [apply Z.leb_le in E; lia|].
    destruct batch as [|url rest]; [contradiction|]. cbn [snd hd].
    set (w0 := snd (tick env (log (EvBatch batch_index (List.length (url :: rest))) w))).
    assert (H0 : should_stop w0 = false).
    { unfold w0, tick; cbn. now rewrite Hs, Hq. }
    assert (T0 : trace w0 = EvBatch batch_index (List.length (url :: rest)) :: trace w).
    { unfold w0, tick; cbn. now rewrite Hq. }
    destruct (with_executor_first env (max_workers (config w)) url rest w0 H0)
      as (_ & L).
    split.
    + rewrite count_batch_with_executor, T0. reflexivity.
    + destruct (task_log_logged _ _ _ _ L) as (later & T & I).
      exists later. rewrite T, T0. split; [reflexivity | exact I].
Qed.

(** In CPython a batch returns only when it handed no task to the executor:
    it has done nothing but announce itself, and it was empty or met a
    shutdown request. *)
Lemma process_batch_returns env batch batch_index w results :
  as_completed_yields env = false ->
  fst (process_batch env batch batch_index w) = inr results ->
  results = [] /\
  snd (process_batch env batch batch_index w)
  = snd (tick env (log (EvBatch batch_index (List.length batch)) w)) /\
  (batch = [] \/ should_stop (snd (process_batch env batch batch_index w)) = true).
Proof.
  intros Y; rewrite process_batch_run; cbv zeta.
  destruct (max_workers (config w) <=? 0); [discriminate|]. cbn [fst snd].
  set (w0 := snd (tick env (log (EvBatch batch_index (List.length batch)) w))).
  pose proof (with_executor_idle env (max_workers (config w)) batch w0) as I.
  destruct (fst (with_executor env (max_workers (config w)) batch w0)) as [|r rs].
  - intros H; injection H as <-. destruct (I eq_refl) as (E & D).
    rewrite E. auto.
  - rewrite Y; discriminate.
Qed.

(** Entered under a shutdown request, a batch hands no task to the
    executor. *)
Lemma process_batch_stopped env batch batch_index w :
  should_stop w = true -> 0 < max_workers (config w) ->
  process_batch env batch batch_index w
  = (inr [], snd (tick env (log (EvBatch batch_index (List.length batch)) w))).
Proof.
  intros Hs Hw; rewrite process_batch_run; cbv zeta.
  destruct (max_workers (config w) <=? 0) eqn:E; [apply Z.leb_le in E; lia|].
  rewrite with_executor_stopped; [reflexivity|].
  unfold tick; cbn. now rewrite Hs.
Qed.

Lemma py_range0_first n size :
  0 < n -> 0 < size -> exists rest, py_range0 n size = 0 :: rest.
Proof.
  intros Hn Hs; unfold py_range0.
  destruct (size <=? 0) eqn:E; [apply Z.leb_le in E; lia|].
  assert (Q : 0 < (n + size - 1) / size) by (apply Z.div_str_pos; lia).
  destruct (Z.to_nat ((n + size - 1) / size)) as [|m] eqn:M; [lia|].
  cbn [seq map]. eexists; reflexivity.
Qed.

Lemma py_range0_none n size : n = 0 \/ size < 0 -> py_range0 n size = [].
Proof.
  intros H; unfold py_range0.
  destruct (size <=? 0) eqn:E; [reflexivity|]. apply Z.leb_gt in E.
  destruct H as [-> | H]; [|lia].
  rewrite Z.div_small by lia. reflexivity.
Qed.

Lemma slice_first {A} (l : list A) size :
  l <> [] -> 0 < size -> slice l 0 (0 + size) <> [] /\
  hd_error (slice l 0 (0 + size)) = hd_error l.
Proof.
  intros Hl Hs; unfold slice. destruct l as [|x l]; [contradiction|].
  destruct (Z.to_nat (0 + size - 0)) as [|k] eqn:E; [lia|].
  cbn. split; [discriminate | reflexivity].
Qed.

(** In CPython, collecting the results of the first batch raises: when
    [process_all_urls] is entered with identifiers to process, a positive
    batch size, a positive number of workers and no shutdown requested, and
    none is requested while the first batch is announced, it ends in
    AttributeError after one batch, whatever the outside answers and
    whatever the schedule of the threads.  The first identifier was begun as
    item 1 past the processed count, yet the processed count and the
    progress file are as they were. *)
Theorem collecting_results_raises env urls w :
  as_completed_yields env = false ->
  should_stop w = false -> signal_at env (clock w) = false ->
  urls <> [] -> 0 < batch_size (config w) -> 0 < max_workers (config w) ->
  let r := process_all_urls env urls w in
  fst r = inl AttributeError /\
  processed (stats (snd r)) = processed (stats w) /\
  progress_store (snd r) = progress_store w /\
  count is_batch (trace (snd r)) = S (count is_batch (trace w)) /\
  exists later,
    task_log (trace (snd r)) = later ++ task_log (trace w) /\
    In (hd EmptyString urls, processed (stats w) + 1) later.
Proof.
  intros Y Hs Hq Hu Hb Hw; cbv zeta; unfold process_all_urls.
  rewrite run_bind; cbn [modify fst snd].
  set (n := Z.of_nat (List.length urls)).
  set (w0 := set_stats (begin_stats n (clock w) (stats w)) w).
  rewrite run_bind; cbn [gets fst snd].
  change (config w0) with (config w).
  destruct (batch_size (config w) =? 0) eqn:E; [apply Z.eqb_eq in E; lia|].
  rewrite run_bind.
  assert (Hn : 0 < n) by (unfold n; destruct urls; [contradiction | cbn; lia]).
  destruct (py_range0_first n _ Hn Hb) as (rest & ->).
  cbn [batch_loop]. rewrite run_bind; cbn [gets fst snd].
  change (should_stop w0) with (should_stop w). rewrite Hs.
  rewrite run_bind; cbn [gets fst snd]. rewrite run_bind.
  change (config w0) with (config w).
  destruct (slice_first urls (batch_size (config w)) Hu Hb) as (B & F).
  destruct (process_batch_raises env _ (0 / batch_size (config w) + 1) w0
              Y Hs Hq Hw B) as (R & L & C & later & T & I).
  revert R L C T.
  destruct (process_batch env (slice urls 0 (0 + batch_size (config w)))
              (0 / batch_size (config w) + 1) w0) as [r w1]; cbn [fst snd].
  intros -> L C T. cbn [ret fst snd].
  split; [reflexivity|]. unfold ledger in L.
  split; [change (processed (stats w)) with (processed (stats w0)); congruence|].
  split; [change (progress_store w) with (progress_store w0); congruence|].
  split; [exact C|]. exists later. split; [exact T|].
  replace (hd EmptyString urls)
    with (hd EmptyString (slice urls 0 (0 + batch_size (config w))));
    [exact I|].
  destruct urls as [|u us]; [contradiction|].
  destruct (slice (u :: us) 0 (0 + batch_size (config w))) as [|x xs];
    [contradiction|].
  cbn in F. injection F as ->. reflexivity.
Qed.

Lemma collecting_results_raises_witness :
  let r := process_all_urls plain_env ["http://a"; "http://b"]%string
             (new_processor default_config) in
  fst r = inl AttributeError /\ processed (stats (snd r)) = 0 /\
  progress_store (snd r) = None.
Proof.
  destruct (collecting_results_raises plain_env ["http://a"; "http://b"]%string
              (new_processor default_config) eq_refl eq_refl eq_refl
              ltac:(discriminate) eq_refl eq_refl) as (A & B & C & _).
  repeat split; assumption.
Defined.

(** ** Normal returns in CPython *)

Lemma batch_loop_stopped env urls starts w :
  should_stop w = true -> batch_loop env urls starts w = (inr tt, w).
Proof.
  intros Hs; destruct starts as [|i rest]; cbn [batch_loop]; [reflexivity|].
  rewrite run_bind; cbn [gets fst snd]. now rewrite Hs.
Qed.

Lemma add_processed_0 s : add_processed 0 s = s.
Proof. destruct s; unfold add_processed; cbn. now rewrite Z.add_0_r. Qed.

Lemma maybe_save_keeps env (b : bool) w :
  let w' := snd ((if b then _save_progress env else ret tt) w) in
  stats w' = stats w /\ config w' = config w /\
  task_log (trace w') = task_log (trace w) /\
  count is_batch (trace w') = count is_batch (trace w) /\
  (should_stop w = true -> should_stop w' = true).
Proof.
  cbv zeta; destruct b; [|cbn [ret snd]; auto 6].
  destruct (save_progress_keeps env w) as (A & B & _ & C & D & E & _). auto 6.
Qed.

Lemma maybe_sleep_keeps env (b : bool) s w :
  let w' := snd ((if b then sleep env s else ret tt) w) in
  stats w' = stats w /\ config w' = config w /\
  task_log (trace w') = task_log (trace w) /\
  count is_batch (trace w') = count is_batch (trace w) /\
  (should_stop w = true -> should_stop w' = true).
Proof.
  cbv zeta; destruct b; [|cbn [ret snd]; auto 6].
  unfold sleep; rewrite run_bind; cbn [emit modify fst snd].
  destruct (tick_keeps env (log (EvSleep s) w)) as (A & B & _ & C & D & E & _).
  split; [exact A|]. split; [exact B|]. split.
  - rewrite C. destruct s; reflexivity.
  - split; [rewrite D; destruct s; reflexivity | exact E].
Qed.

Lemma slice_length {A} (l : list A) i j :
  Z.of_nat (List.length (slice l i j)) <= Z.max 0 (j - i).
Proof.
  unfold slice. pose proof (firstn_le_length (Z.to_nat (j - i)) (skipn (Z.to_nat i) l)).
  lia.
Qed.

(** In CPython the batch loop comes to its end only if no batch handed a task
    to the executor: at most one batch that is not empty was entered, under
    a shutdown request made while it was announced, and it was added to the
    processed count although none of its items was begun. *)
Lemma batch_loop_returns env urls :
  as_completed_yields env = false ->
  forall starts w,
    fst (batch_loop env urls starts w) = inr tt ->
    let w' := snd (batch_loop env urls starts w) in
    let size := batch_size (config w) in
    task_log (trace w') = task_log (trace w) /\
    (exists k, stats w' = add_processed k (stats w) /\ 0 <= k <= Z.max 0 size) /\
    (should_stop w' = true \/
     Forall (fun i => slice urls i (i + size) = []) starts).
Proof.
  intros Y; induction starts as [|i rest IH]; intros w; cbv zeta;
    cbn [batch_loop].
  - intros _. cbn [ret snd]. split; [reflexivity|]. split.
    + exists 0. rewrite add_processed_0. split; [reflexivity | lia].
    + right; constructor.
  - rewrite run_bind; cbn [gets fst snd].
    destruct (should_stop w) eqn:Hs.
    { intros _. cbn [ret snd]. split; [reflexivity|]. split.
      - exists 0. rewrite add_processed_0. split; [reflexivity | lia].
      - left; exact Hs. }
    rewrite run_bind; cbn [gets fst snd]. rewrite run_bind.
    set (size := batch_size (config w)).
    set (batch := slice urls i (i + size)).
    set (index := i / size + 1).
    pose proof (process_batch_returns env batch index w) as PB.
    pose proof (ledger_process_batch env batch index w) as L1.
    revert PB L1.
    destruct (process_batch env batch index w) as [[e|results] w1];
      cbn [fst snd]; [discriminate|].
    intros PB L1. destruct (PB results Y eq_refl) as (_ & E1 & D1).
    assert (T1 : task_log (trace w1) = task_log (trace w)).
    { rewrite E1. unfold tick; cbn [snd]. now rewrite task_log_tick. }
    assert (S1 : stats w1 = stats w) by (rewrite E1; reflexivity).
    assert (C1 : config w1 = config w) by (rewrite E1; reflexivity).
    clear E1 PB L1.
    rewrite run_bind; cbn [update_stats modify fst snd].
    set (w2 := set_stats (add_processed (Z.of_nat (List.length batch)) (stats w1)) w1).
    rewrite run_bind; cbn [gets fst snd]. rewrite run_bind; cbn [gets fst snd].
    destruct (progress_save_interval (config w2) =? 0); [discriminate|].
    rewrite run_bind.
    destruct (maybe_save_keeps env
                (processed (stats w2) mod progress_save_interval (config w2) =? 0)
                w2) as (S3 & C3 & T3 & _ & H3).
    revert S3 C3 T3 H3.
    generalize (snd ((if processed (stats w2) mod progress_save_interval (config w2) =? 0
                      then _save_progress env else ret tt) w2)).
    intros w3 S3 C3 T3 H3. rewrite run_bind.
    destruct (maybe_sleep_keeps env (i + size <? Z.of_nat (List.length urls))
                SleepBatch w3) as (S4 & C4 & T4 & _ & H4).
    revert S4 C4 T4 H4.
    generalize (snd ((if i + size <? Z.of_nat (List.length urls)
                      then sleep env SleepBatch else ret tt) w3)).
    intros w4 S4 C4 T4 H4.
    assert (C : config w4 = config w) by (rewrite C4, C3; exact C1).
    assert (S : stats w4 = add_processed (Z.of_nat (List.length batch)) (stats w)).
    { rewrite S4, S3. unfold w2; cbn [stats set_stats]. now rewrite S1. }
    assert (T : task_log (trace w4) = task_log (trace w)).
    { rewrite T4, T3. exact T1. }
    assert (B : Z.of_nat (List.length batch) <= Z.max 0 size).
    { unfold batch. pose proof (slice_length urls i (i + size)). lia. }
    destruct D1 as [D1 | D1].
    + (* an empty batch *)
      intros H. specialize (IH w4 H). cbv zeta in IH. rewrite C in IH.
      destruct IH as (T5 & (k & S5 & K5) & D5).
      split; [now rewrite T5|]. split.
      * exists k. rewrite S5, S, D1. cbn [List.length Z.of_nat].
        rewrite add_processed_0. split; [reflexivity | exact K5].
      * destruct D5 as [D5 | D5]; [left; exact D5|].
        right; constructor; [exact D1 | exact D5].
    + (* a batch entered under a shutdown request *)
      assert (H4' : should_stop w4 = true) by (apply H4, H3; exact D1).
      rewrite (batch_loop_stopped env urls rest w4 H4'). cbn [fst snd].
      intros _. split; [exact T|]. split.
      * exists (Z.of_nat (List.length batch)). split; [exact S | lia].
      * left; exact H4'.
Qed.

(** In CPython, [process_all_urls] returns normally only when it began no
    item at all: the list was empty, the batch size negative, or a shutdown
    was requested before the launch loop of the first batch read the flag.
    No outcome was counted; the processed count has grown by the first batch
    if that batch was entered. *)
Lemma process_all_urls_normal_return env urls w :
  as_completed_yields env = false ->
  fst (process_all_urls env urls w) = inr tt ->
  let w' := snd (process_all_urls env urls w) in
  task_log (trace w') = task_log (trace w) /\
  (exists k,
     stats w' = add_processed k (begin_stats (Z.of_nat (List.length urls))
                                             (clock w) (stats w)) /\
     0 <= k <= Z.max 0 (batch_size (config w))) /\
  (urls = [] \/ batch_size (config w) < 0 \/ should_stop w' = true).
Proof.
  intros Y; cbv zeta; unfold process_all_urls.
  rewrite !run_bind; cbn [modify gets fst snd].
  set (n := Z.of_nat (List.length urls)).
  set (w0 := set_stats (begin_stats n (clock w) (stats w)) w).
  change (config w0) with (config w).
  destruct (batch_size (config w) =? 0) eqn:E; [discriminate|].
  apply Z.eqb_neq in E. rewrite !run_bind.
  pose proof (batch_loop_returns env urls Y
                (py_range0 n (batch_size (config w))) w0) as B.
  cbv zeta in B. change (config w0) with (config w) in B. revert B.
  destruct (batch_loop env urls (py_range0 n (batch_size (config w))) w0)
    as [[e|[]] w1]; cbn [fst snd]; [discriminate|].
  intros B _. destruct (B eq_refl) as (T1 & (k & S1 & K1) & D1).
  rewrite !run_bind; cbn [ret fst snd].
  destruct (save_progress_keeps env w1) as (S2 & _ & _ & T2 & _ & H2 & _).
  split; [now rewrite T2, T1|]. split.
  - exists k. split; [now rewrite S2, S1 | exact K1].
  - destruct D1 as [D1 | D1]; [right; right; now apply H2|].
    destruct urls as [|u us]; [now left|].
    destruct (Z_lt_dec (batch_size (config w)) 0) as [N | N]; [now right; left|].
    exfalso.
    assert (Hb : 0 < batch_size (config w)) by lia.
    assert (Hn : 0 < n) by (unfold n; cbn; lia).
    destruct (py_range0_first n _ Hn Hb) as (rest & R). rewrite R in D1.
    apply Forall_cons_iff in D1. destruct D1 as (D1 & _).
    destruct (slice_first (u :: us) (batch_size (config w))
                ltac:(discriminate) Hb) as (F & _).
    exact (F D1).
Qed.
(** A batch size that is not positive processes nothing: zero ends in
    ValueError before any batch and without touching the progress file, a
    negative one returns normally having entered no batch and run no item. *)
Theorem nonpositive_batch_size_runs_nothing env urls w :
  batch_size (config w) <= 0 ->
  let r := process_all_urls env urls w in
  fst r = (if batch_size (config w) =? 0 then inl ValueError else inr tt) /\
  task_log (trace (snd r)) = task_log (trace w) /\
  count is_batch (trace (snd r)) = count is_batch (trace w) /\
  processed (stats (snd r)) = processed (stats w) /\
  (batch_size (config w) = 0 -> progress_store (snd r) = progress_store w).
Proof.
  intros H; cbv zeta; unfold process_all_urls.
  rewrite !run_bind; cbn [modify gets fst snd].
  set (n := Z.of_nat (List.length urls)).
  set (w0 := set_stats (begin_stats n (clock w) (stats w)) w).
  change (config w0) with (config w).
  destruct (batch_size (config w) =? 0) eqn:E.
  - cbn [ret fst snd]. repeat split; reflexivity.
  - apply Z.eqb_neq in E. rewrite !run_bind.
    rewrite py_range0_none by (right; lia). cbn [batch_loop ret fst snd].
    rewrite !run_bind; cbn [ret fst snd].
    destruct (save_progress_keeps env w0) as (S1 & _ & _ & T1 & B1 & _).
    rewrite S1, T1, B1. repeat split; try reflexivity. intros; lia.
Qed.

Lemma nonpositive_batch_size_runs_nothing_witness :
  fst (process_all_urls plain_env ["http://a"]%string
         (new_processor (mkConfig "in.csv" "http://localhost:5001"
                           "batch_progress.json" (-2) 3 3 10)))
  = inr tt.
Proof.
  exact (proj1 (nonpositive_batch_size_runs_nothing plain_env ["http://a"]%string
                  (new_processor (mkConfig "in.csv" "http://localhost:5001"
                                    "batch_progress.json" (-2) 3 3 10))
                  ltac:(cbn; lia))).
Defined.

(** ** Shutdown *)

Lemma failed_after_not_stopped n : failed_after n <> stopped_by_user.
Proof. unfold failed_after, stopped_by_user; cbn; discriminate. Qed.

Lemma retry_loop_stopped env url n attempt w :
  should_stop w = true ->
  retry_loop env url (S n) attempt w = (Some (ResError url stopped_by_user), w).
Proof.
  intros Hs; cbn [retry_loop]. rewrite run_bind; cbn [gets fst snd].
  now rewrite Hs.
Qed.

Lemma stays_stopped_item env url index :
  each_step stays_stopped (process_single_url_thread env url index).
Proof.
  apply (each_step_process_single_url env stays_stopped
           stays_stopped_refl stays_stopped_trans).
  - apply stays_stopped_tick.
  - intros e _; apply stays_stopped_same; reflexivity.
  - intros g _; apply stays_stopped_same; reflexivity.
Qed.

(** An item task entered under a shutdown request begins no attempt: the
    item is skipped if it is stored already, aborted otherwise, and failed
    when no attempt is allowed at all. *)
Lemma process_single_url_stopped env url index w :
  should_stop w = true ->
  let r := process_single_url env url index w in
  count is_attempt (trace (snd r)) = count is_attempt (trace w) /\
  (fst r = ResSkipped url \/
   fst r = ResError url stopped_by_user \/
   max_retries (config w) <= 0 /\
   fst r = ResError url (failed_after (max_retries (config w)))).
Proof.
  intros Hs; cbv zeta; unfold process_single_url.
  rewrite !run_bind; cbn [emit modify fst snd].
  unfold check_url_exists, io, tick.
  rewrite !run_bind; cbn [gets emit modify ret fst snd].
  set (w1 := set_clock _ _).
  assert (H1 : should_stop w1 = true) by (unfold w1; cbn; now rewrite Hs).
  assert (C1 : count is_attempt (trace w1) = count is_attempt (trace w)).
  { unfold w1; cbn [trace set_clock deliver log clock].
    destruct (signal_at env _); reflexivity. }
  assert (K1 : config w1 = config w) by reflexivity.
  clearbody w1.
  destruct (is_duplicate _).
  - rewrite !run_bind; cbn [update_stats modify ret fst snd].
    split; [exact C1 | left; reflexivity].
  - rewrite !run_bind; cbn [gets fst snd]. rewrite K1.
    destruct (Z.to_nat (max_retries (config w))) as [|n] eqn:E.
    + cbn [retry_loop ret fst snd]. rewrite !run_bind.
      cbn [update_stats modify ret fst snd].
      split; [exact C1|]. right; right. split; [lia | reflexivity].
    + rewrite retry_loop_stopped by exact H1. cbn [fst snd ret].
      split; [exact C1 | right; left; reflexivity].
Qed.

(** C4, as amended.  A shutdown request is never taken back, by no step of
    an item task and by no batch, whatever the schedule of the threads.
    Under a request the batch loop enters no batch, the launch loop hands no
    task to the executor, so that a batch entered under a request runs no
    item and changes no count, and the retry loop begins no attempt but
    returns the aborted outcome.  An item task that starts under a request
    begins no attempt either: it ends skipped when the item is stored
    already, aborted otherwise, and failed only when no attempt is allowed
    at all.  An aborted item is neither counted as failed nor recorded in
    the failure list. *)
Theorem C4_no_new_work_after_shutdown env :
  (forall url index,
     each_step stays_stopped (process_single_url_thread env url index)) /\
  (forall urls batch_index,
     respects stays_stopped (process_batch env urls batch_index)) /\
  (forall urls starts w,
     should_stop w = true -> batch_loop env urls starts w = (inr tt, w)) /\
  (forall size pool url rest i w,
     launch pool = Launching (url :: rest) i -> should_stop w = true ->
     launch_step env size pool w = (mkPool (Launching [] i) (jobs pool), w)) /\
  (forall urls batch_index w,
     should_stop w = true -> 0 < max_workers (config w) ->
     let r := process_batch env urls batch_index w in
     fst r = inr [] /\
     task_log (trace (snd r)) = task_log (trace w) /\
     stats (snd r) = stats w) /\
  (forall url n attempt w,
     should_stop w = true ->
     retry_loop env url (S n) attempt w
     = (Some (ResError url stopped_by_user), w)) /\
  (forall url index w,
     should_stop w = true ->
     let r := process_single_url env url index w in
     count is_attempt (trace (snd r)) = count is_attempt (trace w) /\
     (fst r = ResSkipped url \/
      fst r = ResError url stopped_by_user \/
      max_retries (config w) <= 0 /\
      fst r = ResError url (failed_after (max_retries (config w))))) /\
  (forall url index w,
     let r := process_single_url env url index w in
     fst r = ResError url stopped_by_user ->
     stats (snd r) = stats w /\
     failed (stats (snd r)) = failed (stats w) /\
     errors (stats (snd r)) = errors (stats w)).
Proof.
  split; [apply stays_stopped_item|].
  split; [apply stays_stopped_process_batch|].
  split; [intros; now apply batch_loop_stopped|].
  split; [intros; now apply launch_step_stopped with (url := url) (rest := rest)|].
  split.
  { intros urls batch_index w Hs Hw; cbv zeta.
    rewrite process_batch_stopped by assumption. cbn [fst snd].
    split; [reflexivity|]. split; [|reflexivity].
    unfold tick; cbn [snd]. now rewrite task_log_tick. }
  split; [intros; now apply retry_loop_stopped|].
  split; [intros; now apply process_single_url_stopped|].
  intros url index w; cbv zeta.
  pose proof (process_single_url_outcome env url index w) as P; cbv zeta in P.
  destruct (fst (process_single_url env url index w)) as [u|u|u e];
    try discriminate.
  intros H; injection H as -> ->.
  destruct P as (_ & [(_ & S & _) | (F & _)]).
  - rewrite S. auto.
  - symmetry in F; destruct (failed_after_not_stopped _ F).
Qed.

Lemma C4_no_new_work_after_shutdown_witness :
  let env := with_signal 1 plain_env in
  let w := stopped_processor default_config in
  batch_loop env ["http://a"; "http://b"] [0] w = (inr tt, w) /\
  fst (process_batch env ["http://a"; "http://b"] 1 w) = inr [] /\
  retry_loop env "http://a" 3 1 w = (Some (ResError "http://a" stopped_by_user), w) /\
  fst (process_single_url env "http://a" 1 w) = ResError "http://a" stopped_by_user /\
  stats (snd (process_single_url env "http://a" 1 w)) = empty_stats.
Proof.
  destruct (C4_no_new_work_after_shutdown (with_signal 1 plain_env))
    as (_ & _ & B & _ & L & R & _ & P).
  split; [exact (B _ _ (stopped_processor default_config) eq_refl)|].
  split; [exact (proj1 (L ["http://a"; "http://b"] 1
                          (stopped_processor default_config) eq_refl eq_refl))|].
  split; [exact (R _ _ _ (stopped_processor default_config) eq_refl)|].
  split; [reflexivity|].
  exact (proj1 (P "http://a" 1 (stopped_processor default_config) eq_refl)).
Defined.

(** Work that begins or goes on after a shutdown request.  First, a task
    handed to the executor before the request: with one worker the task of
    the second identifier waits in the queue while the first is checked, the
    request arrives, and the second task still starts and is counted as
    skipped.  Second, a request made while the only attempt of an item is in
    flight: the attempt runs to its end and the item is counted and recorded
    as failed, not aborted. *)
Lemma C4_counterexample :
  (let env := with_signal 4 (with_backend known_backend
                               (with_schedule [0; 0; 0; 1; 1; 1]%nat plain_env)) in
   let w := new_processor (with_max_workers 1 default_config) in
   let r := process_batch env ["http://a"; "http://b"] 1 w in
   rev (trace (snd r))
     = [EvBatch 1 2; EvSleep SleepTab; EvTask "http://a" 1;
        EvCheckDuplicate "http://a" (DupJson (Some true)); EvSignal;
        EvTask "http://b" 2;
        EvCheckDuplicate "http://b" (DupJson (Some true))] /\
   skipped (stats (snd r)) = 2) /\
  (let env := with_signal 1 plain_env in
   let w := new_processor (with_max_retries 1 default_config) in
   let r := process_single_url env "http://a" 1 w in
   trace (snd r)
     = [EvTabOpenerProbe false;
        EvCheckDuplicate "http://a" (DupJson (Some false));
        EvSleep SleepSettle; EvCloseTab "tab-1" true; EvSleep SleepExtraction;
        EvSignal; EvListTabs (TabsOk (Some (mkTab (Some "tab-1"))));
        EvAttempt "http://a" 1;
        EvCheckDuplicate "http://a" (DupJson (Some false));
        EvTask "http://a" 1] /\
   should_stop (snd r) = true /\
   fst r = ResError "http://a" "Failed after 1 attempts" /\
   fst r <> ResError "http://a" stopped_by_user /\
   failed (stats (snd r)) = 1 /\
   errors (stats (snd r)) = [mkError "http://a" "Failed after 1 attempts"]).
Proof. repeat split; discriminate. Qed.

(** ** Setup *)

Lemma try_binaries_spec site env binaries :
  forall w,
    let r := try_binaries site env binaries w in
    match fst r with
    | inr (Some binary) =>
        exists k, nth_error binaries k = Some binary /\
                  chrome_version site (clock w + k) binary = VersionOk /\
                  missing_before site (clock w) binaries k
    | inr None => missing_before site (clock w) binaries (List.length binaries)
    | inl e =>
        e = VersionCheckError /\
        exists k binary,
          nth_error binaries k = Some binary /\
          chrome_version site (clock w + k) binary = VersionRaised /\
          missing_before site (clock w) binaries k
    end.
Proof.
  assert (Shift : forall w a binaries k,
            chrome_version site (clock w) a = VersionMissing ->
            missing_before site (S (clock w)) binaries k ->
            missing_before site (clock w) (a :: binaries) (S k)).
  { intros w a bs k E H j b Hj Hb. destruct j as [|j].
    - cbn in Hb; injection Hb as <-. now rewrite Nat.add_0_r.
    - cbn in Hb. rewrite Nat.add_succ_r. apply (H j b); [lia | exact Hb]. }
  induction binaries as [|a binaries IH]; intros w; cbv zeta;
    cbn [try_binaries].
  - cbn. intros j b Hj; lia.
  - unfold ask at 1. rewrite !run_bind; cbn [gets fst snd ret].
    destruct (chrome_version site (clock w) a) eqn:E.
    + cbn [ret fst]. exists 0%nat. split; [reflexivity|].
      rewrite Nat.add_0_r. split; [exact E|]. intros j b Hj; lia.
    + specialize (IH (snd (tick env w))). cbv zeta in IH.
      change (clock (snd (tick env w))) with (S (clock w)) in IH.
      destruct (fst (try_binaries site env binaries (snd (tick env w))))
        as [e | [binary|]].
      * destruct IH as (-> & k & b & Hk & Hv & Hm). split; [reflexivity|].
        exists (S k), b. split; [exact Hk|]. split.
        -- now rewrite Nat.add_succ_r.
        -- now apply Shift.
      * destruct IH as (k & Hk & Hv & Hm). exists (S k). split; [exact Hk|].
        split; [now rewrite Nat.add_succ_r | now apply Shift].
      * cbn [List.length]. now apply Shift.
    + cbn [ret fst]. split; [reflexivity|]. exists 0%nat, a.
      split; [reflexivity|]. rewrite Nat.add_0_r. split; [exact E|].
      intros j b Hj; lia.
Qed.

(** [_check_chrome_available] tries the configured binary and then the three
    alternative names, in this order, each at its own time, and settles on the
    first that answers: it says yes with that binary written to the settings
    (and nothing else changed in them) when every earlier candidate was
    missing; it says no, the settings as they were, when all four were
    missing; it raises when a candidate fails in a way that is not caught,
    the earlier ones having been missing. *)
Theorem check_chrome_available_first_answer site env cs w :
  let r := _check_chrome_available site env cs w in
  let candidates := chrome_binary cs :: alternative_binaries in
  match fst r with
  | inr (true, cs') =>
      exists k,
        nth_error candidates k = Some (chrome_binary cs') /\
        chrome_version site (clock w + k) (chrome_binary cs') = VersionOk /\
        missing_before site (clock w) candidates k /\
        extension_path cs' = extension_path cs /\
        user_data_dir cs' = user_data_dir cs
  | inr (false, cs') =>
      cs' = cs /\ missing_before site (clock w) candidates 4
  | inl e =>
      e = VersionCheckError /\
      exists k binary,
        nth_error candidates k = Some binary /\
        chrome_version site (clock w + k) binary = VersionRaised /\
        missing_before site (clock w) candidates k
  end.
Proof.
  pose proof (try_binaries_spec site env (chrome_binary cs :: alternative_binaries) w)
    as H.
  cbv zeta in *. unfold _check_chrome_available.
  cbn [try_binaries] in H. rewrite run_bind in H. rewrite run_bind.
  revert H. set (first := ask env _). 
  destruct (fst (first w)); cbn [ret fst].
  - intros (k & Hk & Hv & Hm). exists k. auto.
  - rewrite run_bind.
    destruct (fst (try_binaries site env alternative_binaries (snd (first w))))
      as [e | [binary|]]; cbn [ret fst].
    + auto.
    + intros (k & Hk & Hv & Hm). exists k. cbn. auto.
    + intros Hm. split; [reflexivity | exact Hm].
  - auto.
Qed.

(** One step of a proof that a computation keeps an observation: as for any
    relation, or by running a step that neither calls nor branches. *)
Ltac kept_step f :=
  first
    [ respects_step (keeps_refl f) (keeps_trans f)
    | solve [ let w := fresh "w" in
              intro w; unfold keeps, f, tick; cbn [snd fst emit modify];
              try destruct (signal_at _ (clock w)); reflexivity ] ].

Ltac kept f := repeat kept_step f.

Lemma standing_ask env {A} (oracle : nat -> A) :
  respects (keeps standing) (ask env oracle).
Proof. unfold ask; kept standing. Qed.

#[local] Hint Resolve standing_ask : respects.

Lemma standing_make_directories site env directories :
  respects (keeps standing) (make_directories site env directories).
Proof.
  induction directories as [|d rest IH]; cbn [make_directories]; kept standing.
Qed.

Lemma standing_try_binaries site env binaries :
  respects (keeps standing) (try_binaries site env binaries).
Proof.
  induction binaries as [|b rest IH]; cbn [try_binaries]; kept standing.
Qed.

#[local] Hint Resolve standing_make_directories standing_try_binaries : respects.

Lemma standing_check_dependencies site env cs :
  respects (keeps standing) (_check_dependencies site env cs).
Proof.
  unfold _check_dependencies, _check_chrome_available; kept standing.
Qed.

Lemma standing_create_directories site env cs :
  respects (keeps standing) (_create_directories site env cs).
Proof. unfold _create_directories; kept standing. Qed.

#[local] Hint Resolve standing_check_dependencies standing_create_directories
  : respects.

(** [setup] leaves the statistics, the configuration, the browser handle and
    the trace (signal markers apart) as they were; it writes the progress
    file as its last step, and only when everything before succeeded.  When
    it fails the progress file is as it was, unless the failure is that of
    the write itself after the file was opened: then the file holds the part
    of the initial progress that had reached it. *)
Lemma setup_effects site env cs w :
  let r := setup site env cs w in
  stats (snd r) = stats w /\ config (snd r) = config w /\
  chrome_process (snd r) = chrome_process w /\
  work_log (trace (snd r)) = work_log (trace w) /\
  match fst r with
  | inl e =>
      progress_store (snd r) = progress_store w \/
      (e = ProgressFileError /\
       exists t cs' k,
         open_progress_ok env t = true /\ dump_fails_at env t = Some k /\
         progress_store (snd r)
         = Some (substring 0 k (initial_dump site t (stats w) (config w) cs')))
  | inr cs' =>
      exists t, progress_store (snd r)
                = Some (initial_dump site t (stats w) (config w) cs')
  end.
Proof.
  cbv zeta; unfold setup. rewrite run_bind.
  pose proof (standing_create_directories site env cs w) as K1.
  revert K1; generalize (snd (_create_directories site env cs w)).
  destruct (fst (_create_directories site env cs w)); cbn [negb];
    intros w1 K1; unfold keeps, standing in K1.
  2:{ cbn [ret fst snd]. injection K1 as -> -> -> -> ->. auto 6. }
  rewrite run_bind.
  pose proof (standing_check_dependencies site env cs w1) as K2.
  revert K2; generalize (snd (_check_dependencies site env cs w1)).
  destruct (fst (_check_dependencies site env cs w1)) as [e|cs'];
    intros w2 K2; unfold keeps, standing in K2.
  { cbn [ret fst snd]. injection K2 as -> -> -> -> ->.
    injection K1 as -> -> -> -> ->. auto 6. }
  assert (K : standing w2 = standing w) by (unfold standing; congruence).
  clear K1 K2 w1. unfold standing in K. injection K as S C P F T.
  rewrite run_bind. unfold _initialize_progress.
  rewrite !run_bind; cbn [gets fst snd]. rewrite open_progress_run.
  destruct (open_progress_ok env (clock w2)) eqn:O; cbn [fst snd].
  - rewrite !run_bind, dump_progress_run. cbn [clock set_store].
    destruct (dump_fails_at env (clock w2)) as [k|] eqn:D; cbn [fst snd];
      rewrite ?run_bind; unfold tick;
      cbn [modify ret fst snd trace deliver set_clock set_store
           stats config chrome_process progress_store];
      rewrite S, C, P; (split; [reflexivity|]); (split; [reflexivity|]);
      (split; [reflexivity|]);
      (split; [rewrite <- T; destruct (signal_at env _); reflexivity|]).
    + right. split; [reflexivity|]. exists (clock w2), cs', k. auto.
    + exists (clock w2). reflexivity.
  - rewrite ?run_bind; unfold tick;
      cbn [modify ret fst snd trace deliver set_clock set_store
           stats config chrome_process progress_store].
    rewrite S, C, P, F. split; [reflexivity|]. split; [reflexivity|].
    split; [reflexivity|]. split; [|left; reflexivity].
    rewrite <- T; destruct (signal_at env _); reflexivity.
Qed.

(** ** What the whole of [process_all_urls] keeps *)

Section KeepsAll.

Variable env : Env.
Variable A : Type.
Variable f : World -> A.

Hypothesis f_tick : forall w b, f (set_clock (S (clock w)) (deliver b w)) = f w.
Hypothesis f_log : forall e w, is_popen e = false -> f (log e w) = f w.
Hypothesis f_stats : forall s w, f (set_stats s w) = f w.
Hypothesis f_store : forall s w, f (set_store s w) = f w.

Lemma kept_tick : respects (keeps f) (tick env).
Proof. intro w; apply f_tick. Qed.

Lemma kept_emit e : is_popen e = false -> respects (keeps f) (emit e).
Proof. intros H w; apply f_log, H. Qed.

Lemma kept_stats (g : World -> ProcessingStats) :
  respects (keeps f) (modify (fun w => set_stats (g w) w)).
Proof. intro w; apply f_stats. Qed.

Lemma kept_update_stats g : respects (keeps f) (update_stats g).
Proof. intro w; apply f_stats. Qed.

Lemma kept_store s : respects (keeps f) (modify (set_store s)).
Proof. intro w; apply f_store. Qed.

#[local] Hint Resolve kept_tick kept_stats kept_update_stats kept_store
  : respects.
#[local] Hint Extern 1 (respects (keeps _) (emit _)) =>
  (apply kept_emit; reflexivity) : respects.

Ltac kept_all := repeat respects_step (keeps_refl f) (keeps_trans f).

Lemma kept_process_batch urls batch_index :
  respects (keeps f) (process_batch env urls batch_index).
Proof.
  apply process_batch_respects;
    [ apply keeps_refl | apply keeps_trans | apply kept_tick
    | intros e H; apply kept_emit; destruct e; try discriminate; reflexivity
    | intros g _; apply kept_update_stats
    | apply kept_emit; reflexivity
    | intros; apply kept_emit; reflexivity ].
Qed.

Lemma kept_save_progress : respects (keeps f) (_save_progress env).
Proof. unfold _save_progress, open_progress, dump_progress; kept_all. Qed.

#[local] Hint Resolve kept_process_batch kept_save_progress : respects.

Lemma kept_batch_loop urls starts :
  respects (keeps f) (batch_loop env urls starts).
Proof. induction starts as [|i rest IH]; cbn [batch_loop]; kept_all. Qed.

#[local] Hint Resolve kept_batch_loop : respects.

Lemma kept_process_all_urls urls :
  respects (keeps f) (process_all_urls env urls).
Proof. unfold process_all_urls; kept_all. Qed.

End KeepsAll.

Lemma chrome_process_process_all_urls env urls w :
  chrome_process (snd (process_all_urls env urls w)) = chrome_process w.
Proof.
  apply (kept_process_all_urls env _ chrome_process); intros; reflexivity.
Qed.

Lemma popen_log_tick w b :
  filter is_popen (trace (set_clock (S (clock w)) (deliver b w)))
  = filter is_popen (trace w).
Proof. destruct b; reflexivity. Qed.

Lemma popen_log_process_all_urls env urls w :
  filter is_popen (trace (snd (process_all_urls env urls w)))
  = filter is_popen (trace w).
Proof.
  apply (kept_process_all_urls env _ (fun v => filter is_popen (trace v)));
    intros; try reflexivity.
  - apply popen_log_tick.
  - cbn [trace log filter]. now rewrite H.
Qed.

Lemma popen_log_work_log tr :
  filter is_popen (work_log tr) = filter is_popen tr.
Proof.
  induction tr as [|e tr IH]; [reflexivity|].
  unfold work_log in *; cbn [filter].
  destruct e; cbn [is_signal negb filter is_popen]; rewrite IH; reflexivity.
Qed.

Lemma task_log_work_log tr : task_log (work_log tr) = task_log tr.
Proof.
  induction tr as [|e tr IH]; [reflexivity|].
  unfold work_log, task_log in *; cbn [filter flat_map].
  destruct e; cbn [is_signal negb flat_map app]; rewrite IH; reflexivity.
Qed.

Lemma in_popen_log p tr :
  In (EvPopen p) tr <-> In (EvPopen p) (filter is_popen tr).
Proof. rewrite filter_In. cbn. tauto. Qed.

(** ** The run *)

Lemma books_start_chrome env : respects (keeps books) (start_chrome env).
Proof. unfold start_chrome, _verify_chrome_debugging; kept books. Qed.

Lemma books_stop_chrome env : respects (keeps books) (stop_chrome env).
Proof. unfold stop_chrome; kept books. Qed.

Lemma stop_chrome_clears env w : chrome_process (snd (stop_chrome env w)) = None.
Proof.
  unfold stop_chrome; rewrite run_bind; cbn [gets fst snd].
  destruct (chrome_process w) as [pid|] eqn:H; [reflexivity | exact H].
Qed.

Lemma stop_chrome_idle env w :
  chrome_process w = None -> stop_chrome env w = (tt, w).
Proof.
  intros H; unfold stop_chrome; rewrite run_bind; cbn [gets fst snd].
  now rewrite H.
Qed.

(** When a step of [setup] fails, [run] fails with the same error before
    anything else is done: on a processor that holds no browser the world is
    as [setup] left it, with the statistics and the trace (signal markers
    apart) as they were.  The progress file is as it was too, unless what
    failed is the write of the initial progress after the file was opened:
    the file then holds the part of the initial progress that had reached
    it. *)
Theorem missing_dependency_stops_run site env cs w e :
  chrome_process w = None ->
  fst (setup site env cs w) = inl e ->
  let r := run site env cs w in
  fst r = inl e /\
  snd r = snd (setup site env cs w) /\
  stats (snd r) = stats w /\
  work_log (trace (snd r)) = work_log (trace w) /\
  (e <> ProgressFileError -> progress_store (snd r) = progress_store w) /\
  (progress_store (snd r) = progress_store w \/
   exists t cs' k,
     open_progress_ok env t = true /\ dump_fails_at env t = Some k /\
     progress_store (snd r)
     = Some (substring 0 k (initial_dump site t (stats w) (config w) cs'))).
Proof.
  intros Hc He; cbv zeta.
  destruct (setup_effects site env cs w) as (S & _ & P & T & F).
  rewrite He in F.
  unfold run, run_body. rewrite !run_bind. rewrite He. cbn [ret fst snd].
  rewrite stop_chrome_idle by congruence. cbn [fst snd].
  split; [reflexivity|]. split; [reflexivity|]. split; [exact S|].
  split; [exact T|]. split.
  - intros N. destruct F as [F | (F & _)]; [exact F | contradiction].
  - destruct F as [F | (_ & F)]; [left; exact F | right; exact F].
Qed.

Lemma missing_dependency_stops_run_witness :
  let site := mkSite (fun _ _ => true) (fun _ => false) (fun _ => true)
                     (fun _ _ => VersionOk) (fun _ => true)
                     (fun _ _ _ _ => "{}"%string) (fun _ => None) in
  let r := run site plain_env default_chrome_settings
               (new_processor default_config) in
  fst r = inl BackendUnavailable /\ progress_store (snd r) = None /\
  work_log (trace (snd r)) = [].
Proof.
  intros site.
  destruct (missing_dependency_stops_run site plain_env default_chrome_settings
              (new_processor default_config) BackendUnavailable
              eq_refl eq_refl) as (A & _ & _ & C & B & _).
  split; [exact A|]. split; [apply B; discriminate | exact C].
Defined.

Lemma start_chrome_browser env w pid :
  In (EvPopen (Some pid)) (trace (snd (start_chrome env w))) ->
  In (EvPopen (Some pid)) (trace w)
  \/ chrome_process (snd (start_chrome env w)) = Some pid.
Proof.
  unfold start_chrome. rewrite run_bind.
  change (fst (io env (popen env) EvPopen w)) with (popen env (clock w)).
  pose proof (in_io env (popen env) EvPopen (EvPopen (Some pid)) w) as I1.
  assert (C1 : chrome_process (snd (io env (popen env) EvPopen w))
               = chrome_process w) by reflexivity.
  revert I1 C1; generalize (snd (io env (popen env) EvPopen w)); intros w1 I1 C1.
  destruct (popen env (clock w)) as [p|].
  - rewrite !run_bind; cbn [modify fst snd].
    set (w2 := set_chrome (Some p) w1).
    unfold _verify_chrome_debugging.
    intros H. apply in_io in H. destruct H as [H|[H|H]]; try discriminate.
    apply in_sleep in H. destruct H as [H|[H|H]]; try discriminate.
    apply I1 in H. destruct H as [H|[H|H]]; try discriminate.
    + injection H as ->. right. reflexivity.
    + now left.
  - cbn [ret snd]. intros H. apply I1 in H.
    destruct H as [H|[H|H]]; try discriminate. now left.
Qed.

Lemma before_items_refl w : before_items w w.
Proof. repeat split. intros pid H; now left. Qed.

Lemma before_items_standing w v v' :
  before_items w v -> standing v' = standing v -> before_items w v'.
Proof.
  intros (T & S & C & P) K. unfold standing in K.
  injection K as KS KC KP _ KT.
  split; [|split; [|split]]; try congruence.
  - rewrite <- T, <- (task_log_work_log (trace v')), KT.
    apply task_log_work_log.
  - intros pid H. rewrite KP. apply P.
    apply <- in_popen_log.
    rewrite <- popen_log_work_log, <- KT, popen_log_work_log.
    apply -> in_popen_log. exact H.
Qed.

Lemma before_items_start_chrome env w v :
  task_log (trace v) = task_log (trace w) ->
  stats v = stats w -> config v = config w ->
  (forall pid, In (EvPopen (Some pid)) (trace v) ->
               In (EvPopen (Some pid)) (trace w)) ->
  before_items w (snd (start_chrome env v)).
Proof.
  intros T S C P.
  pose proof (books_start_chrome env v) as K. unfold keeps, books in K.
  injection K as KT KS KC _.
  split; [|split; [|split]]; try congruence.
  intros pid H. destruct (start_chrome_browser env v pid H) as [H1 | H1];
    [left; now apply P | now right].
Qed.

(** The try block of [run] either fails before any item is run, or hands a
    list of identifiers that is not empty to [process_all_urls] after [setup]
    succeeded and [start_chrome] said yes. *)
Lemma run_body_cases site env cs w :
  let r := run_body site env cs w in
  (exists e, fst r = inl e /\ before_items w (snd r)) \/
  (exists cs' urls v,
     fst (setup site env cs w) = inr cs' /\
     fst (start_chrome env (snd (setup site env cs w))) = true /\
     urls <> [] /\ before_items w v /\
     r = (match fst (process_all_urls env urls v) with
          | inl e => inl (Raised e)
          | inr _ => inr tt
          end, snd (process_all_urls env urls v))).
Proof.
  cbv zeta; unfold run_body. rewrite run_bind.
  destruct (setup_effects site env cs w) as (S1 & C1 & P1 & T1 & _).
  assert (B1 : task_log (trace (snd (setup site env cs w))) = task_log (trace w)).
  { rewrite <- task_log_work_log, T1. apply task_log_work_log. }
  assert (L1 : forall pid,
            In (EvPopen (Some pid)) (trace (snd (setup site env cs w))) ->
            In (EvPopen (Some pid)) (trace w)).
  { intros pid H. apply <- in_popen_log.
    rewrite <- popen_log_work_log, <- T1, popen_log_work_log.
    apply -> in_popen_log. exact H. }
  revert S1 C1 P1 T1 B1 L1.
  generalize (snd (setup site env cs w)).
  destruct (fst (setup site env cs w)) as [e|cs']; intros w1 S1 C1 P1 T1 B1 L1.
  { left. exists e. cbn [ret fst snd]. split; [reflexivity|].
    split; [exact B1|]. split; [exact S1|]. split; [exact C1|].
    intros pid H; left; now apply L1. }
  rewrite run_bind.
  pose proof (before_items_start_chrome env w w1 B1 S1 C1 L1) as B2.
  revert B2; generalize (snd (start_chrome env w1)).
  destruct (fst (start_chrome env w1)); intros w2 B2; cbn [negb].
  2:{ left. exists ChromeStartFailed. cbn [ret fst snd]. auto. }
  rewrite run_bind.
  pose proof (before_items_standing w w2 _ B2 (standing_ask env (open_csv site) w2))
    as B3.
  revert B3; generalize (snd (ask env (open_csv site) w2)).
  destruct (fst (ask env (open_csv site) w2)) as [file|]; intros w3 B3.
  2:{ left. exists CsvOpenError. cbn [ret fst snd]. auto. }
  destruct (Csv.load_urls_from_csv file) as [e|[|u us]].
  - left. exists (Raised e). cbn [ret fst snd]. auto.
  - left. exists NoUrls. cbn [ret fst snd]. auto.
  - right. exists cs', (u :: us), w3.
    split; [reflexivity|]. split; [reflexivity|]. split; [discriminate|].
    split; [exact B3|]. rewrite run_bind.
    destruct (fst (process_all_urls env (u :: us) w3)); reflexivity.
Qed.

Lemma run_result site env cs w :
  fst (run site env cs w) = fst (run_body site env cs w) /\
  snd (run site env cs w) = snd (stop_chrome env (snd (run_body site env cs w))).
Proof. unfold run; rewrite !run_bind; split; reflexivity. Qed.

Lemma stop_chrome_stays_stopped env w :
  should_stop w = true -> should_stop (snd (stop_chrome env w)) = true.
Proof.
  intros H; unfold stop_chrome, io, tick.
  rewrite !run_bind; cbn [gets fst snd].
  destruct (chrome_process w); [|exact H].
  rewrite !run_bind; cbn [gets emit modify ret fst snd].
  destruct (exits_within_timeout env _ _); cbn; rewrite H; reflexivity.
Qed.

Lemma stop_chrome_terminates env w pid :
  chrome_process w = Some pid ->
  In (EvTerminate pid) (trace (snd (stop_chrome env w))).
Proof.
  intros H; unfold stop_chrome, io, tick.
  rewrite !run_bind; cbn [gets fst snd]. rewrite H.
  rewrite !run_bind; cbn [gets emit modify ret fst snd].
  destruct (exits_within_timeout env _ _); cbn;
    destruct (signal_at env _); cbn; auto 6.
Qed.

Lemma popen_log_stop_chrome env :
  respects (keeps (fun v => filter is_popen (trace v))) (stop_chrome env).
Proof.
  set (f := fun v => filter is_popen (trace v)).
  unfold stop_chrome; kept f.
Qed.

(** [run] runs an item only after [setup] succeeded and [start_chrome],
    called on the world [setup] left, said yes. *)
Theorem items_need_ready_browser site env cs w :
  task_log (trace (snd (run site env cs w))) <> task_log (trace w) ->
  (exists cs', fst (setup site env cs w) = inr cs') /\
  fst (start_chrome env (snd (setup site env cs w))) = true.
Proof.
  intros H. destruct (run_result site env cs w) as (_ & E). rewrite E in H.
  pose proof (books_stop_chrome env (snd (run_body site env cs w))) as K.
  unfold keeps, books in K. injection K as KT _ _ _. rewrite KT in H.
  destruct (run_body_cases site env cs w) as [(e & _ & (T & _)) | R].
  - contradiction.
  - destruct R as (cs' & urls & v & Hs & Hc & _). split; [now exists cs' | exact Hc].
Qed.

Lemma items_need_ready_browser_witness :
  let site := plain_site (Csv.mkCsvFile "http://a" [["http://a"]]) in
  fst (start_chrome plain_env
         (snd (setup site plain_env default_chrome_settings
                 (new_processor default_config)))) = true.
Proof.
  intros site.
  refine (proj2 (items_need_ready_browser site plain_env default_chrome_settings
                   (new_processor default_config) _)).
  vm_compute; discriminate.
Defined.

(** In CPython a [run] that returns normally has begun no item and counted
    no outcome: it was given a negative batch size, or a shutdown was
    requested before the launch loop of the first batch read the flag.  If
    that batch was entered it was still added to the processed count, which
    has grown by one batch at most. *)
Theorem cpython_normal_run_ran_nothing site env cs w :
  as_completed_yields env = false ->
  fst (run site env cs w) = inr tt ->
  let w' := snd (run site env cs w) in
  task_log (trace w') = task_log (trace w) /\
  successful (stats w') = successful (stats w) /\
  failed (stats w') = failed (stats w) /\
  skipped (stats w') = skipped (stats w) /\
  errors (stats w') = errors (stats w) /\
  processed (stats w) <= processed (stats w')
    <= processed (stats w) + Z.max 0 (batch_size (config w)) /\
  chrome_process w' = None /\
  (batch_size (config w) < 0 \/ should_stop w' = true).
Proof.
  intros Y H; cbv zeta.
  destruct (run_result site env cs w) as (F & E). rewrite F in H. rewrite E.
  pose proof (books_stop_chrome env (snd (run_body site env cs w))) as K.
  unfold keeps, books in K. injection K as KT KS _ _. rewrite KT, KS.
  destruct (run_body_cases site env cs w) as [(e & He & _) | R].
  { rewrite He in H; discriminate. }
  destruct R as (cs' & urls & v & _ & _ & Hu & (T & S & C & _) & R).
  rewrite R in H |- *. cbn [fst snd] in *.
  assert (P : fst (process_all_urls env urls v) = inr tt).
  { destruct (fst (process_all_urls env urls v)) as [e|[]];
      [discriminate | reflexivity]. }
  destruct (process_all_urls_normal_return env urls v Y P)
    as (T' & (k & S' & B) & D).
  rewrite T', T, S', S, C in *.
  cbn [add_processed begin_stats processed successful failed skipped errors].
  repeat (split; [reflexivity|]). split; [lia|].
  split; [apply stop_chrome_clears|].
  destruct D as [D | [D | D]]; [contradiction | left; exact D |].
  right. now apply stop_chrome_stays_stopped.
Qed.

Lemma cpython_normal_run_ran_nothing_witness :
  let site := plain_site (Csv.mkCsvFile "http://a" [["http://a"]]) in
  let w' := snd (run site (with_signal 12 plain_env) default_chrome_settings
                     (new_processor default_config)) in
  task_log (trace w') = [] /\ processed (stats w') = 1 /\
  should_stop w' = true.
Proof.
  intros site.
  destruct (cpython_normal_run_ran_nothing site (with_signal 12 plain_env)
              default_chrome_settings (new_processor default_config)
              eq_refl eq_refl)
    as (A & _ & _ & _ & _ & _ & _ & B).
  split; [exact A|]. split; [reflexivity|].
  destruct B as [B | B]; [discriminate B | exact B].
Defined.

(** [run] never leaves a browser behind: it ends holding none, and every
    browser process launched during the run has been told to terminate,
    whether the run succeeded or failed and wherever it failed. *)
Theorem run_releases_browser site env cs w :
  let r := run site env cs w in
  chrome_process (snd r) = None /\
  forall pid, In (EvPopen (Some pid)) (trace (snd r)) ->
              In (EvPopen (Some pid)) (trace w)
              \/ In (EvTerminate pid) (trace (snd r)).
Proof.
  cbv zeta. destruct (run_result site env cs w) as (_ & E). rewrite E.
  split; [apply stop_chrome_clears|]. intros pid H.
  apply -> in_popen_log in H.
  rewrite (popen_log_stop_chrome env (snd (run_body site env cs w))) in H.
  apply <- in_popen_log in H.
  assert (B : In (EvPopen (Some pid)) (trace w)
              \/ chrome_process (snd (run_body site env cs w)) = Some pid).
  { destruct (run_body_cases site env cs w) as [(e & _ & (_ & _ & _ & P)) | R].
    - now apply P.
    - destruct R as (cs' & urls & v & _ & _ & _ & (_ & _ & _ & P) & R).
      rewrite R in H |- *. cbn [snd] in *.
      rewrite chrome_process_process_all_urls. apply P.
      apply <- in_popen_log. rewrite <- (popen_log_process_all_urls env urls v).
      apply -> in_popen_log. exact H. }
  destruct B as [B | B]; [now left | right].
  now apply stop_chrome_terminates.
Qed.

(** ** Further properties of the scheduler, the supervisor and the loader *)

(** Neither an item task nor a whole batch touches the ledger: whatever the
    outside answers, the progress file, the processed count, the total, the
    configuration and the browser handle are after it as they were before.
    They change in [process_all_urls] and in the supervisor only. *)
Theorem tasks_leave_ledger env :
  (forall url index w,
     ledger (snd (process_single_url env url index w)) = ledger w) /\
  (forall urls batch_index w,
     ledger (snd (process_batch env urls batch_index w)) = ledger w).
Proof.
  split; [apply ledger_item | apply ledger_process_batch].
Qed.

(** [start_chrome] says yes exactly when Popen launched a process and the
    debugging port answered after the start delay.  A launched process is the
    one held afterwards, also when the answer is no; when Popen raised, the
    handle is as it was. *)
Theorem start_chrome_yes_means_running env w :
  let r := start_chrome env w in
  (fst r = true <->
   (exists pid, popen env (clock w) = Some pid) /\
   debug_port_ok env (2 + clock w) = true) /\
  (forall pid, popen env (clock w) = Some pid ->
               chrome_process (snd r) = Some pid) /\
  (popen env (clock w) = None -> chrome_process (snd r) = chrome_process w).
Proof.
  cbv zeta; unfold start_chrome, _verify_chrome_debugging, io, sleep, tick.
  rewrite !run_bind; cbn [gets emit modify ret fst snd].
  destruct (popen env (clock w)) as [p|].
  - rewrite !run_bind; cbn [gets emit modify ret fst snd].
    split; [|split].
    + cbn. split.
      * intros H. split; [now exists p | exact H].
      * intros (_ & H); exact H.
    + intros pid H; injection H as <-. reflexivity.
    + discriminate.
  - cbn [ret fst snd]. split; [|split].
    + split; [discriminate | intros ((pid & H) & _); discriminate].
    + discriminate.
    + reflexivity.
Qed.

Lemma load_urls_from_csv_returns_witness :
  exists urls,
    Csv.load_urls_from_csv
      (Csv.mkCsvFile "url,name" [["url"; "name"]; ["http://a"; "Ann"]]%string)
    = inr urls.
Proof.
  apply load_urls_from_csv_returns; [reflexivity|]. right.
  intros fieldnames rows H; injection H as <- <-.
  repeat constructor.
Defined.

(** ** What a successful setup has found *)

Lemma later_refl w : later w w.
Proof. unfold later; lia. Qed.

Lemma later_trans w1 w2 w3 : later w1 w2 -> later w2 w3 -> later w1 w3.
Proof. unfold later; lia. Qed.

Ltac later_step :=
  first
    [ respects_step later_refl later_trans
    | solve [ let w := fresh "w" in
              intro w; unfold later, tick; cbn; lia ] ].

Lemma later_ask env {A} (oracle : nat -> A) : respects later (ask env oracle).
Proof. unfold ask; repeat later_step. Qed.

#[local] Hint Resolve later_ask : respects.

Lemma later_make_directories site env directories :
  respects later (make_directories site env directories).
Proof.
  induction directories as [|d rest IH]; cbn [make_directories];
    repeat later_step.
Qed.

Lemma later_try_binaries site env binaries :
  respects later (try_binaries site env binaries).
Proof.
  induction binaries as [|b rest IH]; cbn [try_binaries]; repeat later_step.
Qed.

#[local] Hint Resolve later_make_directories later_try_binaries : respects.

Lemma later_check_chrome_available site env cs :
  respects later (_check_chrome_available site env cs).
Proof. unfold _check_chrome_available; repeat later_step. Qed.

#[local] Hint Resolve later_check_chrome_available : respects.

Lemma during_wider w1 w2 w3 w4 t :
  later w1 w2 -> during w2 w3 t -> later w3 w4 -> during w1 w4 t.
Proof. unfold later, during; lia. Qed.

Lemma ask_run env {A} (oracle : nat -> A) w :
  fst (ask env oracle w) = oracle (clock w) /\
  during w (snd (ask env oracle w)) (clock w).
Proof. split; [reflexivity|]. unfold during; cbn. lia. Qed.

Lemma make_directories_ok site env directories :
  forall w,
    fst (make_directories site env directories w) = true ->
    forall d, In d directories ->
      exists t, during w (snd (make_directories site env directories w)) t /\
                makedirs_ok site t d = true.
Proof.
  induction directories as [|a rest IH]; intros w H d Hd; [destruct Hd|].
  cbn [make_directories] in *. rewrite run_bind in H |- *.
  destruct (ask_run env (fun t => makedirs_ok site t a) w) as (E & D).
  pose proof (later_ask env (fun t => makedirs_ok site t a) w) as L.
  revert H E D L.
  generalize (snd (ask env (fun t => makedirs_ok site t a) w)).
  generalize (fst (ask env (fun t => makedirs_ok site t a) w)).
  intros ok w1 H E D L. destruct ok; [|discriminate].
  pose proof (later_make_directories site env rest w1) as L2.
  destruct Hd as [<- | Hd].
  - exists (clock w). split; [|now rewrite <- E].
    apply (during_wider w w w1 _ _ (later_refl w) D L2).
  - destruct (IH w1 H d Hd) as (t & Dt & Ht). exists t. split; [|exact Ht].
    apply (during_wider w w1 _ _ _ L Dt (later_refl _)).
Qed.

Lemma try_binaries_found site env binaries :
  forall w binary,
    fst (try_binaries site env binaries w) = inr (Some binary) ->
    In binary binaries /\
    exists t, during w (snd (try_binaries site env binaries w)) t /\
              chrome_version site t binary = VersionOk.
Proof.
  induction binaries as [|a rest IH]; intros w binary; cbn [try_binaries];
    [discriminate|].
  rewrite run_bind.
  destruct (ask_run env (fun t => chrome_version site t a) w) as (E & D).
  pose proof (later_ask env (fun t => chrome_version site t a) w) as L.
  revert E D L.
  generalize (snd (ask env (fun t => chrome_version site t a) w)).
  generalize (fst (ask env (fun t => chrome_version site t a) w)).
  intros r w1 E D L. destruct r; cbn [ret fst snd]; try discriminate.
  - intros H; injection H as <-. split; [now left|].
    exists (clock w). split; [exact D | now rewrite <- E].
  - intros H. destruct (IH w1 binary H) as (Hin & t & Dt & Ht).
    split; [now right|]. exists t. split; [|exact Ht].
    apply (during_wider w w1 _ _ _ L Dt (later_refl _)).
Qed.

Lemma check_chrome_available_yes site env cs w cs' :
  fst (_check_chrome_available site env cs w) = inr (true, cs') ->
  In (chrome_binary cs') (chrome_binary cs :: alternative_binaries) /\
  exists t, during w (snd (_check_chrome_available site env cs w)) t /\
            chrome_version site t (chrome_binary cs') = VersionOk.
Proof.
  unfold _check_chrome_available. rewrite run_bind.
  destruct (ask_run env (fun t => chrome_version site t (chrome_binary cs)) w)
    as (E & D).
  pose proof (later_ask env (fun t => chrome_version site t (chrome_binary cs)) w)
    as L.
  revert E D L.
  generalize (snd (ask env (fun t => chrome_version site t (chrome_binary cs)) w)).
  generalize (fst (ask env (fun t => chrome_version site t (chrome_binary cs)) w)).
  intros r w1 E D L. destruct r.
  - cbn [ret fst snd]. intros H; injection H as <-.
    split; [now left|]. exists (clock w). split; [exact D | now rewrite <- E].
  - rewrite run_bind.
    pose proof (try_binaries_found site env alternative_binaries w1) as T.
    revert T.
    generalize (snd (try_binaries site env alternative_binaries w1)).
    destruct (fst (try_binaries site env alternative_binaries w1))
      as [e | [binary|]]; intros w2 T; cbn [ret fst snd]; try discriminate.
    intros H; injection H as <-. cbn [chrome_binary set_chrome_binary].
    destruct (T binary eq_refl) as (Hin & t & Dt & Ht).
    split; [now right|]. exists t. split; [|exact Ht].
    apply (during_wider w w1 _ _ _ L Dt (later_refl _)).
  - cbn [ret fst]. discriminate.
Qed.

Lemma check_dependencies_ok site env cs w cs' :
  fst (_check_dependencies site env cs w) = inr cs' ->
  let w' := snd (_check_dependencies site env cs w) in
  (exists t, during w w' t /\ health_ok site t = true) /\
  (exists t, during w w' t /\ csv_exists site t = true) /\
  In (chrome_binary cs') (chrome_binary cs :: alternative_binaries) /\
  (exists t, during w w' t /\
             chrome_version site t (chrome_binary cs') = VersionOk) /\
  (exists t, during w w' t /\ manifest_exists site t = true).
Proof.
  cbv zeta; unfold _check_dependencies. rewrite run_bind.
  destruct (ask_run env (health_ok site) w) as (E1 & D1).
  pose proof (later_ask env (health_ok site) w) as L1.
  revert E1 D1 L1.
  generalize (snd (ask env (health_ok site) w)).
  generalize (fst (ask env (health_ok site) w)).
  intros healthy w1 E1 D1 L1. destruct healthy; cbn [negb]; [|discriminate].
  rewrite run_bind.
  destruct (ask_run env (csv_exists site) w1) as (E2 & D2).
  pose proof (later_ask env (csv_exists site) w1) as L2.
  revert E2 D2 L2.
  generalize (snd (ask env (csv_exists site) w1)).
  generalize (fst (ask env (csv_exists site) w1)).
  intros found w2 E2 D2 L2. destruct found; cbn [negb]; [|discriminate].
  rewrite run_bind.
  pose proof (check_chrome_available_yes site env cs w2) as C3.
  pose proof (later_check_chrome_available site env cs w2) as L3.
  revert C3 L3.
  generalize (snd (_check_chrome_available site env cs w2)).
  destruct (fst (_check_chrome_available site env cs w2))
    as [e | [[|] cs3]]; intros w3 C3 L3; cbn [ret fst snd]; try discriminate.
  rewrite run_bind.
  destruct (ask_run env (manifest_exists site) w3) as (E4 & D4).
  pose proof (later_ask env (manifest_exists site) w3) as L4.
  revert E4 D4 L4.
  generalize (snd (ask env (manifest_exists site) w3)).
  generalize (fst (ask env (manifest_exists site) w3)).
  intros manifest w4 E4 D4 L4. destruct manifest; cbn [negb ret fst snd];
    [|discriminate].
  intros H; injection H as <-.
  destruct (C3 cs3 eq_refl) as (Hin & t & Dt & Ht).
  unfold later, during in *.
  split; [exists (clock w); split; [lia | now rewrite <- E1]|].
  split; [exists (clock w1); split; [lia | now rewrite <- E2]|].
  split; [exact Hin|].
  split; [exists t; split; [lia | exact Ht]|].
  exists (clock w3); split; [lia | now rewrite <- E4].
Qed.

Lemma later_check_dependencies site env cs :
  respects later (_check_dependencies site env cs).
Proof. unfold _check_dependencies; repeat later_step. Qed.

(** A [setup] that succeeds has found everything the run depends on, each at
    some step of its own: the three directories could be made, the backend
    was healthy, the input file and the extension manifest existed, the
    browser binary it leaves in the settings (the configured one or one of
    the alternatives) answered, and the progress file could be opened and
    holds the initial progress. *)
Theorem setup_success_means_ready site env cs w cs' :
  fst (setup site env cs w) = inr cs' ->
  let w' := snd (setup site env cs w) in
  (forall d, In d ["logs"; "temp"; user_data_dir cs]%string ->
             exists t, during w w' t /\ makedirs_ok site t d = true) /\
  (exists t, during w w' t /\ health_ok site t = true) /\
  (exists t, during w w' t /\ csv_exists site t = true) /\
  In (chrome_binary cs') (chrome_binary cs :: alternative_binaries) /\
  (exists t, during w w' t /\
             chrome_version site t (chrome_binary cs') = VersionOk) /\
  (exists t, during w w' t /\ manifest_exists site t = true) /\
  (exists t, during w w' t /\ open_progress_ok env t = true /\
             progress_store w'
             = Some (initial_dump site t (stats w) (config w) cs')).
Proof.
  cbv zeta; unfold setup. rewrite run_bind.
  pose proof (make_directories_ok site env ["logs"; "temp"; user_data_dir cs]%string w)
    as M1.
  pose proof (later_make_directories site env
                ["logs"; "temp"; user_data_dir cs]%string w) as L1.
  pose proof (standing_create_directories site env cs w) as K1.
  unfold _create_directories in *. revert M1 L1 K1.
  generalize (snd (make_directories site env
                     ["logs"; "temp"; user_data_dir cs]%string w)).
  destruct (fst (make_directories site env
                   ["logs"; "temp"; user_data_dir cs]%string w));
    intros w1 M1 L1 K1; cbn [negb]; [|discriminate].
  specialize (M1 eq_refl). rewrite run_bind.
  pose proof (check_dependencies_ok site env cs w1) as M2.
  pose proof (later_check_dependencies site env cs w1) as L2.
  pose proof (standing_check_dependencies site env cs w1) as K2.
  revert M2 L2 K2.
  generalize (snd (_check_dependencies site env cs w1)).
  destruct (fst (_check_dependencies site env cs w1)) as [e|cs2];
    intros w2 M2 L2 K2; [discriminate|].
  specialize (M2 cs2 eq_refl). cbv zeta in M2.
  destruct M2 as ((t1 & D1 & H1) & (t2 & D2 & H2) & Hin & (t3 & D3 & H3)
                  & (t4 & D4 & H4)).
  assert (K : standing w2 = standing w)
    by (unfold keeps in K1, K2; congruence).
  unfold standing in K. injection K as KS KC _ _ _.
  rewrite run_bind. unfold _initialize_progress.
  rewrite !run_bind; cbn [gets fst snd]. rewrite open_progress_run.
  destruct (open_progress_ok env (clock w2)) eqn:E5; cbn [fst snd];
    rewrite ?run_bind; [|discriminate].
  rewrite dump_progress_run. cbn [clock set_store].
  destruct (dump_fails_at env (clock w2)); cbn [fst snd]; rewrite ?run_bind;
    unfold tick; cbn [modify ret fst snd]; [discriminate|].
  intros H; injection H as <-.
  unfold later, during in *. cbn [clock set_clock deliver set_store].
  split.
  { intros d Hd. destruct (M1 d Hd) as (t & Dt & Ht). exists t.
    split; [lia | exact Ht]. }
  split; [exists t1; split; [lia | exact H1]|].
  split; [exists t2; split; [lia | exact H2]|].
  split; [exact Hin|].
  split; [exists t3; split; [lia | exact H3]|].
  split; [exists t4; split; [lia | exact H4]|].
  exists (clock w2). split; [lia|]. split; [exact E5|].
  cbn [progress_store set_clock deliver set_store]. now rewrite KS, KC.
Qed.

Lemma setup_success_means_ready_witness :
  let site := plain_site (Csv.mkCsvFile "http://a" [["http://a"]]) in
  let w' := snd (setup site plain_env default_chrome_settings
                       (new_processor default_config)) in
  exists t, during (new_processor default_config) w' t /\
            health_ok site t = true.
Proof.
  intros site.
  exact (proj1 (proj2 (setup_success_means_ready site plain_env
                         default_chrome_settings (new_processor default_config)
                         default_chrome_settings eq_refl))).
Defined.

(** ** The executor *)

(** A number of workers that is not positive is refused when the first batch
    creates its executor: [process_all_urls] ends in ValueError having
    announced that batch and begun no item, with the processed count and the
    progress file as they were. *)
Theorem nonpositive_max_workers_raises env urls w :
  should_stop w = false -> urls <> [] ->
  0 < batch_size (config w) -> max_workers (config w) <= 0 ->
  let r := process_all_urls env urls w in
  fst r = inl ValueError /\
  task_log (trace (snd r)) = task_log (trace w) /\
  count is_batch (trace (snd r)) = S (count is_batch (trace w)) /\
  processed (stats (snd r)) = processed (stats w) /\
  progress_store (snd r) = progress_store w.
Proof.
  intros Hs Hu Hb Hw; cbv zeta; unfold process_all_urls.
  rewrite run_bind; cbn [modify fst snd].
  set (n := Z.of_nat (List.length urls)).
  set (w0 := set_stats (begin_stats n (clock w) (stats w)) w).
  rewrite run_bind; cbn [gets fst snd].
  change (config w0) with (config w).
  destruct (batch_size (config w) =? 0) eqn:E; [apply Z.eqb_eq in E; lia|].
  rewrite run_bind.
  assert (Hn : 0 < n) by (unfold n; destruct urls; [contradiction | cbn; lia]).
  destruct (py_range0_first n _ Hn Hb) as (rest & ->).
  cbn [batch_loop]. rewrite run_bind; cbn [gets fst snd].
  change (should_stop w0) with (should_stop w). rewrite Hs.
  rewrite run_bind; cbn [gets fst snd]. rewrite run_bind.
  change (config w0) with (config w).
  rewrite process_batch_run; cbv zeta.
  change (config w0) with (config w).
  destruct (max_workers (config w) <=? 0) eqn:L; [|apply Z.leb_gt in L; lia].
  cbn [ret fst snd]. unfold tick; cbn [snd].
  split; [reflexivity|]. split; [now rewrite task_log_tick|].
  split; [now rewrite count_batch_tick|].
  split; reflexivity.
Qed.

Lemma nonpositive_max_workers_raises_witness :
  let r := process_all_urls plain_env ["http://a"]%string
             (new_processor (with_max_workers 0 default_config)) in
  fst r = inl ValueError /\ task_log (trace (snd r)) = [].
Proof.
  destruct (nonpositive_max_workers_raises plain_env ["http://a"]%string
              (new_processor (with_max_workers 0 default_config))
              eq_refl ltac:(discriminate) eq_refl ltac:(cbn; lia))
    as (A & B & _).
  split; assumption.
Defined.










